(** * FostPlus API client (custom_components/recycle_app/api.py)

    A shallow embedding of the [FostPlusApi] class: the JSON values the
    remote service answers with, the Python operations the client applies
    to them (with the built-in errors they raise), the HTTP session as an
    explicit request log, and the client's methods as computations in a
    state-and-exception monad. *)

From Stdlib Require Import ZArith List String Ascii Bool Lia.
From Stdlib Require Import Floats.SpecFloat DecimalString.
Import ListNotations.

Open Scope string_scope.
Open Scope Z_scope.

Set Warnings "-register-all".

(* ================================================================== *)
(** * Python values and built-in operations                           *)
(* ================================================================== *)

Module Py.

(** What [response.json()] can produce.  A float is kept as its IEEE-754
    specification value, so NaN and the infinities (which Python's JSON
    decoder accepts) are present.  A dict is its list of bindings in
    insertion order; of two bindings of one key the first is the live one. *)
Inductive pyval : Type :=
| PNone
| PBool (b : bool)
| PInt (z : Z)
| PFloat (f : spec_float)
| PStr (s : string)
| PList (l : list pyval)
| PDict (d : list (string * pyval)).

(** The built-in (and [requests]) exceptions the client's code can meet. *)
Inductive builtin_error : Type :=
| TypeError | KeyError | IndexError | ValueError | AttributeError
| OverflowError | JSONDecodeError | ConnectionError.

(** Result of a pure Python expression: a value or a built-in error. *)
Inductive res (A : Type) : Type :=
| Val (a : A)
| Err (e : builtin_error).
Arguments Val {A} a.
Arguments Err {A} e.

Definition res_bind {A B} (r : res A) (k : A -> res B) : res B :=
  match r with
  | Val a => k a
  | Err e => Err e
  end.

Notation "x <~ e ;; k" := (res_bind e (fun x => k))
  (at level 61, e at next level, right associativity).
Notation "' p <~ e ;; k" := (res_bind e (fun p => k))
  (at level 61, p pattern, e at next level, right associativity).

(** [datetime.date]: a triple that passed the constructor's range check. *)
Record pydate : Type := mkdate { year : Z; month : Z; day : Z }.

Definition date_eqb (a b : pydate) : bool :=
  (year a =? year b) && (month a =? month b) && (day a =? day b).

Definition is_leap (y : Z) : bool :=
  ((y mod 4 =? 0) && negb (y mod 100 =? 0)) || (y mod 400 =? 0).

Definition days_in_month (y m : Z) : Z :=
  if m =? 2 then (if is_leap y then 29 else 28)
  else if (m =? 4) || (m =? 6) || (m =? 9) || (m =? 11) then 30
  else 31.

(** The arguments of [date] are first converted to C ints. *)
Definition fits_c_int (z : Z) : bool :=
  (- 2 ^ 31 <=? z) && (z <? 2 ^ 31).

(** [date(y, m, d)]: OverflowError on an argument that is no C int, then
    ValueError outside MINYEAR..MAXYEAR, 1..12, 1..days of the month. *)
Definition date (y m d : Z) : res pydate :=
  if negb (fits_c_int y && fits_c_int m && fits_c_int d)
  then Err OverflowError
  else if (1 <=? y) && (y <=? 9999) && (1 <=? m) && (m <=? 12)
          && (1 <=? d) && (d <=? days_in_month y m)
       then Val (mkdate y m d)
       else Err ValueError.

(** The parts of the Python runtime that depend on Unicode tables, on the
    float printer or on the platform's C library are taken as given. *)
Class Runtime : Type := {
  format_value : pyval -> string;
    (* str(v), as an f-string applies it to a decoded JSON value *)
  str_strip : string -> string;            (* s.strip() *)
  str_lower : string -> string;            (* s.lower() *)
  int_of_str : string -> option Z;         (* int(s); None: ValueError *)
  strftime_ymd : pydate -> string;         (* d.strftime("%Y-%m-%d") *)
  plus_weeks : pydate -> Z -> option pydate
    (* d + timedelta(weeks=n); None: OverflowError *)
}.

(** f"{n}" for an int [n]. *)
Definition str_of_int (z : Z) : string := NilZero.string_of_int (Z.to_int z).

(** ** Numbers: bool, int and float compare by exact value *)

Inductive number : Type :=
| NInt (z : Z)
| NFloat (f : spec_float).

Definition as_number (v : pyval) : option number :=
  match v with
  | PBool b => Some (NInt (if b then 1 else 0))
  | PInt z => Some (NInt z)
  | PFloat f => Some (NFloat f)
  | _ => None
  end.

(** A finite number as [m * 2^e]. *)
Definition dyadic (n : number) : option (Z * Z) :=
  match n with
  | NInt z => Some (z, 0)
  | NFloat (S754_zero _) => Some (0, 0)
  | NFloat (S754_finite s m e) => Some (if s then Z.neg m else Z.pos m, e)
  | NFloat _ => None
  end.

Definition dyadic_compare (x y : Z * Z) : comparison :=
  let '(m1, e1) := x in
  let '(m2, e2) := y in
  let e := Z.min e1 e2 in
  Z.compare (m1 * 2 ^ (e1 - e)) (m2 * 2 ^ (e2 - e)).

(** [None] when the operands are unordered (a NaN is involved). *)
Definition num_compare (a b : number) : option comparison :=
  match a, b with
  | NFloat S754_nan, _ => None
  | _, NFloat S754_nan => None
  | NFloat (S754_infinity s1), NFloat (S754_infinity s2) =>
      Some (if s1 then (if s2 then Eq else Lt) else (if s2 then Gt else Eq))
  | NFloat (S754_infinity s), _ => Some (if s then Lt else Gt)
  | _, NFloat (S754_infinity s) => Some (if s then Gt else Lt)
  | _, _ =>
      match dyadic a, dyadic b with
      | Some x, Some y => Some (dyadic_compare x y)
      | _, _ => None
      end
  end.

(** [v == n] for an int literal [n]: only a number can equal it. *)
Definition eq_int (v : pyval) (n : Z) : bool :=
  match as_number v with
  | Some a =>
      match num_compare a (NInt n) with
      | Some Eq => true
      | _ => false
      end
  | None => false
  end.

(** [n > v] for an int [n]: TypeError unless [v] is a number. *)
Definition int_gt (n : Z) (v : pyval) : res bool :=
  match as_number v with
  | Some b =>
      match num_compare (NInt n) b with
      | Some Gt => Val true
      | _ => Val false
      end
  | None => Err TypeError
  end.

(** ** Truth value, subscripting, membership, iteration *)

Definition truthy (v : pyval) : bool :=
  match v with
  | PNone => false
  | PBool b => b
  | PInt z => negb (z =? 0)
  | PFloat (S754_zero _) => false
  | PFloat _ => true
  | PStr s => negb (String.eqb s "")
  | PList l => match l with [] => false | _ => true end
  | PDict d => match d with [] => false | _ => true end
  end.

Fixpoint lookup (k : string) (d : list (string * pyval)) : option pyval :=
  match d with
  | [] => None
  | (k', v) :: d' => if String.eqb k k' then Some v else lookup k d'
  end.

(** [v[k]] with a str key. *)
Definition subscript (v : pyval) (k : string) : res pyval :=
  match v with
  | PDict d =>
      match lookup k d with
      | Some x => Val x
      | None => Err KeyError
      end
  | _ => Err TypeError
  end.

(** [l[i]] on a sequence, negative indices counting from the end. *)
Definition seq_index {A} (l : list A) (i : Z) : res A :=
  let j := if i <? 0 then i + Z.of_nat (List.length l) else i in
  if j <? 0 then Err IndexError
  else match nth_error l (Z.to_nat j) with
       | Some x => Val x
       | None => Err IndexError
       end.

Definition chars (s : string) : list pyval :=
  List.map (fun c => PStr (String c EmptyString)) (list_ascii_of_string s).

(** [v[i]] with an int index; a decoded JSON dict has str keys only. *)
Definition subscript_int (v : pyval) (i : Z) : res pyval :=
  match v with
  | PList l => seq_index l i
  | PStr s => seq_index (chars s) i
  | PDict _ => Err KeyError
  | _ => Err TypeError
  end.

Fixpoint is_substring (needle hay : string) : bool :=
  if String.prefix needle hay then true
  else match hay with
       | EmptyString => false
       | String _ hay' => is_substring needle hay'
       end.

Definition is_str (k : string) (v : pyval) : bool :=
  match v with
  | PStr s => String.eqb k s
  | _ => false
  end.

(** [k in v] for a str [k]. *)
Definition contains (k : string) (v : pyval) : res bool :=
  match v with
  | PDict d => Val (match lookup k d with Some _ => true | None => false end)
  | PList l => Val (existsb (is_str k) l)
  | PStr s => Val (is_substring k s)
  | _ => Err TypeError
  end.

Fixpoint dedup (seen l : list string) : list string :=
  match l with
  | [] => []
  | k :: l' =>
      if existsb (String.eqb k) seen then dedup seen l'
      else k :: dedup (k :: seen) l'
  end.

Definition keys (d : list (string * pyval)) : list string :=
  dedup [] (List.map fst d).

(** [iter(v)] run to the end: what a [for] loop or [+=] walks over. *)
Definition iterate (v : pyval) : res (list pyval) :=
  match v with
  | PList l => Val l
  | PStr s => Val (chars s)
  | PDict d => Val (List.map PStr (keys d))
  | _ => Err TypeError
  end.

(** [v.get(k, default)]: only a dict has the method. *)
Definition get (v : pyval) (k : string) (default : pyval) : res pyval :=
  match v with
  | PDict d =>
      match lookup k d with
      | Some x => Val x
      | None => Val default
      end
  | _ => Err AttributeError
  end.

(** The receiver of a str method ([strip], [lower], [split]). *)
Definition as_str (v : pyval) : res string :=
  match v with
  | PStr s => Val s
  | _ => Err AttributeError
  end.

(** [s.split(sep)] for a one-character separator. *)
Fixpoint split (sep : ascii) (s : string) : list string :=
  match s with
  | EmptyString => [EmptyString]
  | String c s' =>
      match split sep s' with
      | [] => [String c EmptyString]
      | h :: t =>
          if Ascii.eqb c sep then EmptyString :: h :: t
          else String c h :: t
      end
  end.

(** [sep.join(l)]: TypeError on an item that is not a str. *)
Fixpoint join (sep : string) (l : list pyval) : res string :=
  match l with
  | [] => Val ""
  | v :: l' =>
      match v with
      | PStr s =>
          match l' with
          | [] => Val s
          | _ => r <~ join sep l' ;; Val (s ++ sep ++ r)
          end
      | _ => Err TypeError
      end
  end.

(** ** Dicts the client builds: keys are hashable values *)

Definition hashable (v : pyval) : bool :=
  match v with
  | PList _ | PDict _ => false
  | _ => true
  end.

(** Two keys of a dict are the same when [a is b or a == b].  The keys
    the client stores are values of a decoded JSON document, in which
    every NaN is the one object the decoder keeps for it: as a key it is
    found again, although [==] denies it. *)
Definition key_eqb (a b : pyval) : bool :=
  match a, b with
  | PNone, PNone => true
  | PStr s, PStr t => String.eqb s t
  | PFloat S754_nan, PFloat S754_nan => true
  | _, _ =>
      match as_number a, as_number b with
      | Some x, Some y =>
          match num_compare x y with
          | Some Eq => true
          | _ => false
          end
      | _, _ => false
      end
  end.

Definition pydict (V : Type) : Type := list (pyval * V).

Fixpoint dict_find {V} (k : pyval) (d : pydict V) : option V :=
  match d with
  | [] => None
  | (k', v) :: d' => if key_eqb k k' then Some v else dict_find k d'
  end.

(** Store under an existing key in place, else append the binding. *)
Fixpoint dict_store {V} (k : pyval) (v : V) (d : pydict V) : pydict V :=
  match d with
  | [] => [(k, v)]
  | (k', v') :: d' =>
      if key_eqb k k' then (k', v) :: d' else (k', v') :: dict_store k v d'
  end.

(** [d[k] = v]. *)
Definition dict_set {V} (k : pyval) (v : V) (d : pydict V) : res (pydict V) :=
  if hashable k then Val (dict_store k v d) else Err TypeError.

End Py.

(* ================================================================== *)
(** * The HTTP session                                                *)
(* ================================================================== *)

Module Http.
Import Py.

Inductive method : Type := GET | POST.

(** One call of [session.get(url)] or [session.post(url, json=data)]. *)
Record request : Type := mkreq {
  rq_method : method;
  rq_url : string;
  rq_json : pyval
}.

(** [body] is [None] when the payload is not JSON ([.json()] raises). *)
Record response : Type := mkresp {
  status_code : Z;
  body : option pyval
}.

Inductive reply : Type :=
| Answered (r : response)
| Unreachable.

(** The remote side: its answer may depend on every request made so far
    (newest first), so a failure can be followed by a success. *)
Definition server : Type := list request -> request -> reply.

End Http.

(* ================================================================== *)
(** * The client                                                      *)
(* ================================================================== *)

Module Api.
Import Py Http.

(** class FostPlusApiException(Exception) with its [code] property. *)
Record FostPlusApiException : Type := mkexception { code : string }.

Inductive exn : Type :=
| Builtin (e : builtin_error)
| ApiError (e : FostPlusApiException).

(** [OutOfFuel]: the bounded unrolling of a [while True] ran out. *)
Inductive outcome (A : Type) : Type :=
| Return (a : A)
| Raise (e : exn)
| OutOfFuel.
Arguments Return {A} a.
Arguments Raise {A} e.
Arguments OutOfFuel {A}.

(** The instance attributes.  The [Session] object, with the four fixed
    headers it is given, is represented by its presence; [__endpoint] has
    no class-level default, so reading it before it is set fails. *)
Record FostPlusApi : Type := mkapi {
  __session : bool;
  __endpoint : option string
}.

Record world : Type := mkworld {
  self : FostPlusApi;
  sent : list request          (* newest first *)
}.

(** Attributes and the request log survive an exception. *)
Definition M (A : Type) : Type := world -> outcome A * world.

Definition ret {A} (a : A) : M A := fun w => (Return a, w).

Definition bind {A B} (m : M A) (k : A -> M B) : M B :=
  fun w =>
    match m w with
    | (Return a, w') => k a w'
    | (Raise e, w') => (Raise e, w')
    | (OutOfFuel, w') => (OutOfFuel, w')
    end.

Definition raise {A} (e : exn) : M A := fun w => (Raise e, w).

Definition lift {A} (r : res A) : M A :=
  match r with
  | Val a => ret a
  | Err e => raise (Builtin e)
  end.

Notation "x <- m ;; k" := (bind m (fun x => k))
  (at level 61, m at next level, right associativity).
Notation "m ;;; k" := (bind m (fun _ => k))
  (at level 61, right associativity).

Fixpoint map_res {A B} (f : A -> res B) (l : list A) : res (list B) :=
  match l with
  | [] => Val []
  | a :: l' => b <~ f a ;; bs <~ map_res f l' ;; Val (b :: bs)
  end.

Fixpoint flat_map_res {A B} (f : A -> res (list B)) (l : list A)
  : res (list B) :=
  match l with
  | [] => Val []
  | a :: l' => b <~ f a ;; bs <~ flat_map_res f l' ;; Val (b ++ bs)%list
  end.

Fixpoint fold_res {A S} (f : A -> S -> res S) (l : list A) (s : S) : res S :=
  match l with
  | [] => Val s
  | a :: l' => s' <~ f a s ;; fold_res f l' s'
  end.

(** [v[k1][k2]...]. *)
Fixpoint path (v : pyval) (ks : list string) : res pyval :=
  match ks with
  | [] => Val v
  | k :: ks' => x <~ subscript v k ;; path x ks'
  end.

Definition newline : string := String (ascii_of_nat 10) EmptyString.

Definition config_url : string :=
  "https://www.recycleapp.be/config/app.settings.json".

(** One recycling park of [get_recycling_parks]'s result. *)
Record park : Type := mkpark {
  name : pyval;
  exceptions : pyval;
  periods : pyval;
  latitude : pyval;
  longitude : pyval;
  location : string;
  description : string
}.

Section Client.

Context {rt : Runtime}.

Variable remote : server.

(** [datetime.now()], read at most once by an operation; only its date
    part is used. *)
Variable now : pydate.

(** Modelled from the spec: [const.py] is not among the sources.
    [COLLECTION_TYPES] is the fixed allow-list of recognised logo ids, which
    are opaque strings.  Whether it is a dict or set (an unhashable
    candidate makes [in] raise TypeError) or a list or tuple (such a
    candidate is just not found) is left open by [hash_lookup]. *)
Variable COLLECTION_TYPES : list string.
Variable hash_lookup : bool.

(** ** Session and bounded retry *)

Definition session_request (m : method) (url : string) (data : pyval)
  : M response :=
  fun w =>
    let rq := mkreq m url data in
    let w' := mkworld (self w) (rq :: sent w) in
    match remote (sent w) rq with
    | Answered r => (Return r, w')
    | Unreachable => (Raise (Builtin ConnectionError), w')
    end.

Definition response_json (r : response) : M pyval :=
  match body r with
  | Some v => ret v
  | None => raise (Builtin JSONDecodeError)
  end.

Definition read_endpoint : M string :=
  fun w =>
    match __endpoint (self w) with
    | Some e => (Return e, w)
    | None => (Raise (Builtin AttributeError), w)
    end.

Definition __ensure_initialization : M unit :=
  fun w =>
    if __session (self w) then (Return tt, w)
    else
      let w1 := mkworld (mkapi true (__endpoint (self w))) (sent w) in
      (r <- session_request GET config_url PNone ;;
       j <- response_json r ;;
       base_url <- lift (subscript j "API") ;;
       fun w2 =>
         (Return tt,
          mkworld (mkapi (__session (self w2))
                         (Some (format_value base_url ++ "/public/v1")))
                  (sent w2))) w1.

Definition initialize : M unit := __ensure_initialization.

(** The body of [for _ in range(n)] in [__get] and [__post], followed by
    the [return None] after the loop. *)
Fixpoint attempts (n : nat) (m : method) (action : string) (data : pyval)
  : M pyval :=
  match n with
  | O => ret PNone
  | S n' =>
      ep <- read_endpoint ;;
      response <- session_request m (ep ++ "/" ++ action) data ;;
      if status_code response =? 200 then response_json response
      else attempts n' m action data
  end.

Definition __post (action : string) (data : pyval) : M pyval :=
  __ensure_initialization ;;; attempts 2 POST action data.

Definition __get (action : string) : M pyval :=
  __ensure_initialization ;;; attempts 2 GET action PNone.

(** ** Pagination *)

Definition page_action (action : string) (page size : Z) : string :=
  action ++ "&page=" ++ str_of_int page ++ "&size=" ++ str_of_int size.

(** [not response or "items" not in response or "pages" not in response]. *)
Definition page_unusable (response : pyval) : res bool :=
  if negb (truthy response) then Val true
  else
    has_items <~ contains "items" response ;;
    if negb has_items then Val true
    else
      has_pages <~ contains "pages" response ;;
      Val (negb has_pages).

(** The [while True] of [__load_all], entered with the current [items]
    and [page]; [fuel] bounds the number of iterations. *)
Fixpoint load_loop (fuel : nat) (action : string) (size : Z)
    (items : list pyval) (page : Z) : M (list pyval) :=
  match fuel with
  | O => fun w => (OutOfFuel, w)
  | S fuel' =>
      response <- __get (page_action action page size) ;;
      stop <- lift (page_unusable response) ;;
      if stop then ret items
      else
        more <- lift (v <~ subscript response "items" ;; iterate v) ;;
        let items := (items ++ more)%list in
        let page := page + 1 in
        last <- lift (pages <~ subscript response "pages" ;; int_gt page pages) ;;
        if last then ret items
        else load_loop fuel' action size items page
  end.

Definition __load_all (fuel : nat) (action : string) (size : Z)
  : M (list pyval) :=
  load_loop fuel action size [] 1.

(** ** Zip codes and streets *)

Definition zip_code_names (language : string) (item : pyval)
  : res (list (pyval * string)) :=
  names <~ subscript item "names" ;;
  names <~ iterate names ;;
  map_res (fun name =>
             id <~ subscript item "id" ;;
             code <~ subscript item "code" ;;
             localized <~ subscript name language ;;
             Val (id, format_value code ++ " - " ++ format_value localized))
          names.

Definition get_zip_code (zip_code : Z) (language : string)
  : M (list (pyval * string)) :=
  result <- __get ("zipcodes?q=" ++ str_of_int zip_code) ;;
  lift (items <~ subscript result "items" ;;
        items <~ iterate items ;;
        flat_map_res (zip_code_names language) items).

(** [i["names"][language].strip().lower() == street]. *)
Definition street_matches (street language : string) (i : pyval) : res bool :=
  localized <~ path i ["names"; language] ;;
  s <~ as_str localized ;;
  Val (String.eqb (str_lower (str_strip s)) street).

(** [next((i for i in items if ...), None)]: items after the first match
    are never looked at. *)
Fixpoint first_match (street language : string) (items : list pyval)
  : res pyval :=
  match items with
  | [] => Val PNone
  | i :: rest =>
      hit <~ street_matches street language i ;;
      if hit then Val i else first_match street language rest
  end.

Definition get_street (street zip_code_id language : string)
  : M (pyval * pyval) :=
  let street := str_lower (str_strip street) in
  result <- __post ("streets?q=" ++ street ++ "&zipcodes=" ++ zip_code_id)
                   PNone ;;
  total <- lift (subscript result "total") ;;
  if negb (eq_int total 1) then
    item <- lift (items <~ subscript result "items" ;;
                  items <~ iterate items ;;
                  first_match street language items) ;;
    if negb (truthy item) then
      raise (ApiError (mkexception "invalid_streetname"))
    else
      lift (id <~ subscript item "id" ;;
            localized <~ path item ["names"; language] ;;
            Val (id, localized))
  else
    lift (items <~ subscript result "items" ;;
          first <~ subscript_int items 0 ;;
          id <~ subscript first "id" ;;
          items <~ subscript result "items" ;;
          first <~ subscript_int items 0 ;;
          localized <~ path first ["names"; language] ;;
          Val (id, localized)).

(** ** Recycling parks *)

(** The coordinate safeguard; the pair is (lon, lat). *)
Definition park_coordinates (item : pyval) : res (pyval * pyval) :=
  loc <~ get item "location" (PDict []) ;;
  coordinates <~ get loc "coordinates" PNone ;;
  if truthy coordinates then
    match coordinates with
    | PList [lon; lat] => Val (lon, lat)
    | _ => Val (PNone, PNone)
    end
  else Val (PNone, PNone).

Definition park_location (item : pyval) : res string :=
  street <~ get item "street" (PStr "") ;;
  house_number <~ get item "houseNumber" (PStr "") ;;
  zipcode <~ get item "zipcode" (PStr "") ;;
  city <~ get item "city" (PStr "") ;;
  join " " (filter truthy [street; house_number; zipcode; city]).

Definition park_description (language : string) (item : pyval) : res string :=
  info <~ get item "info" (PDict []) ;;
  rules <~ get info "rules" (PDict []) ;;
  access <~ get rules "access" (PDict []) ;;
  text <~ get access "description" (PDict []) ;;
  access_text <~ get text language (PStr "") ;;
  info <~ get item "info" (PDict []) ;;
  rules <~ get info "rules" (PDict []) ;;
  specific <~ get rules "specific" (PDict []) ;;
  specific_text <~ get specific language (PStr "") ;;
  join (newline ++ newline) (filter truthy [access_text; specific_text]).

(** One turn of the [for item in ...] loop: the dict display is evaluated
    entry by entry, then the key, then the store. *)
Definition park_entry (language : string) (item : pyval)
    (result : pydict park) : res (pydict park) :=
  '(lon, lat) <~ park_coordinates item ;;
  display_name <~ path item ["displayName"; language] ;;
  exception_days <~ subscript item "exceptionDays" ;;
  opening_periods <~ subscript item "openingPeriods" ;;
  loc <~ park_location item ;;
  descr <~ park_description language item ;;
  id <~ get item "id" PNone ;;
  dict_set id
    (mkpark display_name exception_days opening_periods lat lon loc descr)
    result.

Definition get_recycling_parks (zip_code_id language : string)
  : M (pydict park) :=
  response <- __get ("collection-points/recycling-parks?zipcode="
                     ++ zip_code_id ++ "&size=100&language=" ++ language) ;;
  lift (items <~ get response "items" (PList []) ;;
        items <~ iterate items ;;
        fold_res (park_entry language) items []).

(** ** Fractions and collections *)

(** [v in COLLECTION_TYPES]. *)
Definition in_collection_types (v : pyval) : res bool :=
  match v with
  | PStr s => Val (existsb (String.eqb s) COLLECTION_TYPES)
  | PList _ | PDict _ => if hash_lookup then Err TypeError else Val false
  | _ => Val false
  end.

(** One turn of the dict comprehension of [get_fractions]: the condition,
    then the key, then the value, then the store. *)
Definition fraction_entry (language : string) (f : pyval)
    (result : pydict (pyval * pyval)) : res (pydict (pyval * pyval)) :=
  fraction <~ subscript f "fraction" ;;
  has_logo <~ contains "logo" fraction ;;
  if negb has_logo then Val result
  else
    id <~ path f ["fraction"; "logo"; "id"] ;;
    known <~ in_collection_types id ;;
    if negb known then Val result
    else
      key <~ path f ["fraction"; "logo"; "id"] ;;
      color <~ path f ["fraction"; "color"] ;;
      localized <~ path f ["fraction"; "name"; language] ;;
      dict_set key (color, localized) result.

Definition get_fractions (fuel : nat) (zip_code_id street_id : string)
    (house_number : Z) (language : string) (size : Z)
  : M (pydict (pyval * pyval)) :=
  let start_year := if month now >=? 6 then year now else year now - 1 in
  items <- __load_all fuel
             ("collections?zipcodeId=" ++ zip_code_id
              ++ "&streetId=" ++ street_id
              ++ "&houseNumber=" ++ str_of_int house_number
              ++ "&fromDate=" ++ str_of_int start_year ++ "-01-01"
              ++ "&untilDate=" ++ str_of_int (start_year + 1) ++ "-12-31")
             size ;;
  lift (fold_res (fraction_entry language) items []).

(** [int(s)]. *)
Definition int (s : string) : res Z :=
  match int_of_str s with
  | Some z => Val z
  | None => Err ValueError
  end.

(** [result[fraction_id]] on the [defaultdict(list)]: a missing key is
    created with an empty list. *)
Definition default_getitem (k : pyval) (result : pydict (list pydate))
  : res (list pydate * pydict (list pydate)) :=
  if hashable k then
    match dict_find k result with
    | Some dates => Val (dates, result)
    | None => Val ([], dict_store k [] result)
    end
  else Err TypeError.

(** One turn of the [for item in collections] loop. *)
Definition collection_entry (item : pyval) (result : pydict (list pydate))
  : res (pydict (list pydate)) :=
  exc <~ get item "exception" (PDict []) ;;
  replaced_by <~ get exc "replacedBy" PNone ;;
  if truthy replaced_by then Val result
  else
    fraction <~ get item "fraction" (PDict []) ;;
    logo <~ get fraction "logo" (PDict []) ;;
    fraction_id <~ get logo "id" PNone ;;
    known <~ in_collection_types fraction_id ;;
    if negb known then Val result
    else
      timestamp <~ get item "timestamp" (PStr "") ;;
      timestamp <~ as_str timestamp ;;
      day_part <~ seq_index (split "T" timestamp) 0 ;;
      let parts := split "-" day_part in
      first <~ seq_index parts 0 ;;
      if negb (truthy (PStr first)) then Val result
      else
        y <~ int first ;;
        second <~ seq_index parts 1 ;;
        m <~ int second ;;
        third <~ seq_index parts 2 ;;
        d <~ int third ;;
        collection_date <~ date y m d ;;
        '(fraction, result) <~ default_getitem fraction_id result ;;
        if negb (existsb (date_eqb collection_date) fraction)
        then dict_set fraction_id (fraction ++ [collection_date])%list result
        else Val result.

Definition get_collections (zip_code_id street_id : string)
    (house_number : Z) (from_date until_date : option pydate) (size : Z)
  : M (pydict (list pydate)) :=
  let from_date := match from_date with Some d => d | None => now end in
  until_date <- match until_date with
                | Some d => ret d
                | None =>
                    match plus_weeks from_date 8 with
                    | Some d => ret d
                    | None => raise (Builtin OverflowError)
                    end
                end ;;
  response <- __get ("collections?zipcodeId=" ++ zip_code_id
                     ++ "&streetId=" ++ street_id
                     ++ "&houseNumber=" ++ str_of_int house_number
                     ++ "&fromDate=" ++ strftime_ymd from_date
                     ++ "&untilDate=" ++ strftime_ymd until_date
                     ++ "&size=" ++ str_of_int size) ;;
  lift (collections <~ subscript response "items" ;;
        collections <~ iterate collections ;;
        fold_res collection_entry collections []).

(** ** The inbound operations, as one type *)

Inductive inbound : Type :=
| Initialize
| GetZipCode (zip_code : Z) (language : string)
| GetStreet (street zip_code_id language : string)
| GetRecyclingParks (zip_code_id language : string)
| GetFractions (zip_code_id street_id : string) (house_number : Z)
    (language : string) (size : Z)
| GetCollections (zip_code_id street_id : string) (house_number : Z)
    (from_date until_date : option pydate) (size : Z).

Definition forget {A} (m : M A) : M unit := _ <- m ;; ret tt.

(** Run an operation for the way it ends, dropping what it returns. *)
Definition run (fuel : nat) (op : inbound) : M unit :=
  match op with
  | Initialize => initialize
  | GetZipCode z l => forget (get_zip_code z l)
  | GetStreet s z l => forget (get_street s z l)
  | GetRecyclingParks z l => forget (get_recycling_parks z l)
  | GetFractions z s h l n => forget (get_fractions fuel z s h l n)
  | GetCollections z s h f u n => forget (get_collections z s h f u n)
  end.

End Client.

End Api.

(* ================================================================== *)
(** * More of the Python library: dates, sorting, replacing           *)
(* ================================================================== *)

From Stdlib Require Import Sorting.Sorted.

Module Lib.
Import Py.

(** [a < b] on dates: by year, then month, then day. *)
Definition date_ltb (a b : pydate) : bool :=
  (year a <? year b)
  || ((year a =? year b)
      && ((month a <? month b)
          || ((month a =? month b) && (day a <? day b)))).

(** [a <= b] on dates. *)
Definition date_leb (a b : pydate) : bool := negb (date_ltb b a).

(** [date.max]. *)
Definition date_max : pydate := mkdate 9999 12 31.

(** [d + timedelta(days=1)]: OverflowError past [date.max]. *)
Definition next_date (d : pydate) : res pydate :=
  if day d <? days_in_month (year d) (month d)
  then Val (mkdate (year d) (month d) (day d + 1))
  else if month d <? 12 then Val (mkdate (year d) (month d + 1) 1)
       else if year d <? 9999 then Val (mkdate (year d + 1) 1 1)
            else Err OverflowError.

(** [sorted(l, key=key)] for keys that are dates: a stable sort, so the
    result is the one list that is ordered by key and keeps the input
    order among equal keys. *)
Fixpoint insert_sorted {A} (key : A -> pydate) (x : A) (l : list A)
  : list A :=
  match l with
  | [] => [x]
  | y :: l' =>
      if date_leb (key x) (key y) then x :: y :: l'
      else y :: insert_sorted key x l'
  end.

Fixpoint sorted {A} (key : A -> pydate) (l : list A) : list A :=
  match l with
  | [] => []
  | x :: l' => insert_sorted key x (sorted key l')
  end.

(** Ordered by key, as [sorted] leaves a list. *)
Definition key_le {A} (key : A -> pydate) (x y : A) : Prop :=
  date_leb (key x) (key y) = true.

(** [s.replace(old, new)] for a non-empty [old]: every occurrence, from
    the left, without overlap.  [skip] counts the characters of an
    occurrence still to be dropped. *)
Fixpoint replace_from (old new : string) (skip : nat) (s : string)
  : string :=
  match s with
  | EmptyString => EmptyString
  | String c s' =>
      match skip with
      | S k => replace_from old new k s'
      | O =>
          if String.prefix old s
          then new ++ replace_from old new (String.length old - 1) s'
          else String c (replace_from old new O s')
      end
  end.

Definition replace (old new s : string) : string :=
  replace_from old new O s.

(** [any(f(x) for x in l)]: stops at the first true. *)
Fixpoint any_res {A} (f : A -> res bool) (l : list A) : res bool :=
  match l with
  | [] => Val false
  | x :: l' => b <~ f x ;; if b then Val true else any_res f l'
  end.

End Lib.

(* ================================================================== *)
(** * The sensors (custom_components/recycle_app/sensor.py)           *)
(* ================================================================== *)

Module Sensor.
Import Py Lib.

(** [f"{unique_id}-{fraction}"]: the unique id [async_setup_entry] gives
    the sensor of a fraction. *)
Definition fraction_sensor_id (unique_id fraction : string) : string :=
  (unique_id ++ "-" ++ fraction)%string.

Section Entities.

(** [self.coordinator.data]: the calendar of the last refresh, or None. *)
Variable data : option (pydict (list pydate)).

(** [datetime.now().date()]; the date is taken not to change while one
    property is computed. *)
Variable today : pydate.

(** ** class RecycleAppEntity *)

Definition native_value (fraction : string) : res (option pydate) :=
  match data with
  | Some calendar =>
      match dict_find (PStr fraction) calendar with
      | Some dates => first <~ seq_index dates 0 ;; Val (Some first)
      | None => Val None
      end
  | None => Val None
  end.

Definition available (fraction : string) : bool :=
  match data with
  | Some calendar =>
      match dict_find (PStr fraction) calendar with
      | Some _ => true
      | None => false
      end
  | None => false
  end.

(** ** class RecycleAppDateSensor *)

(** [self._fractions]: logo id to (color, name), in configured order. *)
Variable fractions : list (string * (string * string)).

(** [value.strftime(self._date_format)]. *)
Variable format_date : pydate -> string.

(** [d for dates in data.values() for d in dates if d > today]. *)
Definition future_dates (calendar : pydict (list pydate)) : list pydate :=
  flat_map (fun kv => filter (date_ltb today) (snd kv)) calendar.

Definition get_upcoming_date : option pydate :=
  match data with
  | Some (binding :: calendar) =>
      match sorted (fun d => d) (future_dates (binding :: calendar)) with
      | first :: _ => Some first
      | [] => None
      end
  | _ => None
  end.

Definition date_native_value (fraction_key : string)
  : res (option pydate) :=
  if String.eqb fraction_key "collection_today" then Val (Some today)
  else if String.eqb fraction_key "collection_tomorrow"
       then tomorrow <~ next_date today ;; Val (Some tomorrow)
       else if String.eqb fraction_key "collection_upcoming"
            then Val get_upcoming_date
            else Val None.

(** [name for fraction_id, (color, name) in self._fractions.items()
     if fraction_id in data and date_value in data[fraction_id]]. *)
Fixpoint fractions_on (date_value : pydate)
    (configured : list (string * (string * string))) : res (list string) :=
  match configured with
  | [] => Val []
  | (fraction_id, (_, fraction_name)) :: rest =>
      match data with
      | None => Err TypeError
      | Some calendar =>
          let listed :=
            match dict_find (PStr fraction_id) calendar with
            | Some dates => existsb (date_eqb date_value) dates
            | None => false
            end in
          names <~ fractions_on date_value rest ;;
          Val (if listed then fraction_name :: names else names)
      end
  end.

(** The [state] property: the state string, with the "date" and
    "fractions" attributes it stores on the way; None when there is no
    date. *)
Definition date_state (fraction_key : string)
  : res (option (string * (string * list string))) :=
  date_value <~ date_native_value fraction_key ;;
  match date_value with
  | None => Val None
  | Some date_value =>
      fractions_on_date <~ fractions_on date_value fractions ;;
      let formatted_date := format_date date_value in
      let joined := String.concat ", " fractions_on_date in
      Val (Some
             (if String.eqb fraction_key "collection_upcoming"
              then (formatted_date ++ ": " ++ joined)%string
              else joined,
              (formatted_date, fractions_on_date)))
  end.

(** [self.coordinator.data.values()]. *)
Definition data_values : res (list (list pydate)) :=
  match data with
  | Some calendar => Val (List.map snd calendar)
  | None => Err AttributeError
  end.

Definition date_available (fraction_key : string) : res bool :=
  if String.eqb fraction_key "collection_today" then
    values <~ data_values ;;
    any_res (fun dates =>
               match dates with
               | [] => Val false
               | first :: _ => Val (date_eqb first today)
               end) values
  else if String.eqb fraction_key "collection_tomorrow" then
    values <~ data_values ;;
    any_res (fun dates =>
               match dates with
               | [] => Val false
               | first :: _ =>
                   tomorrow <~ next_date today ;;
                   Val (date_eqb first tomorrow)
               end) values
  else if String.eqb fraction_key "collection_upcoming" then
    values <~ data_values ;;
    any_res (fun dates =>
               match dates with
               | [] => Val false
               | _ => Val (existsb (date_ltb today) dates)
               end) values
  else Val false.

End Entities.

End Sensor.

(* ================================================================== *)
(** * The calendar (custom_components/recycle_app/calendar.py)        *)
(* ================================================================== *)

Module Calendar.
Import Py Lib Http Api.

Local Open Scope list_scope.

(** [homeassistant.components.calendar.CalendarEvent]: the fields the
    entity fills in, as they read once the event is built. *)
Record CalendarEvent : Type := mkevent {
  start : pydate;
  finish : pydate;            (* end *)
  summary : pyval
}.

(** What a call into the host can end in besides a return: an error of
    the client or of Python, or the host's own [HomeAssistantError]. *)
Inductive host_error : Type :=
| Python (e : exn)
| HomeAssistantError.

Inductive ending (A : Type) : Type :=
| Returned (a : A)
| Raised (e : host_error)
| Unfinished.
Arguments Returned {A} a.
Arguments Raised {A} e.
Arguments Unfinished {A}.

Definition ending_bind {A B} (r : ending A) (k : A -> ending B) : ending B :=
  match r with
  | Returned a => k a
  | Raised e => Raised e
  | Unfinished => Unfinished
  end.

Definition of_res {A} (r : res A) : ending A :=
  match r with
  | Val a => Returned a
  | Err e => Raised (Python (Builtin e))
  end.

(** [cv.string], by which the event schema checks the summary: None, a
    list and a dict are refused, any other value passes.  The event
    keeps the value it was given. *)
Definition summary_accepted (summary : pyval) : bool :=
  match summary with
  | PNone | PList _ | PDict _ => false
  | _ => true
  end.

(** What [__post_init__] makes of
    [CalendarEvent(start=d, end=d, summary=summary)] once the schema has
    passed: start and end being the same date, the end is moved to
    [start + timedelta(days=1)]. *)
Definition all_day (d : pydate) (summary : pyval) : res CalendarEvent :=
  finish <~ next_date d ;; Val (mkevent d finish summary).

(** [CalendarEvent(start=d, end=d, summary=summary)] for a date [d]:
    [__post_init__] checks the fields against the event schema, which
    two equal dates pass and the summary may fail, and goes on as
    [all_day]. *)
Definition new_event (d : pydate) (summary : pyval) : ending CalendarEvent :=
  if summary_accepted summary then of_res (all_day d summary)
  else Raised HomeAssistantError.

(** [[f(x) for x in l]] and [[y for x in l for y in f(x)]] over calls
    that can fail. *)
Fixpoint map_ending {A B} (f : A -> ending B) (l : list A)
  : ending (list B) :=
  match l with
  | [] => Returned []
  | x :: l' =>
      ending_bind (f x) (fun y =>
      ending_bind (map_ending f l') (fun ys => Returned (y :: ys)))
  end.

Fixpoint flat_map_ending {A B} (f : A -> ending (list B)) (l : list A)
  : ending (list B) :=
  match l with
  | [] => Returned []
  | x :: l' =>
      ending_bind (f x) (fun ys =>
      ending_bind (flat_map_ending f l') (fun zs => Returned (ys ++ zs)))
  end.

(** [f"{unique_id}-calendar"]: the unique id [async_setup_entry] gives
    the calendar entity. *)
Definition calendar_unique_id (unique_id : string) : string :=
  (unique_id ++ "-calendar")%string.

Section Entity.

Context {rt : Runtime}.

(** [self.unique_id], [self._fractions] and the address of the entity. *)
Variable unique_id : string.
Variable fractions : list (string * (string * string)).
Variable zip_code_id street_id : string.
Variable house_number : Z.

(** The host's entity registry and state machine, as the entity reads
    them: [async_get_entity_id(Platform.SENSOR, DOMAIN, unique_id)] gives
    an entity id or None, [hass.states.get(entity_id)] gives None or a
    state, of which only the friendly-name attribute (present or not) is
    looked at. *)
Variable registry : string -> option string.
Variable states : string -> option (option pyval).

Definition base_id : string := replace "-calendar" "-" unique_id.

(** [base_id + fraction_id]. *)
Definition sensor_unique_id (fraction_id : pyval) : res string :=
  match fraction_id with
  | PStr s => Val (base_id ++ s)%string
  | _ => Err TypeError
  end.

Fixpoint configured (fraction_id : string)
    (l : list (string * (string * string))) : option (string * string) :=
  match l with
  | [] => None
  | (k, v) :: l' =>
      if String.eqb fraction_id k then Some v else configured fraction_id l'
  end.

(** [state.attributes.get(ATTR_FRIENDLY_NAME,
                         self._fractions[fraction_id][1])]: the default
    is evaluated whether or not the attribute is there. *)
Definition label_of (fraction_id : pyval) (friendly_name : option pyval)
  : res pyval :=
  match fraction_id with
  | PStr s =>
      match configured s fractions with
      | Some (_, fraction_name) =>
          Val (match friendly_name with
               | Some v => v
               | None => PStr fraction_name
               end)
      | None => Err KeyError
      end
  | _ => Err KeyError
  end.

(** The variables of the loop of [event]. *)
Record scan : Type := mkscan {
  next_collect : pydate;
  labels : option (list pyval);
  entity_ids : list string
}.

(** One turn of [for fraction_id, event_dates in data.items()]. *)
Definition event_step (binding : pyval * list pydate) (st : scan)
  : res scan :=
  let (fraction_id, event_dates) := binding in
  uid <~ sensor_unique_id fraction_id ;;
  match registry uid with
  | None => Val st
  | Some entity_id =>
      if String.eqb entity_id "" then Val st
      else
        let st := mkscan (next_collect st) (labels st)
                         (entity_ids st ++ [entity_id]) in
        match states entity_id with
        | None => Val st
        | Some friendly_name =>
            first <~ seq_index event_dates 0 ;;
            if date_ltb (next_collect st) first then Val st
            else
              first <~ seq_index event_dates 0 ;;
              st <~ (if date_ltb first (next_collect st)
                     then first <~ seq_index event_dates 0 ;;
                          Val (mkscan first (Some []) (entity_ids st))
                     else Val st) ;;
              match labels st with
              | None => Err AttributeError
              | Some l =>
                  label <~ label_of fraction_id friendly_name ;;
                  Val (mkscan (next_collect st) (Some (l ++ [label]))
                              (entity_ids st))
              end
        end
  end.

(** The [event] property.  [listener] is [self._remove_change_listener]:
    None, or the subscription to the state changes of some entity ids.
    The result comes with the listener left behind.  The summary handed
    to [CalendarEvent] is the str that [join] gives, which the schema
    accepts: of the constructor, [all_day] is what is left. *)
Definition event (data : option (pydict (list pydate)))
    (listener : option (list string))
  : res (option CalendarEvent) * option (list string) :=
  match data with
  | None => (Val None, None)
  | Some calendar =>
      match fold_res event_step calendar (mkscan date_max None []) with
      | Err e => (Err e, None)
      | Val st =>
          match labels st with
          | Some (label :: more) =>
              (summary <~ join " - " (label :: more) ;;
               built <~ all_day (next_collect st) (PStr summary) ;;
               Val (Some built),
               None)
          | _ => (Val None, Some (entity_ids st))
          end
      end
  end.

(** The events of one fraction in [async_get_events]: for each date the
    summary is evaluated, then the event built. *)
Definition events_of (binding : pyval * list pydate)
  : ending (list CalendarEvent) :=
  let (collection_type, dates) := binding in
  ending_bind (of_res (sensor_unique_id collection_type)) (fun uid =>
  match registry uid with
  | None => Returned []
  | Some entity_id =>
      if String.eqb entity_id "" then Returned []
      else
        match states entity_id with
        | None => Returned []
        | Some friendly_name =>
            map_ending
              (fun d =>
                 ending_bind
                   (of_res (label_of collection_type friendly_name))
                   (new_event d))
              dates
        end
  end).

Variable remote : server.
Variable now : pydate.
Variable COLLECTION_TYPES : list string.
Variable hash_lookup : bool.

(** [async_get_events]: a new client for every call, [get_collections]
    for the range asked for, one event per date of each fraction that
    has a sensor with a state, ordered by [start]. *)
Definition async_get_events (start_date end_date : pydate)
  : list request -> ending (list CalendarEvent) * list request :=
  fun log =>
    match get_collections remote now COLLECTION_TYPES hash_lookup
            zip_code_id street_id house_number
            (Some start_date) (Some end_date) 100
            (mkworld (mkapi false None) log) with
    | (Return collections, w) =>
        (ending_bind (flat_map_ending events_of collections)
           (fun events => Returned (sorted start events)),
         sent w)
    | (Raise e, w) => (Raised (Python e), sent w)
    | (OutOfFuel, w) => (Unfinished, sent w)
    end.

End Entity.

End Calendar.

(* ================================================================== *)
(** * The vocabulary of the contract                                  *)
(* ================================================================== *)

Module Contract.
Import Py Http Api.

Local Open Scope list_scope.

Section Vocabulary.

Context {rt : Runtime}.
Variable remote : server.
Variable COLLECTION_TYPES : list string.

Local Abbreviation __ensure_initialization :=
  (Api.__ensure_initialization remote).
Local Abbreviation __post := (Api.__post remote).

(** The client is usable from [w]: initialisation returns (at once when a
    session exists, after the configuration request otherwise), leaving
    the world [w0] with the base endpoint [ep]. *)
Definition starts (w w0 : world) (ep : string) : Prop :=
  __ensure_initialization w = (Return tt, w0)
  /\ __endpoint (self w0) = Some ep.

(** [w] after the requests [rqs], the newest first. *)
Definition after (rqs : list request) (w : world) : world :=
  mkworld (self w) (rqs ++ sent w).

(** [attempts 2], case by case on what the two requests meet. *)
Definition two_attempts (rq : request) (w0 : world) : outcome pyval * world :=
  match remote (sent w0) rq with
  | Unreachable => (Raise (Builtin ConnectionError), after [rq] w0)
  | Answered r1 =>
      if status_code r1 =? 200 then response_json r1 (after [rq] w0)
      else
        match remote (rq :: sent w0) rq with
        | Unreachable => (Raise (Builtin ConnectionError), after [rq; rq] w0)
        | Answered r2 =>
            if status_code r2 =? 200 then response_json r2 (after [rq; rq] w0)
            else (Return PNone, after [rq; rq] w0)
        end
  end.

(** What the retry policy promises of a call that sends [rq], started in
    [w] and past initialisation in [w0]. *)
Definition retry_contract (call : M pyval) (rq : request) (w w0 : world)
  : Prop :=
  (exists n, (n <= 2)%nat /\ snd (call w) = after (repeat rq n) w0)
  /\ (forall v,
        remote (sent w0) rq = Answered (mkresp 200 (Some v)) ->
        call w = (Return v, after [rq] w0))
  /\ (forall s1 b1 v,
        remote (sent w0) rq = Answered (mkresp s1 b1) -> s1 <> 200 ->
        remote (rq :: sent w0) rq = Answered (mkresp 200 (Some v)) ->
        call w = (Return v, after [rq; rq] w0))
  /\ (forall s1 b1 s2 b2,
        remote (sent w0) rq = Answered (mkresp s1 b1) -> s1 <> 200 ->
        remote (rq :: sent w0) rq = Answered (mkresp s2 b2) -> s2 <> 200 ->
        call w = (Return PNone, after [rq; rq] w0)).

(** A well-formed page: a dict carrying [items] (a list) and [pages]. *)
Definition envelope (items : list pyval) (pages : Z) (v : pyval) : Prop :=
  exists d, v = PDict d
            /\ lookup "items" d = Some (PList items)
            /\ lookup "pages" d = Some (PInt pages).

Definition page_request (ep action : string) (size page : Z) : request :=
  mkreq GET (ep ++ "/" ++ page_action action page size)%string PNone.

(** The requests for pages 1 to [k], the newest first. *)
Fixpoint page_requests (ep action : string) (size : Z) (k : nat)
  : list request :=
  match k with
  | O => []
  | S k' =>
      page_request ep action size (Z.of_nat k)
      :: page_requests ep action size k'
  end.

(** From [w0] on, the request for each page of [pages] is answered at
    once with status 200 and an envelope of that page's items declaring
    [total] pages. *)
Definition serves (w0 : world) (ep action : string) (size : Z)
    (pages : list (list pyval)) (total : Z) : Prop :=
  forall k items,
    nth_error pages k = Some items ->
    exists v,
      remote (page_requests ep action size k ++ sent w0)
             (page_request ep action size (Z.of_nat (S k)))
      = Answered (mkresp 200 (Some v))
      /\ envelope items total v.

(** What [__get] hands to the loader for a page that is absent (two failed
    attempts) or malformed (a falsy body, or a dict without [items] or
    without [pages]). *)
Definition absent_or_malformed (v : pyval) : Prop :=
  v = PNone
  \/ exists d, v = PDict d
               /\ (lookup "items" d = None \/ lookup "pages" d = None).

Definition street_action (street zip_code_id : string) : string :=
  ("streets?q=" ++ str_lower (str_strip street)
   ++ "&zipcodes=" ++ zip_code_id)%string.

(** The candidate [c] carries the str [n] as its name in [language]. *)
Definition named (language : string) (c : pyval) (n : string) : Prop :=
  path c ["names"; language] = Val (PStr n).

(** Trimmed, case-insensitive equality, as the code computes it. *)
Definition same_street (n street : string) : bool :=
  String.eqb (str_lower (str_strip n)) (str_lower (str_strip street)).

Definition differs (street language : string) (c : pyval) : Prop :=
  exists n, named language c n /\ same_street n street = false.

Definition invalid_streetname : exn :=
  ApiError (mkexception "invalid_streetname").

(** [m] never ends by raising a [FostPlusApiException]. *)
Definition quiet {A} (m : M A) : Prop :=
  forall w e w', m w <> (Raise (ApiError e), w').

(** How a failed disambiguation looks: the response declared a total
    other than one and no item's name matched. *)
Definition failed_disambiguation (street zip language : string)
    (w w' : world) : Prop :=
  exists result total items,
    __post (street_action street zip) PNone w = (Return result, w')
    /\ subscript result "total" = Val total
    /\ eq_int total 1 = false
    /\ (v <~ subscript result "items" ;; iterate v) = Val items
    /\ Forall (fun i => street_matches (str_lower (str_strip street))
                          language i = Val false) items.

(** A key of the allow-list: a str that [COLLECTION_TYPES] holds. *)
Definition recognised (k : pyval) : Prop :=
  exists s, k = PStr s /\ In s COLLECTION_TYPES.

Definition keys_recognised {V} (d : pydict V) : Prop :=
  Forall (fun kv => recognised (fst kv)) d.

(** The fraction id of a record, as [get_collections] reads it. *)
Definition fraction_id_of (item : pyval) : res pyval :=
  fraction <~ get item "fraction" (PDict []) ;;
  logo <~ get fraction "logo" (PDict []) ;;
  get logo "id" PNone.

Definition dates_distinct (d : pydict (list pydate)) : Prop :=
  Forall (fun kv => NoDup (snd kv)) d.

End Vocabulary.

End Contract.

(* ================================================================== *)
(** * Records, readings and catalogues                                *)
(* ================================================================== *)

Module Records.
Import Py Http Api Contract.

Local Open Scope list_scope.

(** The request that discovers the base address. *)
Definition config_request : request := mkreq GET config_url PNone.

Section Readings.

Context {rt : Runtime}.
Variable COLLECTION_TYPES : list string.
Variable hash_lookup : bool.

Local Abbreviation in_collection_types :=
  (Api.in_collection_types COLLECTION_TYPES hash_lookup).

(** The record's exception data names a replacement. *)
Definition is_replaced (item : pyval) : bool :=
  match get item "exception" (PDict []) with
  | Val exc =>
      match get exc "replacedBy" PNone with
      | Val replaced_by => truthy replaced_by
      | Err _ => false
      end
  | Err _ => false
  end.

(** What one record contributes to the calendar: nothing, or a date for
    a fraction id (the loop body of [get_collections] up to the date). *)
Definition reading (item : pyval) : res (option (pyval * pydate)) :=
  exc <~ get item "exception" (PDict []) ;;
  replaced_by <~ get exc "replacedBy" PNone ;;
  if truthy replaced_by then Val None
  else
    fraction <~ get item "fraction" (PDict []) ;;
    logo <~ get fraction "logo" (PDict []) ;;
    fraction_id <~ get logo "id" PNone ;;
    known <~ in_collection_types fraction_id ;;
    if negb known then Val None
    else
      timestamp <~ get item "timestamp" (PStr "") ;;
      timestamp <~ as_str timestamp ;;
      day_part <~ seq_index (split "T" timestamp) 0 ;;
      let parts := split "-" day_part in
      first <~ seq_index parts 0 ;;
      if negb (truthy (PStr first)) then Val None
      else
        y <~ int first ;;
        second <~ seq_index parts 1 ;;
        m <~ int second ;;
        third <~ seq_index parts 2 ;;
        d <~ int third ;;
        collection_date <~ date y m d ;;
        Val (Some (fraction_id, collection_date)).

(** The last three lines of that loop body. *)
Definition add_date (fraction_id : pyval) (collection_date : pydate)
    (result : pydict (list pydate)) : res (pydict (list pydate)) :=
  '(fraction, result) <~ default_getitem fraction_id result ;;
  if negb (existsb (date_eqb collection_date) fraction)
  then dict_set fraction_id (fraction ++ [collection_date]) result
  else Val result.

(** What one record contributes to the catalogue of [get_fractions]:
    nothing, or a (color, name) for a logo id. *)
Definition catalogue_reading (language : string) (f : pyval)
  : res (option (pyval * (pyval * pyval))) :=
  fraction <~ subscript f "fraction" ;;
  has_logo <~ contains "logo" fraction ;;
  if negb has_logo then Val None
  else
    id <~ path f ["fraction"; "logo"; "id"] ;;
    known <~ in_collection_types id ;;
    if negb known then Val None
    else
      key <~ path f ["fraction"; "logo"; "id"] ;;
      color <~ path f ["fraction"; "color"] ;;
      localized <~ path f ["fraction"; "name"; language] ;;
      Val (Some (key, (color, localized))).

(** The action [get_collections] requests for the window from
    [from_date] to [until_date]. *)
Definition collections_action (zip_code_id street_id : string)
    (house_number : Z) (from_date until_date : pydate) (size : Z) : string :=
  ("collections?zipcodeId=" ++ zip_code_id
   ++ "&streetId=" ++ street_id
   ++ "&houseNumber=" ++ str_of_int house_number
   ++ "&fromDate=" ++ strftime_ymd from_date
   ++ "&untilDate=" ++ strftime_ymd until_date
   ++ "&size=" ++ str_of_int size)%string.

(** The action whose pages [get_fractions] loads when the clock reads
    [now]. *)
Definition fractions_action (now : pydate) (zip_code_id street_id : string)
    (house_number : Z) : string :=
  let start_year := if month now >=? 6 then year now else year now - 1 in
  ("collections?zipcodeId=" ++ zip_code_id
   ++ "&streetId=" ++ street_id
   ++ "&houseNumber=" ++ str_of_int house_number
   ++ "&fromDate=" ++ str_of_int start_year ++ "-01-01"
   ++ "&untilDate=" ++ str_of_int (start_year + 1) ++ "-12-31")%string.

(** The action [get_recycling_parks] requests. *)
Definition parks_action (zip_code_id language : string) : string :=
  ("collection-points/recycling-parks?zipcode=" ++ zip_code_id
   ++ "&size=100&language=" ++ language)%string.

(** The items [get_recycling_parks] walks over: a missing "items" field
    counts as no item. *)
Definition parks_of (response : pyval) : res (list pyval) :=
  items <~ get response "items" (PList []) ;; iterate items.

(** [item["location"]["coordinates"]] as the safeguard reads it. *)
Definition coordinates_of (item : pyval) : res pyval :=
  loc <~ get item "location" (PDict []) ;; get loc "coordinates" PNone.

(** The action [get_zip_code] requests. *)
Definition zip_action (zip_code : Z) : string :=
  ("zipcodes?q=" ++ str_of_int zip_code)%string.

(** The name variants of a zip code item: what [item["names"]] iterates
    over. *)
Definition variants_of (item : pyval) : res (list pyval) :=
  names <~ subscript item "names" ;; iterate names.

(** The records of a response: what [response["items"]] iterates over. *)
Definition records_of (response : pyval) : res (list pyval) :=
  v <~ subscript response "items" ;; iterate v.

End Readings.

Section Servers.

Variable remote : server.

(** No answer of the remote side declares more than [bound] pages: a
    page number above [bound] is never at or below a declared count. *)
Definition declares_at_most (bound : Z) : Prop :=
  forall hist rq status v pages,
    remote hist rq = Answered (mkresp status (Some v)) ->
    subscript v "pages" = Val pages ->
    forall n, bound < n -> int_gt n pages <> Val false.

(** Every page asked for is served at once, with records, and declares
    at least one page more. *)
Definition keeps_declaring (ep action : string) (size : Z) : Prop :=
  forall hist page,
    1 <= page ->
    exists v records pages,
      remote hist (page_request ep action size page)
      = Answered (mkresp 200 (Some v))
      /\ page_unusable v = Val false
      /\ records_of v = Val records
      /\ subscript v "pages" = Val pages
      /\ int_gt (page + 1) pages = Val false.

End Servers.

(** Every key is a str. *)
Definition str_keys {V} (d : pydict V) : Prop :=
  Forall (fun kv => exists s, fst kv = PStr s) d.

(** The dates under the str key [id], none when the key is absent. *)
Definition dates_of {V} (id : string) (d : pydict (list V)) : list V :=
  match dict_find (PStr id) d with
  | Some dates => dates
  | None => []
  end.

(** No key with an empty list. *)
Definition dates_present {V} (d : pydict (list V)) : Prop :=
  Forall (fun kv => snd kv <> []) d.

End Records.

(* ================================================================== *)
(** * What the calendar entity keeps track of                         *)
(* ================================================================== *)

Module Tracking.
Import Py Lib Api Calendar.

Local Open Scope list_scope.

Section Tracked.

Variable unique_id : string.
Variable fractions : list (string * (string * string)).
Variable registry : string -> option string.
Variable states : string -> option (option pyval).

(** The entity id of the sensor registered for a fraction, if any. *)
Definition sensor_of (fraction_id : pyval) : option string :=
  match sensor_unique_id unique_id fraction_id with
  | Val uid =>
      match registry uid with
      | Some entity_id =>
          if String.eqb entity_id "" then None else Some entity_id
      | None => None
      end
  | Err _ => None
  end.

(** A fraction is tracked when its sensor has a state; the value is the
    friendly name of that state, if it has one. *)
Definition tracked (fraction_id : pyval) : option (option pyval) :=
  match sensor_of fraction_id with
  | Some entity_id => states entity_id
  | None => None
  end.

(** The entity ids of the registered sensors, in calendar order. *)
Definition registered (calendar : pydict (list pydate)) : list string :=
  flat_map (fun binding =>
              match sensor_of (fst binding) with
              | Some entity_id => [entity_id]
              | None => []
              end) calendar.

(** The binding is tracked and its first date is [d]. *)
Definition due (d : pydate) (binding : pyval * list pydate) : bool :=
  match tracked (fst binding), snd binding with
  | Some _, first :: _ => date_eqb first d
  | _, _ => false
  end.

Definition label_at (binding : pyval * list pydate) : res pyval :=
  match tracked (fst binding) with
  | Some friendly_name => label_of fractions (fst binding) friendly_name
  | None => Err KeyError
  end.

(** The labels of the tracked fractions first collected on [d]. *)
Definition labels_due (d : pydate) (calendar : pydict (list pydate))
  : res (list pyval) :=
  map_res label_at (filter (due d) calendar).

(** What holds of the loop variables of [event] once the bindings
    [seen] are behind. *)
Definition scanned (seen : pydict (list pydate)) (st : scan) : Prop :=
  entity_ids st = registered seen
  /\ (forall k first rest friendly_name,
        In (k, first :: rest) seen -> tracked k = Some friendly_name ->
        date_leb (next_collect st) first = true)
  /\ match labels st with
     | None => next_collect st = date_max
     | Some l =>
         l <> []
         /\ labels_due (next_collect st) seen = Val l
         /\ exists k rest friendly_name,
              In (k, next_collect st :: rest) seen
              /\ tracked k = Some friendly_name
     end.

End Tracked.

End Tracking.

(* ================================================================== *)
(** * A runtime and servers to run the client on                      *)
(* ================================================================== *)

Module Sample.
Import Py Http Api.

(** ** An ASCII instance of the runtime *)

Definition is_space (c : ascii) : bool :=
  let n := nat_of_ascii c in
  ((9 <=? n) && (n <=? 13))%nat || (n =? 32)%nat
  || ((28 <=? n) && (n <=? 31))%nat.

Fixpoint lstrip (s : string) : string :=
  match s with
  | EmptyString => EmptyString
  | String c s' => if is_space c then lstrip s' else s
  end.

Fixpoint reverse (acc s : string) : string :=
  match s with
  | EmptyString => acc
  | String c s' => reverse (String c acc) s'
  end.

Definition strip (s : string) : string :=
  reverse "" (lstrip (reverse "" (lstrip s))).

Definition lower_char (c : ascii) : ascii :=
  let n := nat_of_ascii c in
  if ((65 <=? n) && (n <=? 90))%nat then ascii_of_nat (n + 32) else c.

Fixpoint lower (s : string) : string :=
  match s with
  | EmptyString => EmptyString
  | String c s' => String (lower_char c) (lower s')
  end.

Definition digit (c : ascii) : option Z :=
  let n := Z.of_nat (nat_of_ascii c) in
  if (48 <=? n) && (n <=? 57) then Some (n - 48) else None.

(** Decimal digits, single underscores allowed between two of them. *)
Fixpoint digits (acc : Z) (after_digit : bool) (s : string) : option Z :=
  match s with
  | EmptyString => if after_digit then Some acc else None
  | String c s' =>
      match digit c with
      | Some d => digits (10 * acc + d) true s'
      | None =>
          if Ascii.eqb c "_" && after_digit then digits acc false s'
          else None
      end
  end.

Definition parse_int (s : string) : option Z :=
  match strip s with
  | String "-" r => option_map Z.opp (digits 0 false r)
  | String "+" r => digits 0 false r
  | r => digits 0 false r
  end.

Definition pad (width : nat) (z : Z) : string :=
  let s := str_of_int z in
  (string_of_list_ascii (repeat "0"%char (width - String.length s)) ++ s)%string.

Definition ymd (d : pydate) : string :=
  (pad 4 (year d) ++ "-" ++ pad 2 (month d) ++ "-" ++ pad 2 (day d))%string.

Definition next_day (d : pydate) : pydate :=
  if day d <? days_in_month (year d) (month d)
  then mkdate (year d) (month d) (day d + 1)
  else if month d <? 12 then mkdate (year d) (month d + 1) 1
       else mkdate (year d + 1) 1 1.

Definition previous_day (d : pydate) : pydate :=
  if 1 <? day d then mkdate (year d) (month d) (day d - 1)
  else if 1 <? month d
       then mkdate (year d) (month d - 1)
                   (days_in_month (year d) (month d - 1))
       else mkdate (year d - 1) 12 31.

Definition add_weeks (d : pydate) (n : Z) : option pydate :=
  let r := Nat.iter (Z.abs_nat (7 * n))
                    (if 0 <=? n then next_day else previous_day) d in
  if (1 <=? year r) && (year r <=? 9999) then Some r else None.

(** Exact on None, bool, int and str, the values the runs below format;
    a float or a container is shown as a placeholder. *)
Definition show (v : pyval) : string :=
  match v with
  | PNone => "None"
  | PBool true => "True"
  | PBool false => "False"
  | PInt z => str_of_int z
  | PStr s => s
  | PFloat _ => "<float>"
  | PList _ => "<list>"
  | PDict _ => "<dict>"
  end.

Definition ascii_runtime : Runtime := {|
  format_value := show;
  str_strip := strip;
  str_lower := lower;
  int_of_str := parse_int;
  strftime_ymd := ymd;
  plus_weeks := add_weeks
|}.

(** ** Scripted servers *)

Definition not_found : reply := Answered (mkresp 404 None).
Definition failure : reply := Answered (mkresp 500 None).
Definition ok (v : pyval) : reply := Answered (mkresp 200 (Some v)).

(** How often [url] was requested in the history [h]. *)
Fixpoint asked (url : string) (h : list request) : nat :=
  match h with
  | [] => O
  | rq :: h' =>
      if String.eqb (rq_url rq) url then S (asked url h') else asked url h'
  end.

Fixpoint script_of (url : string) (table : list (string * list reply))
  : option (list reply) :=
  match table with
  | [] => None
  | (u, replies) :: table' =>
      if String.eqb u url then Some replies else script_of url table'
  end.

(** The n-th request for a URL gets the n-th reply of its script; a URL
    without script, or past the end of it, gets a 404. *)
Definition scripted (table : list (string * list reply)) : server :=
  fun h rq =>
    match script_of (rq_url rq) table with
    | Some replies => nth (asked (rq_url rq) h) replies not_found
    | None => not_found
    end.

Definition base : string := "https://api.example.org".
Definition ep : string := (base ++ "/public/v1")%string.
Definition url (action : string) : string := (ep ++ "/" ++ action)%string.

Definition configuration : string * list reply :=
  (config_url, [ok (PDict [("API", PStr base)])]).

(** A client never used, the same once the configuration is fetched,
    and one whose session exists from the start. *)
Definition fresh : world := mkworld (mkapi false None) [].
Definition configured : world :=
  mkworld (mkapi true (Some ep)) [mkreq GET config_url PNone].
Definition ready : world := mkworld (mkapi true (Some ep)) [].

Definition today : pydate := mkdate 2024 3 15.
Definition types : list string := ["paper"; "glass"; "pmd"].

(** ** Collection records *)

Definition record (logo_id timestamp : string) : pyval :=
  PDict [("timestamp", PStr timestamp);
         ("fraction",
          PDict [("logo", PDict [("id", PStr logo_id)]);
                 ("color", PStr "#2b4c7e");
                 ("name", PDict [("fr", PStr logo_id)])])].

Definition envelope_of (items : list pyval) (page pages : Z) : pyval :=
  PDict [("items", PList items); ("page", PInt page); ("pages", PInt pages)].

Definition paper_8 : pyval := record "paper" "2024-01-08T00:00:00.000Z".
Definition glass_22 : pyval := record "glass" "2024-01-22T00:00:00.000Z".
Definition paper_22 : pyval := record "paper" "2024-01-22T00:00:00.000Z".
Definition bulky_9 : pyval := record "bulky" "2024-01-09T00:00:00.000Z".

Definition window : string :=
  "collections?zipcodeId=z1&streetId=s1&houseNumber=7&fromDate=2024-01-01&untilDate=2024-02-01".

(** The window's records split over two pages of one item; a request
    without a page number is answered with the first page. *)
Definition two_pages : server :=
  scripted
    [configuration;
     (url (window ++ "&size=1"), [ok (envelope_of [paper_8] 1 2)]);
     (url (window ++ "&page=1&size=1"), [ok (envelope_of [paper_8] 1 2)]);
     (url (window ++ "&page=2&size=1"), [ok (envelope_of [glass_22] 2 2)])].

(** The second of two pages fails at both attempts. *)
Definition second_page_down : server :=
  scripted
    [configuration;
     (url (window ++ "&page=1&size=1"), [ok (envelope_of [paper_8] 1 2)]);
     (url (window ++ "&page=2&size=1"), [failure; failure])].

(** One page in which a date comes twice for a fraction, next to a record
    of an unknown fraction. *)
Definition repeated_date : server :=
  scripted
    [configuration;
     (url (window ++ "&size=100"),
      [ok (envelope_of [paper_8; bulky_9; paper_8; paper_22; glass_22] 1 1)]);
     (url (window ++ "&page=1&size=100"),
      [ok (envelope_of [paper_8; bulky_9; paper_8; paper_22; glass_22] 1 1)])].

(** The catalogue window of [get_fractions] when today is 2024-03-15. *)
Definition catalogue : server :=
  scripted
    [configuration;
     (url "collections?zipcodeId=z1&streetId=s1&houseNumber=7&fromDate=2023-01-01&untilDate=2024-12-31&page=1&size=100",
      [ok (envelope_of [paper_8; bulky_9; glass_22; paper_22] 1 1)])].

(** A record whose timestamp has a year and nothing else. *)
Definition year_only : server :=
  scripted
    [configuration;
     (url (window ++ "&size=100"),
      [ok (envelope_of [record "paper" "2024"] 1 1)])].

(** Every request fails. *)
Definition down : server := fun _ _ => failure.

(** Every request is answered 201 Created, with a JSON body. *)
Definition created_body : pyval := PDict [("items", PList [])].
Definition created : server :=
  fun _ _ => Answered (mkresp 201 (Some created_body)).

(** A record whose logo carries no id, and one whose fraction is null. *)
Definition no_logo_id : pyval :=
  PDict [("timestamp", PStr "2024-01-22T00:00:00.000Z");
         ("fraction",
          PDict [("logo", PDict []);
                 ("color", PStr "#2b4c7e");
                 ("name", PDict [("fr", PStr "glass")])])].

Definition null_fraction : pyval :=
  PDict [("timestamp", PStr "2024-01-22T00:00:00.000Z");
         ("fraction", PNone)].

(** A paper collection followed by [item], in the January window and in
    the catalogue window of 2024-03-15. *)
Definition paper_then (item : pyval) : server :=
  scripted
    [configuration;
     (url (window ++ "&size=100"), [ok (envelope_of [paper_8; item] 1 1)]);
     (url "collections?zipcodeId=z1&streetId=s1&houseNumber=7&fromDate=2023-01-01&untilDate=2024-12-31&page=1&size=100",
      [ok (envelope_of [paper_8; item] 1 1)])].

(** A first attempt that fails and a second that succeeds. *)
Definition flaky : server :=
  scripted [configuration;
            (url "zipcodes?q=1000", [failure; ok (PDict [("items", PList [])])])].

(** ** Street candidates *)

Definition candidate (id name_fr : string) : pyval :=
  PDict [("id", PStr id); ("names", PDict [("fr", PStr name_fr)])].

Definition street_fields (total : Z) (items : list pyval)
  : list (string * pyval) :=
  [("items", PList items); ("total", PInt total)].

Definition streets (total : Z) (items : list pyval) : pyval :=
  PDict (street_fields total items).

Definition street_query : string := "streets?q=rue haute&zipcodes=z1".

Definition answers_streets (v : pyval) : server :=
  scripted [configuration; (url street_query, [ok v])].

Definition rue_basse : pyval := candidate "a" "Rue Basse".
Definition rue_neuve : pyval := candidate "b" "Rue Neuve".
Definition rue_haute : pyval := candidate "c" " rue Haute".

(** ** The calls the runs make *)

Definition jan (d : Z) : pydate := mkdate 2024 1 d.

Definition zip_request (m : method) : request :=
  mkreq m (url "zipcodes?q=1000") PNone.

Definition street_request : request := mkreq POST (url street_query) PNone.

Definition window_request (suffix : string) : request :=
  mkreq GET (url (window ++ suffix)) PNone.

(** [get_collections] for January 2024, with the allow-list [types]. *)
Definition january (remote : server) (size : Z) : M (pydict (list pydate)) :=
  get_collections (rt := ascii_runtime) remote today types true "z1" "s1" 7
    (Some (jan 1)) (Some (mkdate 2024 2 1)) size.

(** [get_street] for a query that needs trimming and lower-casing. *)
Definition rue_haute_query (remote : server) : M (pyval * pyval) :=
  get_street (rt := ascii_runtime) remote "  Rue HAUTE " "z1" "fr".

End Sample.

(* ================================================================== *)
(** * More servers, and a household to show the calendar to           *)
(* ================================================================== *)

Module Household.
Import Py Lib Http Api Calendar Sample.

Local Open Scope list_scope.

(** ** Servers *)

(** Every page is served and declares a page count without bound: the
    JSON literal Infinity, which Python's json reads as float('inf'). *)
Definition endless : server :=
  fun _ rq =>
    if String.eqb (rq_url rq) config_url
    then ok (PDict [("API", PStr base)])
    else ok (PDict [("items", PList [paper_8]);
                    ("pages", PFloat (S754_infinity false))]).

(** A first page that declares no page at all. *)
Definition no_pages : server :=
  scripted
    [configuration;
     (url (window ++ "&page=1&size=100"),
      [ok (envelope_of [paper_8; glass_22] 1 0)])].

(** A client whose first use failed on the configuration resource: the
    session is in place, the endpoint is not. *)
Definition unconfigured : world :=
  mkworld (mkapi true None) [mkreq GET config_url PNone].

(** The window's records, the later ones first. *)
Definition out_of_order : server :=
  scripted
    [configuration;
     (url (window ++ "&size=100"),
      [ok (envelope_of [glass_22; paper_22; paper_8] 1 1)])].

(** The catalogue window with the name of paper changed in a later
    record. *)
Definition renamed (logo_id new_name : string) : pyval :=
  PDict [("fraction",
          PDict [("logo", PDict [("id", PStr logo_id)]);
                 ("color", PStr "#0072ce");
                 ("name", PDict [("fr", PStr new_name)])])].

Definition catalogue_action : string :=
  "collections?zipcodeId=z1&streetId=s1&houseNumber=7&fromDate=2023-01-01&untilDate=2024-12-31".

Definition renaming : server :=
  scripted
    [configuration;
     (url (catalogue_action ++ "&page=1&size=100"),
      [ok (envelope_of [paper_8; glass_22; renamed "paper" "Papier"] 1 1)])].

(** ** Zip codes *)

(** A zip code with two localities. *)
Definition brussels : pyval :=
  PDict [("id", PStr "1000-21004");
         ("code", PStr "1000");
         ("names",
          PList [PDict [("fr", PStr "Bruxelles"); ("nl", PStr "Brussel")];
                 PDict [("fr", PStr "Laeken"); ("nl", PStr "Laken")]])].

Definition two_localities : server :=
  scripted [configuration;
            (url "zipcodes?q=1000", [ok (PDict [("items", PList [brussels])])])].

(** ** Recycling parks *)

(** 4.5 and 50.75 as floats. *)
Definition lon_4_5 : pyval := PFloat (S754_finite false 9 (-1)).
Definition lat_50_75 : pyval := PFloat (S754_finite false 203 (-2)).

Definition park_item (id display_name : string) (coordinates : pyval)
  : pyval :=
  PDict [("id", PStr id);
         ("displayName", PDict [("fr", PStr display_name)]);
         ("exceptionDays", PList []);
         ("openingPeriods", PList []);
         ("location", PDict [("coordinates", coordinates)]);
         ("street", PStr "Rue du Parc");
         ("houseNumber", PStr "1");
         ("zipcode", PStr "1000");
         ("city", PStr "Bruxelles")].

Definition north : pyval := park_item "p1" "Nord" (PList [lon_4_5; lat_50_75]).
Definition south : pyval := park_item "p2" "Sud" (PList [lon_4_5]).

Definition parks_query : string :=
  "collection-points/recycling-parks?zipcode=z1&size=100&language=fr".

Definition two_parks : server :=
  scripted
    [configuration;
     (url parks_query, [ok (PDict [("items", PList [north; south])])])].

Definition park_of (display_name : string) (lat lon : pyval) : park :=
  mkpark (PStr display_name) (PList []) (PList []) lat lon
         "Rue du Parc 1 1000 Bruxelles" "".

(** ** A household *)

(** The calendar entity of the household, its configured fractions, and
    the sensors the host knows: paper and glass are registered, paper
    with a friendly name, glass with a state without one. *)
Definition household : string := "home-calendar".

Definition names : list (string * (string * string)) :=
  [("paper", ("#2b4c7e", "Papier"));
   ("glass", ("#3a7d44", "Verre"));
   ("pmd", ("#0072ce", "PMD"))].

Definition sensors (unique_id : string) : option string :=
  if String.eqb unique_id "home-paper" then Some "sensor.papier"
  else if String.eqb unique_id "home-glass" then Some "sensor.verre"
       else None.

Definition shown (entity_id : string) : option (option pyval) :=
  if String.eqb entity_id "sensor.papier"
  then Some (Some (PStr "Papier et carton"))
  else if String.eqb entity_id "sensor.verre" then Some None
       else None.

(** What the coordinator holds after a refresh. *)
Definition refreshed : pydict (list pydate) :=
  [(PStr "pmd", [jan 2]);
   (PStr "paper", [jan 8; jan 22]);
   (PStr "glass", [jan 8])].

(** An event of one day of January. *)
Definition collection (d : Z) (label : string) : CalendarEvent :=
  mkevent (jan d) (jan (d + 1)) (PStr label).

(** [async_get_events] of the household for January 2024. *)
Definition january_events (remote : server)
  : list request -> ending (list CalendarEvent) * list request :=
  async_get_events (rt := ascii_runtime) household names "z1" "s1" 7
    sensors shown remote today types true (jan 1) (mkdate 2024 2 1).

End Household.

(* ================================================================== *)
(** * Properties                                                      *)
(* ================================================================== *)

Import Py Http Api Contract.

Local Open Scope list_scope.

Section Properties.

Context {rt : Runtime}.
Variable remote : server.

Local Abbreviation __ensure_initialization :=
  (Api.__ensure_initialization remote).
Local Abbreviation attempts := (Api.attempts remote).
Local Abbreviation __get := (Api.__get remote).
Local Abbreviation __post := (Api.__post remote).
Local Abbreviation __load_all := (Api.__load_all remote).
Local Abbreviation load_loop := (Api.load_loop remote).
Local Abbreviation get_street := (Api.get_street remote).
Local Abbreviation starts := (Contract.starts remote).
Local Abbreviation two_attempts := (Contract.two_attempts remote).
Local Abbreviation retry_contract := (Contract.retry_contract remote).
Local Abbreviation serves := (Contract.serves remote).
Local Abbreviation failed_disambiguation :=
  (Contract.failed_disambiguation remote).

Lemma after_nil w : after [] w = w.
Proof. destruct w; reflexivity. Qed.

Lemma after_after a b w : after a (after b w) = after (a ++ b) w.
Proof. unfold after; simpl. now rewrite app_assoc. Qed.

Lemma bind_return {A B} (m : M A) (k : A -> M B) w a w' :
  m w = (Return a, w') -> bind m k w = k a w'.
Proof. intros H; unfold bind; now rewrite H. Qed.

Lemma bind_raise {A B} (m : M A) (k : A -> M B) w e w' :
  m w = (Raise e, w') -> bind m k w = (Raise e, w').
Proof. intros H; unfold bind; now rewrite H. Qed.

Lemma ensure_session w w0 :
  __ensure_initialization w = (Return tt, w0) -> __session (self w0) = true.
Proof.
  unfold Api.__ensure_initialization.
  destruct (__session (self w)) eqn:Hs.
  - intros H; inversion H; subst; exact Hs.
  - unfold bind, session_request, response_json, lift, ret, raise; simpl.
    destruct (remote _ _) as [r|]; [|discriminate].
    destruct (body r); [|discriminate]; simpl.
    destruct (subscript _ _); simpl; [|discriminate].
    intros H; inversion H; reflexivity.
Qed.

Lemma ensure_ready w0 :
  __session (self w0) = true -> __ensure_initialization w0 = (Return tt, w0).
Proof. intros H; unfold Api.__ensure_initialization; now rewrite H. Qed.

Lemma starts_again w w0 ep rqs rqs' :
  starts w (after rqs w0) ep -> starts (after rqs' w0) (after rqs' w0) ep.
Proof.
  intros [Hi He]; split; [|exact He].
  apply ensure_ready. apply ensure_session in Hi. exact Hi.
Qed.

Lemma attempts_two m action data w0 ep :
  __endpoint (self w0) = Some ep ->
  attempts 2 m action data w0
  = two_attempts (mkreq m (ep ++ "/" ++ action)%string data) w0.
Proof.
  intros He. unfold Contract.two_attempts, after; simpl.
  unfold bind at 1, read_endpoint. rewrite He.
  unfold bind at 1, session_request.
  destruct (remote (sent w0) _) as [r1|]; [|reflexivity].
  destruct (status_code r1 =? 200); [reflexivity|].
  unfold bind at 1, read_endpoint; simpl. rewrite He.
  unfold bind at 1, session_request; simpl.
  destruct (remote (_ :: sent w0) _) as [r2|]; [|reflexivity].
  destruct (status_code r2 =? 200); reflexivity.
Qed.

Lemma get_two w w0 ep action :
  starts w w0 ep ->
  __get action w = two_attempts (mkreq GET (ep ++ "/" ++ action)%string PNone) w0.
Proof.
  intros [Hi He]. unfold Api.__get.
  rewrite (bind_return _ _ _ _ _ Hi). now apply attempts_two.
Qed.

Lemma post_two w w0 ep action data :
  starts w w0 ep ->
  __post action data w
  = two_attempts (mkreq POST (ep ++ "/" ++ action)%string data) w0.
Proof.
  intros [Hi He]. unfold Api.__post.
  rewrite (bind_return _ _ _ _ _ Hi). now apply attempts_two.
Qed.

Lemma two_attempts_contract call rq w w0 :
  call w = two_attempts rq w0 -> retry_contract call rq w w0.
Proof.
  intros H. unfold Contract.retry_contract. rewrite H. unfold Contract.two_attempts.
  repeat split.
  - destruct (remote (sent w0) rq) as [r1|].
    + destruct (status_code r1 =? 200).
      * exists 1%nat. split; [lia|].
        unfold response_json; destruct (body r1); reflexivity.
      * exists 2%nat. split; [lia|].
        destruct (remote (rq :: sent w0) rq) as [r2|]; [|reflexivity].
        destruct (status_code r2 =? 200); [|reflexivity].
        unfold response_json; destruct (body r2); reflexivity.
    + exists 1%nat. split; [lia|reflexivity].
  - intros v ->. reflexivity.
  - intros s1 b1 v -> Hs ->. simpl.
    apply Z.eqb_neq in Hs. rewrite Hs. reflexivity.
  - intros s1 b1 s2 b2 -> Hs1 -> Hs2. simpl.
    apply Z.eqb_neq in Hs1, Hs2. rewrite Hs1, Hs2. reflexivity.
Qed.

(** C7, as the code has it: through [__get] and [__post] at most two
    requests are sent, one right after the other; an attempt answered
    with status 200, and no other status, returns its decoded body at
    once (the first, or the second after a failed first), and two
    answers with another status give [None], not an exception. *)
Theorem bounded_retry (action : string) (data : pyval) (w w0 : world)
    (ep : string) :
  starts w w0 ep ->
  retry_contract (__get action) (mkreq GET (ep ++ "/" ++ action)%string PNone) w w0
  /\ retry_contract (__post action data)
       (mkreq POST (ep ++ "/" ++ action)%string data) w w0.
Proof.
  intros Hs. split; apply two_attempts_contract.
  - now apply get_two.
  - now apply post_two.
Qed.


(** ** Pagination *)

Lemma int_gt_int n p : int_gt n (PInt p) = Val (n >? p).
Proof.
  unfold int_gt, num_compare, dyadic_compare; simpl.
  rewrite !Z.mul_1_r. unfold Z.gtb. destruct (n ?= p); reflexivity.
Qed.

Lemma lookup_nonempty k d v : lookup k d = Some v -> d <> [].
Proof. destruct d; [discriminate|discriminate]. Qed.

Lemma envelope_usable items pages v :
  envelope items pages v -> page_unusable v = Val false.
Proof.
  intros (d & -> & Hi & Hp). unfold page_unusable.
  assert (Ht : truthy (PDict d) = true) by (destruct d; [discriminate|reflexivity]).
  rewrite Ht. unfold contains. rewrite Hi, Hp. reflexivity.
Qed.

Lemma load_loop_S fuel action size items page :
  load_loop (S fuel) action size items page
  = (response <- __get (page_action action page size) ;;
     stop <- lift (page_unusable response) ;;
     if stop then ret items
     else
       more <- lift (v <~ subscript response "items" ;; iterate v) ;;
       last <- lift (pages <~ subscript response "pages" ;;
                     int_gt (page + 1) pages) ;;
       if last then ret (items ++ more)
       else load_loop fuel action size (items ++ more) (page + 1)).
Proof. reflexivity. Qed.

Lemma bind_lift {A B} (r : res A) (a : A) (k : A -> M B) w :
  r = Val a -> bind (lift r) k w = k a w.
Proof. intros ->. reflexivity. Qed.

Lemma get_first_ok action wk w0 ep v :
  starts wk w0 ep ->
  remote (sent w0) (mkreq GET (ep ++ "/" ++ action)%string PNone)
  = Answered (mkresp 200 (Some v)) ->
  __get action wk
  = (Return v, after [mkreq GET (ep ++ "/" ++ action)%string PNone] w0).
Proof.
  intros Hs Hr. rewrite (get_two _ _ _ _ Hs). unfold Contract.two_attempts.
  rewrite Hr. reflexivity.
Qed.

Lemma load_loop_step fuel action size acc k wk w0 ep items total v :
  starts wk (after (page_requests ep action size k) w0) ep ->
  remote (page_requests ep action size k ++ sent w0)
         (page_request ep action size (Z.of_nat (S k)))
  = Answered (mkresp 200 (Some v)) ->
  envelope items total v ->
  load_loop (S fuel) action size acc (Z.of_nat (S k)) wk
  = if Z.of_nat (S (S k)) >? total
    then (Return (acc ++ items),
          after (page_requests ep action size (S k)) w0)
    else load_loop fuel action size (acc ++ items) (Z.of_nat (S (S k)))
           (after (page_requests ep action size (S k)) w0).
Proof.
  intros Hs Hr He. rewrite load_loop_S.
  replace (Z.of_nat (S k) + 1) with (Z.of_nat (S (S k))) by lia.
  rewrite (bind_return _ _ _ _ _ (get_first_ok _ _ _ _ _ Hs Hr)).
  rewrite after_after.
  change ([mkreq GET (ep ++ "/" ++ page_action action (Z.of_nat (S k)) size)%string
             PNone] ++ page_requests ep action size k)
    with (page_requests ep action size (S k)).
  rewrite (bind_lift _ _ _ _ (envelope_usable _ _ _ He)).
  destruct He as (d & -> & Hi & Hp).
  rewrite (bind_lift _ items).
  2:{ unfold subscript. rewrite Hi. reflexivity. }
  rewrite (bind_lift _ (Z.of_nat (S (S k)) >? total)).
  2:{ unfold subscript. rewrite Hp. simpl res_bind. apply int_gt_int. }
  destruct (Z.of_nat (S (S k)) >? total); reflexivity.
Qed.

Lemma load_loop_pages action size ep w0 total :
  forall rest done acc fuel wk,
    starts wk (after (page_requests ep action size (List.length done)) w0) ep ->
    serves w0 ep action size (done ++ rest) total ->
    total = Z.of_nat (List.length (done ++ rest)) ->
    rest <> [] ->
    (List.length rest <= fuel)%nat ->
    load_loop fuel action size acc (Z.of_nat (S (List.length done))) wk
    = (Return (acc ++ List.concat rest),
       after (page_requests ep action size (List.length (done ++ rest))) w0).
Proof.
  induction rest as [|items rest IH]; intros done acc fuel wk Hs Hsv Ht Hne Hf.
  - congruence.
  - destruct fuel as [|fuel]; [simpl in Hf; lia|].
    destruct (Hsv (List.length done) items) as (v & Hr & He).
    { rewrite nth_error_app2 by lia. now rewrite Nat.sub_diag. }
    rewrite (load_loop_step _ _ _ _ _ _ _ _ _ _ _ Hs Hr He).
    rewrite List.length_app in Ht. simpl List.length in Ht.
    destruct rest as [|items' rest'].
    + replace (Z.of_nat (S (S (List.length done))) >? total) with true
        by (symmetry; apply Z.gtb_lt; simpl List.length in Ht; lia).
      simpl List.concat. rewrite app_nil_r.
      rewrite List.length_app. simpl List.length.
      now replace (List.length done + 1)%nat with (S (List.length done)) by lia.
    + replace (Z.of_nat (S (S (List.length done))) >? total) with false
        by (symmetry; rewrite Z.gtb_ltb; apply Z.ltb_ge;
            simpl List.length in Ht; lia).
      assert (Hd : List.length (done ++ [items]) = S (List.length done))
        by (rewrite List.length_app; simpl; lia).
      rewrite <- Hd.
      rewrite (IH (done ++ [items]) (acc ++ items) fuel).
      * rewrite <- !app_assoc. reflexivity.
      * rewrite Hd. eapply starts_again; eassumption.
      * now rewrite <- app_assoc.
      * rewrite <- app_assoc, List.length_app. exact Ht.
      * discriminate.
      * simpl in Hf |- *. lia.
Qed.

(** C2: when the requests for pages 1 to P are each answered with an
    envelope carrying that page's items and declaring P pages, the loader
    returns the concatenation of the pages' items in page order, having
    sent exactly the requests for pages 1 to P; any fuel of at least P
    iterations suffices, so the loop terminates. *)
Theorem load_all_complete (action : string) (size : Z)
    (pages : list (list pyval)) (w w0 : world) (ep : string) (fuel : nat) :
  starts w w0 ep ->
  pages <> [] ->
  serves w0 ep action size pages (Z.of_nat (List.length pages)) ->
  (List.length pages <= fuel)%nat ->
  __load_all fuel action size w
  = (Return (List.concat pages),
     after (page_requests ep action size (List.length pages)) w0).
Proof.
  intros Hs Hne Hsv Hf. unfold Api.__load_all.
  apply (load_loop_pages action size ep w0 (Z.of_nat (List.length pages))
           pages [] [] fuel w); auto.
  simpl. now rewrite after_nil.
Qed.


Lemma absent_or_malformed_unusable v :
  absent_or_malformed v -> page_unusable v = Val true.
Proof.
  intros [-> | (d & -> & H)]; [reflexivity|].
  unfold page_unusable.
  destruct (truthy (PDict d)); [|reflexivity]. simpl negb. cbv iota.
  unfold contains.
  destruct (lookup "items" d); [|reflexivity].
  destruct H as [H | ->]; [discriminate|reflexivity].
Qed.

Lemma load_loop_stops fuel action size acc page wk w0 ep v w' :
  starts wk w0 ep ->
  two_attempts (mkreq GET (ep ++ "/" ++ page_action action page size)%string
                  PNone) w0 = (Return v, w') ->
  absent_or_malformed v ->
  load_loop (S fuel) action size acc page wk = (Return acc, w').
Proof.
  intros Hs Hg Hv. rewrite load_loop_S.
  rewrite <- (get_two _ _ _ _ Hs) in Hg.
  rewrite (bind_return _ _ _ _ _ Hg).
  rewrite (bind_lift _ _ _ _ (absent_or_malformed_unusable _ Hv)).
  reflexivity.
Qed.

Lemma load_loop_partial action size ep w0 total v w' :
  forall rest done acc fuel wk,
    starts wk (after (page_requests ep action size (List.length done)) w0) ep ->
    serves w0 ep action size (done ++ rest) total ->
    Z.of_nat (List.length (done ++ rest)) < total ->
    two_attempts
      (page_request ep action size (Z.of_nat (S (List.length (done ++ rest)))))
      (after (page_requests ep action size (List.length (done ++ rest))) w0)
    = (Return v, w') ->
    absent_or_malformed v ->
    (List.length rest < fuel)%nat ->
    load_loop fuel action size acc (Z.of_nat (S (List.length done))) wk
    = (Return (acc ++ List.concat rest), w').
Proof.
  induction rest as [|items rest IH];
    intros done acc fuel wk Hs Hsv Ht Hg Hv Hf;
    (destruct fuel as [|fuel]; [simpl in Hf; lia|]).
  - rewrite app_nil_r in Hg. simpl List.concat. rewrite app_nil_r.
    eapply load_loop_stops; eassumption.
  - destruct (Hsv (List.length done) items) as (x & Hr & He).
    { rewrite nth_error_app2 by lia. now rewrite Nat.sub_diag. }
    rewrite (load_loop_step _ _ _ _ _ _ _ _ _ _ _ Hs Hr He).
    assert (Hd : List.length (done ++ [items]) = S (List.length done))
      by (rewrite List.length_app; simpl; lia).
    assert (Hl : (done ++ [items]) ++ rest = done ++ items :: rest)
      by (now rewrite <- app_assoc).
    replace (Z.of_nat (S (S (List.length done))) >? total) with false.
    2:{ symmetry; rewrite Z.gtb_ltb; apply Z.ltb_ge.
        rewrite List.length_app in Ht. simpl List.length in Ht. lia. }
    rewrite <- Hd.
    rewrite (IH (done ++ [items]) (acc ++ items) fuel).
    + rewrite <- app_assoc. reflexivity.
    + rewrite Hd. eapply starts_again; eassumption.
    + now rewrite Hl.
    + now rewrite Hl.
    + now rewrite Hl.
    + assumption.
    + simpl in Hf. lia.
Qed.

(** C4, as the code has it: when pages 1 to k are served and the fetch of
    page k+1, at or before the declared last page, comes back absent or
    malformed, the loop stops and the items of pages 1 to k are returned
    (the empty list when k = 0); the partial list is not dropped. *)
Theorem load_all_partial (action : string) (size : Z)
    (pages : list (list pyval)) (total : Z) (w w0 w' : world) (ep : string)
    (v : pyval) (fuel : nat) :
  starts w w0 ep ->
  serves w0 ep action size pages total ->
  Z.of_nat (List.length pages) < total ->
  __get (page_action action (Z.of_nat (S (List.length pages))) size)
        (after (page_requests ep action size (List.length pages)) w0)
  = (Return v, w') ->
  absent_or_malformed v ->
  (List.length pages < fuel)%nat ->
  __load_all fuel action size w = (Return (List.concat pages), w').
Proof.
  intros Hs Hsv Ht Hg Hv Hf. unfold Api.__load_all.
  apply (load_loop_partial action size ep w0 total v w' pages [] [] fuel w);
    auto.
  - simpl. now rewrite after_nil.
  - simpl app. rewrite <- Hg. symmetry. apply get_two.
    apply (starts_again w w0 ep [] _). now rewrite after_nil.
Qed.

(** ** Street resolution *)

Lemma subscript_found d k v :
  lookup k d = Some v -> subscript (PDict d) k = Val v.
Proof. intros H; unfold subscript; now rewrite H. Qed.

Lemma subscript_int_head x l : subscript_int (PList (x :: l)) 0 = Val x.
Proof. reflexivity. Qed.

Lemma street_matches_named street language c n :
  named language c n ->
  street_matches (str_lower (str_strip street)) language c
  = Val (same_street n street).
Proof. unfold named, street_matches. intros ->. reflexivity. Qed.

Lemma first_match_none street language cands :
  Forall (differs street language) cands ->
  first_match (str_lower (str_strip street)) language cands = Val PNone.
Proof.
  induction 1 as [|c cands (n & Hn & Hd) _ IH]; [reflexivity|].
  simpl. rewrite (street_matches_named _ _ _ _ Hn), Hd. exact IH.
Qed.

Lemma first_match_hit street language before c rest n :
  Forall (differs street language) before ->
  named language c n -> same_street n street = true ->
  first_match (str_lower (str_strip street)) language (before ++ c :: rest)
  = Val c.
Proof.
  intros Hb Hn Hm.
  induction Hb as [|b before (m & Hbn & Hd) _ IH]; simpl.
  - rewrite (street_matches_named _ _ _ _ Hn), Hm. reflexivity.
  - rewrite (street_matches_named _ _ _ _ Hbn), Hd. exact IH.
Qed.

Lemma named_truthy language c n : named language c n -> truthy c = true.
Proof.
  unfold named; simpl. unfold subscript.
  destruct c; try discriminate. destruct d; [discriminate|reflexivity].
Qed.

(** [get_street] once [__post] has returned a dict declaring [total],
    in the branch taken when [total != 1]. *)
Lemma get_street_disambiguates street zip language w w' d total cands :
  __post (street_action street zip) PNone w = (Return (PDict d), w') ->
  lookup "total" d = Some total -> eq_int total 1 = false ->
  lookup "items" d = Some (PList cands) ->
  get_street street zip language w
  = match first_match (str_lower (str_strip street)) language cands with
    | Val item =>
        if negb (truthy item) then (Raise invalid_streetname, w')
        else lift (id <~ subscript item "id" ;;
                   localized <~ path item ["names"; language] ;;
                   Val (id, localized)) w'
    | Err e => (Raise (Builtin e), w')
    end.
Proof.
  intros Hp Ht Hne Hi. unfold Api.get_street.
  rewrite (bind_return _ _ _ _ _ Hp).
  rewrite (bind_lift _ total) by (unfold subscript; now rewrite Ht).
  rewrite Hne. cbn [negb].
  unfold subscript at 1. rewrite Hi. cbn [res_bind iterate].
  destruct (first_match _ _ _) as [item|e]; [|reflexivity].
  unfold bind, lift at 1, ret. destruct (negb (truthy item)); reflexivity.
Qed.

(** ... and in the branch taken when [total == 1]. *)
Lemma get_street_single street zip language w w' d total :
  __post (street_action street zip) PNone w = (Return (PDict d), w') ->
  lookup "total" d = Some total -> eq_int total 1 = true ->
  get_street street zip language w
  = lift (items <~ subscript (PDict d) "items" ;;
          first <~ subscript_int items 0 ;;
          id <~ subscript first "id" ;;
          items <~ subscript (PDict d) "items" ;;
          first <~ subscript_int items 0 ;;
          localized <~ path first ["names"; language] ;;
          Val (id, localized)) w'.
Proof.
  intros Hp Ht He. unfold Api.get_street.
  rewrite (bind_return _ _ _ _ _ Hp).
  rewrite (bind_lift _ total) by (unfold subscript; now rewrite Ht).
  rewrite He. reflexivity.
Qed.

(** C5: when the response declares a total of one, the first item's id
    and localized name are returned whatever that name is; no comparison
    with the queried street takes place. *)
Theorem single_result_unconditional (street zip language : string)
    (w w' : world) (d i : list (string * pyval)) (total id localized : pyval)
    (others : list pyval) :
  __post (street_action street zip) PNone w = (Return (PDict d), w') ->
  lookup "total" d = Some total -> eq_int total 1 = true ->
  lookup "items" d = Some (PList (PDict i :: others)) ->
  lookup "id" i = Some id ->
  path (PDict i) ["names"; language] = Val localized ->
  get_street street zip language w = (Return (id, localized), w').
Proof.
  intros Hp Ht He Hi Hid Hn.
  rewrite (get_street_single _ _ _ _ _ _ _ Hp Ht He).
  rewrite (subscript_found _ _ _ Hi). cbn [res_bind].
  rewrite subscript_int_head. cbn [res_bind].
  rewrite (subscript_found _ _ _ Hid). cbn [res_bind].
  rewrite Hn. reflexivity.
Qed.


Lemma get_street_no_match street zip language w w' d total cands :
  __post (street_action street zip) PNone w = (Return (PDict d), w') ->
  lookup "total" d = Some total -> eq_int total 1 = false ->
  lookup "items" d = Some (PList cands) ->
  Forall (differs street language) cands ->
  get_street street zip language w = (Raise invalid_streetname, w').
Proof.
  intros Hp Ht Hne Hi Hall.
  rewrite (get_street_disambiguates _ _ _ _ _ _ _ _ Hp Ht Hne Hi).
  rewrite (first_match_none _ _ _ Hall). reflexivity.
Qed.

Lemma get_street_match street zip language w w' d total before c rest n id :
  __post (street_action street zip) PNone w = (Return (PDict d), w') ->
  lookup "total" d = Some total -> eq_int total 1 = false ->
  lookup "items" d = Some (PList (before ++ c :: rest)) ->
  Forall (differs street language) before ->
  named language c n -> same_street n street = true ->
  subscript c "id" = Val id ->
  get_street street zip language w = (Return (id, PStr n), w').
Proof.
  intros Hp Ht Hne Hi Hb Hn Hm Hid.
  rewrite (get_street_disambiguates _ _ _ _ _ _ _ _ Hp Ht Hne Hi).
  rewrite (first_match_hit _ _ _ _ _ _ Hb Hn Hm).
  rewrite (named_truthy _ _ _ Hn). cbn [negb].
  rewrite Hid. cbn [res_bind]. unfold named in Hn. rewrite Hn. reflexivity.
Qed.

(** C6, as the code has it: when the response declares a total other than
    one and holds two or more candidates, none of whose trimmed,
    lower-cased names equals the trimmed, lower-cased query, the error
    with code "invalid_streetname" is raised; when a candidate matches,
    the first such candidate's id and name are returned. *)
Theorem disambiguation (street zip language : string) (w w' : world)
    (d : list (string * pyval)) (total : pyval) (cands : list pyval) :
  __post (street_action street zip) PNone w = (Return (PDict d), w') ->
  lookup "total" d = Some total -> eq_int total 1 = false ->
  lookup "items" d = Some (PList cands) ->
  (2 <= List.length cands)%nat ->
  (Forall (differs street language) cands ->
   get_street street zip language w
   = (Raise (ApiError (mkexception "invalid_streetname")), w'))
  /\ (forall before c rest n id,
        cands = before ++ c :: rest ->
        Forall (differs street language) before ->
        named language c n -> same_street n street = true ->
        subscript c "id" = Val id ->
        get_street street zip language w = (Return (id, PStr n), w')).
Proof.
  intros Hp Ht Hne Hi _. split.
  - intros Hall. eapply get_street_no_match; eassumption.
  - intros before c rest n id -> Hb Hn Hm Hid.
    eapply get_street_match; eassumption.
Qed.

(** C10: with a declared total other than one and no candidate at all the
    same "invalid_streetname" error is raised, never an empty result; and
    it is the declared total, not the number of items, that selects the
    branch: one lone non-matching item under such a total raises too, and
    under a total of one the first of several items is returned. *)
Theorem zero_candidates (street zip language : string) (w w' : world)
    (d : list (string * pyval)) (total : pyval) :
  __post (street_action street zip) PNone w = (Return (PDict d), w') ->
  lookup "total" d = Some total ->
  (eq_int total 1 = false ->
   lookup "items" d = Some (PList []) ->
   get_street street zip language w
   = (Raise (ApiError (mkexception "invalid_streetname")), w'))
  /\ (eq_int total 1 = false ->
      forall c, lookup "items" d = Some (PList [c]) ->
                differs street language c ->
                get_street street zip language w
                = (Raise (ApiError (mkexception "invalid_streetname")), w'))
  /\ (eq_int total 1 = true ->
      forall first others id localized,
        lookup "items" d = Some (PList (first :: others)) ->
        subscript first "id" = Val id ->
        path first ["names"; language] = Val localized ->
        get_street street zip language w = (Return (id, localized), w')).
Proof.
  intros Hp Ht. repeat split.
  - intros Hne Hi. eapply get_street_no_match; eauto.
  - intros Hne c Hi Hc. eapply get_street_no_match; eauto.
  - intros He first others id localized Hi Hid Hn.
    rewrite (get_street_single _ _ _ _ _ _ _ Hp Ht He).
    rewrite (subscript_found _ _ _ Hi). cbn [res_bind].
    rewrite subscript_int_head. cbn [res_bind].
    rewrite Hid. cbn [res_bind]. rewrite Hn. reflexivity.
Qed.


(** ** The typed error *)

Lemma quiet_ret {A} (a : A) : quiet (ret a).
Proof. intros w e w' H; discriminate. Qed.

Lemma quiet_builtin {A} (e : builtin_error) : quiet (@raise A (Builtin e)).
Proof. intros w e' w' H; discriminate. Qed.

Lemma quiet_lift {A} (r : res A) : quiet (lift r).
Proof. destruct r; [apply quiet_ret|apply quiet_builtin]. Qed.

Lemma quiet_bind {A B} (m : M A) (k : A -> M B) :
  quiet m -> (forall a, quiet (k a)) -> quiet (bind m k).
Proof.
  intros Hm Hk w e w'. unfold bind.
  destruct (m w) as [[a|e0|] w1] eqn:E.
  - apply Hk.
  - intros H; inversion H; subst. exact (Hm _ _ _ E).
  - discriminate.
Qed.

Lemma quiet_session_request m url data :
  quiet (session_request remote m url data).
Proof.
  intros w e w'. unfold session_request.
  destruct (remote _ _); discriminate.
Qed.

Lemma quiet_response_json r : quiet (response_json r).
Proof.
  unfold response_json. destruct (body r);
    [apply quiet_ret|apply quiet_builtin].
Qed.

Lemma quiet_read_endpoint : quiet read_endpoint.
Proof.
  intros w e w'. unfold read_endpoint.
  destruct (__endpoint (self w)); discriminate.
Qed.

Lemma quiet_ensure : quiet __ensure_initialization.
Proof.
  intros w e w'. unfold Api.__ensure_initialization.
  destruct (__session (self w)); [discriminate|].
  apply quiet_bind; [apply quiet_session_request|]. intros r.
  apply quiet_bind; [apply quiet_response_json|]. intros j.
  apply quiet_bind; [apply quiet_lift|]. intros b w2 e2 w2'. discriminate.
Qed.

Lemma quiet_attempts n m action data : quiet (attempts n m action data).
Proof.
  induction n as [|n IH]; simpl; [apply quiet_ret|].
  apply quiet_bind; [apply quiet_read_endpoint|]. intros ep.
  apply quiet_bind; [apply quiet_session_request|]. intros r.
  destruct (status_code r =? 200); [apply quiet_response_json|exact IH].
Qed.

Lemma quiet_get action : quiet (__get action).
Proof.
  apply quiet_bind; [apply quiet_ensure|]. intros _. apply quiet_attempts.
Qed.

Lemma quiet_post action data : quiet (__post action data).
Proof.
  apply quiet_bind; [apply quiet_ensure|]. intros _. apply quiet_attempts.
Qed.

Lemma quiet_load_loop fuel action size :
  forall items page, quiet (load_loop fuel action size items page).
Proof.
  induction fuel as [|fuel IH]; intros items page.
  - intros w e w'; discriminate.
  - rewrite load_loop_S.
    apply quiet_bind; [apply quiet_get|]. intros response.
    apply quiet_bind; [apply quiet_lift|]. intros [|]; [apply quiet_ret|].
    apply quiet_bind; [apply quiet_lift|]. intros more.
    apply quiet_bind; [apply quiet_lift|]. intros [|];
      [apply quiet_ret|apply IH].
Qed.

Lemma forget_raise {A} (m : M A) w e w' :
  forget m w = (Raise e, w') -> m w = (Raise e, w').
Proof.
  unfold forget, bind. destruct (m w) as [[a|e0|] w1]; simpl;
    intros H; inversion H; reflexivity.
Qed.

Lemma quiet_forget {A} (m : M A) : quiet m -> quiet (forget m).
Proof. intros H w e w' E. apply forget_raise in E. exact (H _ _ _ E). Qed.

Lemma street_matches_truthy street language i :
  street_matches street language i = Val true -> truthy i = true.
Proof.
  unfold street_matches; simpl. unfold subscript at 1.
  destruct i; try discriminate. destruct d; [discriminate|reflexivity].
Qed.

Lemma first_match_falsy street language items item :
  first_match street language items = Val item ->
  truthy item = false ->
  Forall (fun i => street_matches street language i = Val false) items.
Proof.
  induction items as [|i items IH]; simpl; intros H Hf; [constructor|].
  destruct (street_matches street language i) as [[|]|] eqn:E;
    simpl in H; try discriminate.
  - inversion H; subst. apply street_matches_truthy in E. congruence.
  - constructor; auto.
Qed.

Lemma get_street_typed_error street zip language w e w' :
  get_street street zip language w = (Raise (ApiError e), w') ->
  code e = "invalid_streetname"%string
  /\ failed_disambiguation street zip language w w'.
Proof.
  unfold Api.get_street. fold (street_action street zip).
  unfold bind at 1.
  destruct (__post _ _ w) as [[result|e0|] w1] eqn:Hp.
  2:{ intros H; inversion H; subst. now apply quiet_post in Hp. }
  2:{ discriminate. }
  unfold bind at 1.
  destruct (subscript result "total") as [total|] eqn:Ht; simpl lift;
    [|discriminate].
  unfold ret at 1. destruct (eq_int total 1) eqn:He; cbn [negb].
  { intros H. now apply quiet_lift in H. }
  unfold bind at 1.
  destruct (v <~ subscript result "items" ;; iterate v) as [items|] eqn:Hi.
  2:{ simpl. unfold res_bind in Hi |- *.
      destruct (subscript result "items"); simpl in *; [|discriminate].
      rewrite Hi. discriminate. }
  assert (Hl : (items0 <~ subscript result "items" ;;
                items1 <~ iterate items0 ;;
                first_match (str_lower (str_strip street)) language items1)
               = first_match (str_lower (str_strip street)) language items).
  { unfold res_bind in Hi |- *.
    destruct (subscript result "items"); [|discriminate].
    now rewrite Hi. }
  rewrite Hl.
  destruct (first_match _ _ items) as [item|] eqn:Hf; simpl lift;
    [|discriminate].
  unfold ret at 1. destruct (truthy item) eqn:Htr; cbn [negb].
  { intros H. now apply quiet_lift in H. }
  intros H; inversion H; subst. split; [reflexivity|].
  exists result, total, items. repeat split; auto.
  eapply first_match_falsy; eassumption.
Qed.


(** ** Fractions and the collection calendar *)

Variable now : pydate.
Variable COLLECTION_TYPES : list string.
Variable hash_lookup : bool.

Local Abbreviation in_collection_types :=
  (Api.in_collection_types COLLECTION_TYPES hash_lookup).
Local Abbreviation fraction_entry :=
  (Api.fraction_entry COLLECTION_TYPES hash_lookup).
Local Abbreviation collection_entry :=
  (Api.collection_entry COLLECTION_TYPES hash_lookup).
Local Abbreviation get_fractions :=
  (Api.get_fractions remote now COLLECTION_TYPES hash_lookup).
Local Abbreviation get_collections :=
  (Api.get_collections remote now COLLECTION_TYPES hash_lookup).
Local Abbreviation run :=
  (Api.run remote now COLLECTION_TYPES hash_lookup).
Local Abbreviation recognised := (Contract.recognised COLLECTION_TYPES).
Local Abbreviation keys_recognised :=
  (Contract.keys_recognised COLLECTION_TYPES).

Lemma quiet_get_zip_code z l : quiet (get_zip_code remote z l).
Proof.
  apply quiet_bind; [apply quiet_get|]. intros r. apply quiet_lift.
Qed.

Lemma quiet_get_recycling_parks z l : quiet (get_recycling_parks remote z l).
Proof.
  apply quiet_bind; [apply quiet_get|]. intros r. apply quiet_lift.
Qed.

Lemma quiet_get_fractions fuel z s h l n : quiet (get_fractions fuel z s h l n).
Proof.
  apply quiet_bind; [apply quiet_load_loop|]. intros r. apply quiet_lift.
Qed.

Lemma quiet_get_collections z s h f u n : quiet (get_collections z s h f u n).
Proof.
  unfold Api.get_collections.
  apply quiet_bind.
  - destruct u; [apply quiet_ret|].
    destruct (plus_weeks _ 8); [apply quiet_ret|apply quiet_builtin].
  - intros d. apply quiet_bind; [apply quiet_get|]. intros r.
    apply quiet_lift.
Qed.

Lemma in_collection_types_true v :
  in_collection_types v = Val true -> recognised v.
Proof.
  unfold Api.in_collection_types.
  destruct v; try discriminate.
  - intros H; inversion H as [He]. apply existsb_exists in He.
    destruct He as (x & Hin & Hx). apply String.eqb_eq in Hx; subst.
    exists x; auto.
  - destruct hash_lookup; discriminate.
  - destruct hash_lookup; discriminate.
Qed.

Lemma dict_store_forall {V} (P : pyval * V -> Prop) k v (d : pydict V) :
  Forall P d -> P (k, v) ->
  (forall k' v', P (k', v') -> key_eqb k k' = true -> P (k', v)) ->
  Forall P (dict_store k v d).
Proof.
  intros Hd Hk Hup. induction Hd as [|[k' v'] d Hx Hd IH]; simpl.
  - constructor; [exact Hk|constructor].
  - destruct (key_eqb k k') eqn:E.
    + constructor; [eapply Hup; eassumption|exact Hd].
    + constructor; [exact Hx|exact IH].
Qed.

Lemma dict_store_keys {V} k (v : V) d :
  keys_recognised d -> recognised k -> keys_recognised (dict_store k v d).
Proof.
  intros Hd Hk. apply dict_store_forall; auto.
Qed.

Lemma dict_set_keys {V} k (v : V) d d' :
  keys_recognised d -> recognised k -> dict_set k v d = Val d' ->
  keys_recognised d'.
Proof.
  unfold dict_set. destruct (hashable k); [|discriminate].
  intros Hd Hk H; inversion H; subst. now apply dict_store_keys.
Qed.

Lemma fold_res_invariant {A S} (P : S -> Prop) (f : A -> S -> res S) :
  (forall a s s', P s -> f a s = Val s' -> P s') ->
  forall l s s', P s -> fold_res f l s = Val s' -> P s'.
Proof.
  intros Hf. induction l as [|a l IH]; simpl; intros s s' Hs H.
  - inversion H; subst; exact Hs.
  - destruct (f a s) as [s1|] eqn:E; simpl in H; [|discriminate].
    eapply IH; [|exact H]. eapply Hf; eassumption.
Qed.


Ltac step_res H :=
  match type of H with
  | res_bind ?r _ = Val _ =>
      let E := fresh "E" in
      destruct r eqn:E; cbn [res_bind] in H; [|discriminate H]
  | (if ?b then _ else _) = Val _ =>
      let E := fresh "E" in destruct b eqn:E
  | Val _ = Val _ => inversion H; subst; clear H
  end.

Ltac known_id :=
  match goal with
  | Hin : Api.in_collection_types _ _ _ = Val ?b, Hneg : negb ?b = false
    |- _ =>
      apply negb_false_iff in Hneg; subst b;
      apply in_collection_types_true in Hin
  end.

Lemma fraction_entry_keys language f result result' :
  keys_recognised result ->
  fraction_entry language f result = Val result' ->
  keys_recognised result'.
Proof.
  intros Hk H. unfold Api.fraction_entry in H.
  repeat step_res H; auto.
  known_id. eapply dict_set_keys; eassumption.
Qed.

Lemma default_getitem_keys k (result result1 : pydict (list pydate)) dates :
  keys_recognised result -> recognised k ->
  default_getitem k result = Val (dates, result1) ->
  keys_recognised result1.
Proof.
  unfold default_getitem. intros Hr Hk.
  destruct (hashable k); [|discriminate].
  destruct (dict_find k result); intros H; inversion H; subst; auto.
  now apply dict_store_keys.
Qed.

Lemma collection_entry_keys item result result' :
  keys_recognised result ->
  collection_entry item result = Val result' ->
  keys_recognised result'.
Proof.
  intros Hk H. unfold Api.collection_entry in H.
  repeat step_res H; auto.
  known_id.
  match goal with
  | Hd : default_getitem _ _ = Val ?p |- _ =>
      destruct p as [fraction result1];
      pose proof (default_getitem_keys _ _ _ _ Hk ltac:(eassumption) Hd)
        as Hk1
  end.
  repeat step_res H; auto.
  eapply dict_set_keys; eassumption.
Qed.


Lemma lift_return {A} (r : res A) (a : A) w w' :
  lift r w = (Return a, w') -> r = Val a /\ w' = w.
Proof.
  destruct r; simpl; unfold ret, raise; intros H; inversion H; auto.
Qed.

Lemma bind_returns {A B} (m : M A) (k : A -> M B) w b w' :
  bind m k w = (Return b, w') ->
  exists a w1, m w = (Return a, w1) /\ k a w1 = (Return b, w').
Proof.
  unfold bind. destruct (m w) as [[a|e|] w1]; try discriminate.
  intros H. exists a, w1. auto.
Qed.

Lemma get_fractions_keys fuel z s h l n w result w' :
  get_fractions fuel z s h l n w = (Return result, w') ->
  keys_recognised result.
Proof.
  unfold Api.get_fractions. intros H.
  apply bind_returns in H. destruct H as (items & w1 & _ & H).
  apply lift_return in H. destruct H as [H _].
  eapply (fold_res_invariant keys_recognised); [|constructor|exact H].
  intros a r r'. apply fraction_entry_keys.
Qed.

(** What [get_collections] folds over, and from where. *)
Lemma get_collections_fold z s h f u n w result w' :
  get_collections z s h f u n w = (Return result, w') ->
  exists items, fold_res collection_entry items [] = Val result.
Proof.
  unfold Api.get_collections. intros H.
  apply bind_returns in H. destruct H as (until & w1 & _ & H).
  apply bind_returns in H. destruct H as (response & w2 & _ & H).
  apply lift_return in H. destruct H as [H _].
  destruct (subscript response "items") as [c|]; [|discriminate].
  cbn [res_bind] in H.
  destruct (iterate c) as [items|]; [|discriminate].
  cbn [res_bind] in H. exists items. exact H.
Qed.

Lemma bind_lift_world {A B} (m : M A) (f : A -> res B) w :
  snd (bind m (fun a => lift (f a)) w) = snd (m w).
Proof.
  unfold bind. destruct (m w) as [[a|e|] w1]; simpl; try reflexivity.
  destruct (f a); reflexivity.
Qed.

(** Whatever the remote side answers, [get_collections] with both ends of
    the window given sends one URL only, without a page number, at most
    twice: no second page is ever asked for. *)
Lemma get_collections_one_url z s h from_date until_date n w w0 ep :
  starts w w0 ep ->
  exists k, (k <= 2)%nat
    /\ snd (get_collections z s h (Some from_date) (Some until_date) n w)
       = after
           (repeat
              (mkreq GET
                 (ep ++ "/" ++ "collections?zipcodeId=" ++ z
                  ++ "&streetId=" ++ s
                  ++ "&houseNumber=" ++ str_of_int h
                  ++ "&fromDate=" ++ strftime_ymd from_date
                  ++ "&untilDate=" ++ strftime_ymd until_date
                  ++ "&size=" ++ str_of_int n)%string PNone) k) w0.
Proof.
  intros Hs. unfold Api.get_collections.
  unfold bind at 1, ret at 1.
  rewrite bind_lift_world.
  match goal with
  | |- context [Api.__get remote ?a w] =>
      destruct (two_attempts_contract _ _ _ _ (get_two w w0 ep a Hs))
        as ((k & Hk & Hw) & _)
  end.
  exists k. split; [exact Hk|exact Hw].
Qed.

Lemma get_collections_keys z s h f u n w result w' :
  get_collections z s h f u n w = (Return result, w') ->
  keys_recognised result.
Proof.
  intros H. apply get_collections_fold in H. destruct H as (items & H).
  eapply (fold_res_invariant keys_recognised); [|constructor|exact H].
  intros a r r'. apply collection_entry_keys.
Qed.

Lemma path_logo_present f id :
  path f ["fraction"; "logo"; "id"] = Val id ->
  exists fraction, subscript f "fraction" = Val fraction
                   /\ contains "logo" fraction = Val true.
Proof.
  simpl. destruct (subscript f "fraction") as [fraction|]; [|discriminate].
  cbn [res_bind]. intros H. exists fraction. split; [reflexivity|].
  unfold subscript in H. destruct fraction; try discriminate.
  unfold contains. destruct (lookup "logo" d); [reflexivity|discriminate].
Qed.

(** A record without a logo, or whose logo id is read and is not in the
    allow-list, leaves the result as it was. *)
Lemma unrecognised_left_out :
  (forall language f result fraction,
      subscript f "fraction" = Val fraction ->
      contains "logo" fraction = Val false ->
      fraction_entry language f result = Val result)
  /\ (forall language f result id,
        path f ["fraction"; "logo"; "id"] = Val id ->
        in_collection_types id = Val false ->
        fraction_entry language f result = Val result)
  /\ (forall item result exc replaced_by id,
        get item "exception" (PDict []) = Val exc ->
        get exc "replacedBy" PNone = Val replaced_by ->
        fraction_id_of item = Val id ->
        in_collection_types id = Val false ->
        collection_entry item result = Val result).
Proof.
  repeat split.
  - intros language f result fraction Hf Hc.
    unfold Api.fraction_entry. rewrite Hf. cbn [res_bind].
    rewrite Hc. reflexivity.
  - intros language f result id Hp Hi.
    destruct (path_logo_present _ _ Hp) as (fraction & Hf & Hc).
    unfold Api.fraction_entry. rewrite Hf. cbn [res_bind].
    rewrite Hc. cbn [res_bind negb]. rewrite Hp. cbn [res_bind].
    rewrite Hi. reflexivity.
  - intros item result exc replaced_by id He Hr Hf Hi.
    unfold Api.collection_entry. rewrite He. cbn [res_bind].
    rewrite Hr. cbn [res_bind].
    destruct (truthy replaced_by); [reflexivity|].
    unfold fraction_id_of in Hf.
    destruct (get item "fraction" (PDict [])) as [fr|]; [|discriminate].
    cbn [res_bind] in Hf |- *.
    destruct (get fr "logo" (PDict [])) as [lg|]; [|discriminate].
    cbn [res_bind] in Hf |- *. rewrite Hf. cbn [res_bind].
    rewrite Hi. reflexivity.
Qed.

(** X23: whenever [get_fractions] or [get_collections] returns, every
    key of the result is a str of the allow-list [COLLECTION_TYPES]. *)
Theorem only_recognised_fractions :
  (forall fuel z s h l n w result w',
      get_fractions fuel z s h l n w = (Return result, w') ->
      forall k v, In (k, v) result ->
                  exists id, k = PStr id /\ In id COLLECTION_TYPES)
  /\ (forall z s h f u n w result w',
        get_collections z s h f u n w = (Return result, w') ->
        forall k v, In (k, v) result ->
                    exists id, k = PStr id /\ In id COLLECTION_TYPES).
Proof.
  split.
  - intros fuel z s h l n w result w' H k v Hin.
    apply get_fractions_keys in H. unfold Contract.keys_recognised in H.
    rewrite Forall_forall in H. exact (H _ Hin).
  - intros z s h f u n w result w' H k v Hin.
    apply get_collections_keys in H. unfold Contract.keys_recognised in H.
    rewrite Forall_forall in H. exact (H _ Hin).
Qed.

(** ** No date twice *)

Lemma date_eqb_eq a b : date_eqb a b = true <-> a = b.
Proof.
  unfold date_eqb. destruct a, b; simpl.
  rewrite !andb_true_iff, !Z.eqb_eq. split.
  - intros [[-> ->] ->]; reflexivity.
  - intros H; inversion H; auto.
Qed.

Lemma not_among d dates :
  existsb (date_eqb d) dates = false -> ~ In d dates.
Proof.
  intros H Hin.
  assert (existsb (date_eqb d) dates = true); [|congruence].
  apply existsb_exists. exists d. split; [exact Hin|now apply date_eqb_eq].
Qed.

Lemma nodup_snoc (d : pydate) dates :
  NoDup dates -> ~ In d dates -> NoDup (dates ++ [d]).
Proof.
  intros Hn Hd. induction Hn as [|x l Hx Hn IH]; simpl.
  - constructor; [intros []|constructor].
  - constructor.
    + rewrite in_app_iff; simpl. intros [H|[H|[]]]; [auto|].
      subst. apply Hd. now left.
    + apply IH. intros H; apply Hd; now right.
Qed.

Lemma dict_find_forall {V} (P : pyval * V -> Prop) k (d : pydict V) v :
  Forall P d -> dict_find k d = Some v -> exists k', P (k', v).
Proof.
  induction 1 as [|[k' v'] d Hx Hd IH]; simpl; [discriminate|].
  destruct (key_eqb k k').
  - intros H; inversion H; subst. now exists k'.
  - exact IH.
Qed.

Lemma default_getitem_distinct k result dates result1 :
  dates_distinct result ->
  default_getitem k result = Val (dates, result1) ->
  NoDup dates /\ dates_distinct result1.
Proof.
  unfold default_getitem. intros Hr.
  destruct (hashable k); [|discriminate].
  destruct (dict_find k result) as [found|] eqn:E;
    intros H; inversion H; subst.
  - split; [|exact Hr].
    destruct (dict_find_forall _ _ _ _ Hr E) as (k' & Hn). exact Hn.
  - split; [constructor|].
    apply dict_store_forall;
      [exact Hr|simpl; constructor|intros; simpl; constructor].
Qed.

Lemma collection_entry_distinct item result result' :
  dates_distinct result ->
  collection_entry item result = Val result' ->
  dates_distinct result'.
Proof.
  intros Hk H. unfold Api.collection_entry in H.
  repeat step_res H; auto.
  match goal with
  | Hd : default_getitem _ _ = Val ?p |- _ =>
      destruct p as [fraction result1];
      destruct (default_getitem_distinct _ _ _ _ Hk Hd) as [Hn Hk1]
  end.
  repeat step_res H; auto.
  match goal with
  | Hs : dict_set _ _ _ = Val _ |- _ => unfold dict_set in Hs
  end.
  repeat step_res H; try discriminate.
  match goal with
  | Hne : negb (existsb _ _) = true |- _ =>
      apply negb_true_iff in Hne; apply not_among in Hne
  end.
  apply dict_store_forall;
    [exact Hk1|simpl; now apply nodup_snoc
    |intros; simpl; now apply nodup_snoc].
Qed.

(** C8: in what [get_collections] returns, whatever the records were, the
    date list under each fraction id holds no date twice: a date is
    appended only when no equal date is in the list yet. *)
Theorem no_date_twice (z s : string) (h : Z) (f u : option pydate) (n : Z)
    (w w' : world) (result : pydict (list pydate)) :
  get_collections z s h f u n w = (Return result, w') ->
  forall fraction_id dates, In (fraction_id, dates) result -> NoDup dates.
Proof.
  intros H k dates Hin.
  apply get_collections_fold in H. destruct H as (items & H).
  assert (Hd : dates_distinct result).
  { eapply (fold_res_invariant dates_distinct); [|constructor|exact H].
    intros a r r'. apply collection_entry_distinct. }
  unfold dates_distinct in Hd. rewrite Forall_forall in Hd.
  exact (Hd _ Hin).
Qed.


(** ** How the operations end *)

Lemma only_get_street_is_typed fuel op w e w' :
  run fuel op w = (Raise (ApiError e), w') ->
  exists street zip language,
    op = GetStreet street zip language
    /\ code e = "invalid_streetname"%string
    /\ failed_disambiguation street zip language w w'.
Proof.
  destruct op; simpl; intros H.
  - now apply quiet_ensure in H.
  - apply forget_raise in H. now apply quiet_get_zip_code in H.
  - apply forget_raise in H. exists street, zip_code_id, language.
    split; [reflexivity|]. now apply get_street_typed_error.
  - apply forget_raise in H. now apply quiet_get_recycling_parks in H.
  - apply forget_raise in H. now apply quiet_get_fractions in H.
  - apply forget_raise in H. now apply quiet_get_collections in H.
Qed.

Lemma get_fractions_absent fuel z s h l n w w0 ep :
  starts w w0 ep ->
  (forall hist rq, exists status b,
        remote hist rq = Answered (mkresp status b) /\ status <> 200) ->
  exists w', get_fractions (S fuel) z s h l n w = (Return [], w').
Proof.
  intros Hs Hdown. unfold Api.get_fractions, Api.__load_all.
  match goal with
  | |- context [load_loop _ ?a ?sz [] 1] =>
      set (action := a);
      set (rq := mkreq GET (ep ++ "/" ++ page_action action 1 sz)%string PNone)
  end.
  destruct (Hdown (sent w0) rq) as (s1 & b1 & H1 & Hn1).
  destruct (Hdown (rq :: sent w0) rq) as (s2 & b2 & H2 & Hn2).
  exists (after [rq; rq] w0).
  assert (Hl : load_loop (S fuel) action n [] 1 w
               = (Return [], after [rq; rq] w0)).
  { eapply load_loop_stops; [exact Hs| |left; reflexivity].
    unfold Contract.two_attempts. fold rq. rewrite H1. simpl status_code.
    apply Z.eqb_neq in Hn1, Hn2. rewrite Hn1, H2. simpl status_code.
    now rewrite Hn2. }
  rewrite (bind_return _ _ _ _ _ Hl). reflexivity.
Qed.

Lemma empty_timestamp_skipped item result exc replaced_by id known :
  get item "exception" (PDict []) = Val exc ->
  get exc "replacedBy" PNone = Val replaced_by ->
  fraction_id_of item = Val id ->
  in_collection_types id = Val known ->
  get item "timestamp" (PStr "") = Val (PStr "") ->
  collection_entry item result = Val result.
Proof.
  intros He Hr Hf Hi Ht.
  unfold Api.collection_entry. rewrite He. cbn [res_bind].
  rewrite Hr. cbn [res_bind].
  destruct (truthy replaced_by); [reflexivity|].
  unfold fraction_id_of in Hf.
  destruct (get item "fraction" (PDict [])) as [fr|]; [|discriminate].
  cbn [res_bind] in Hf |- *.
  destruct (get fr "logo" (PDict [])) as [lg|]; [|discriminate].
  cbn [res_bind] in Hf |- *. rewrite Hf. cbn [res_bind].
  rewrite Hi. cbn [res_bind]. destruct known; [|reflexivity].
  cbn [negb]. rewrite Ht. reflexivity.
Qed.


End Properties.

(* ================================================================== *)
(** * The contract on concrete runs                                   *)
(* ================================================================== *)

Import Sample.

#[local] Existing Instance ascii_runtime.

Lemma fresh_starts (script : list (string * list reply)) :
  starts (scripted (configuration :: script)) fresh configured ep.
Proof. split; reflexivity. Qed.

Lemma ready_starts (remote : server) : starts remote ready ready ep.
Proof. split; reflexivity. Qed.

(** The retry policy at work: one failure, then the body. *)
Example get_retries_once :
  __get flaky "zipcodes?q=1000" fresh
  = (Return (PDict [("items", PList [])]),
     after [zip_request GET; zip_request GET] configured).
Proof. vm_compute. reflexivity. Qed.

Example get_gives_up :
  __get down "zipcodes?q=1000" ready
  = (Return PNone, after [zip_request GET; zip_request GET] ready).
Proof. vm_compute. reflexivity. Qed.

Lemma bounded_retry_witness :
  starts flaky fresh configured ep
  /\ retry_contract flaky (__get flaky "zipcodes?q=1000")
       (zip_request GET) fresh configured
  /\ retry_contract flaky (__post flaky "zipcodes?q=1000" PNone)
       (zip_request POST) fresh configured.
Proof.
  split; [apply fresh_starts|].
  exact (bounded_retry flaky "zipcodes?q=1000" PNone fresh configured ep
           (fresh_starts _)).
Defined.

(** C7, as worded, fails for a success status other than 200: a 201
    answer carrying a JSON body is not returned but retried, and after
    the second such answer the primitive gives None. *)
Lemma created_is_retried :
  created (sent ready) (zip_request GET)
  = Answered (mkresp 201 (Some created_body))
  /\ __get created "zipcodes?q=1000" ready
     = (Return PNone, after [zip_request GET; zip_request GET] ready)
  /\ __post created "zipcodes?q=1000" PNone ready
     = (Return PNone, after [zip_request POST; zip_request POST] ready)
  /\ fst (__get created "zipcodes?q=1000" ready) <> Return created_body.
Proof.
  split; [reflexivity|]. split; [vm_compute; reflexivity|].
  split; [vm_compute; reflexivity|]. vm_compute. discriminate.
Qed.

(** ** Pagination *)

Lemma two_pages_served :
  serves two_pages configured ep window 1 [[paper_8]; [glass_22]] 2.
Proof.
  intros [|[|k]] items H; simpl in H.
  - inversion H; subst. eexists. split; [vm_compute; reflexivity|].
    eexists. repeat split.
  - inversion H; subst. eexists. split; [vm_compute; reflexivity|].
    eexists. repeat split.
  - destruct k; discriminate.
Qed.

Lemma load_all_complete_witness :
  starts two_pages fresh configured ep
  /\ [[paper_8]; [glass_22]] <> []
  /\ serves two_pages configured ep window 1 [[paper_8]; [glass_22]] 2
  /\ (2 <= 2)%nat
  /\ __load_all two_pages 2 window 1 fresh
     = (Return [paper_8; glass_22],
        after [window_request "&page=2&size=1";
               window_request "&page=1&size=1"] configured).
Proof.
  split; [apply fresh_starts|].
  split; [discriminate|].
  split; [apply two_pages_served|].
  split; [lia|].
  exact (load_all_complete two_pages window 1 [[paper_8]; [glass_22]]
           fresh configured ep 2 (fresh_starts _)
           ltac:(discriminate) two_pages_served (le_n 2)).
Defined.

Lemma first_page_served :
  serves second_page_down configured ep window 1 [[paper_8]] 2.
Proof.
  intros [|k] items H; simpl in H.
  - inversion H; subst. eexists. split; [vm_compute; reflexivity|].
    eexists. repeat split.
  - destruct k; discriminate.
Qed.

(** Page 2 of 2 fails twice, and page 1's item is what the caller gets:
    the partial list is returned, neither dropped nor replaced by None. *)
Lemma partial_list_is_returned :
  second_page_down [window_request "&page=1&size=1"; mkreq GET config_url PNone]
                   (window_request "&page=2&size=1") = failure
  /\ second_page_down [window_request "&page=2&size=1";
                       window_request "&page=1&size=1";
                       mkreq GET config_url PNone]
                      (window_request "&page=2&size=1") = failure
  /\ fst (__load_all second_page_down 5 window 1 fresh) = Return [paper_8]
  /\ fst (__load_all second_page_down 5 window 1 fresh) <> Return []
  /\ (forall e, fst (__load_all second_page_down 5 window 1 fresh)
                <> Raise e).
Proof.
  repeat split; try (vm_compute; reflexivity);
    vm_compute; intros; discriminate.
Qed.

Lemma load_all_partial_witness :
  starts second_page_down fresh configured ep
  /\ serves second_page_down configured ep window 1 [[paper_8]] 2
  /\ 1 < 2
  /\ __get second_page_down (page_action window 2 1)
           (after [window_request "&page=1&size=1"] configured)
     = (Return PNone,
        after [window_request "&page=2&size=1";
               window_request "&page=2&size=1";
               window_request "&page=1&size=1"] configured)
  /\ absent_or_malformed PNone
  /\ (1 < 2)%nat
  /\ __load_all second_page_down 2 window 1 fresh
     = (Return [paper_8],
        after [window_request "&page=2&size=1";
               window_request "&page=2&size=1";
               window_request "&page=1&size=1"] configured).
Proof.
  assert (Hg : __get second_page_down (page_action window 2 1)
                 (after [window_request "&page=1&size=1"] configured)
               = (Return PNone,
                  after [window_request "&page=2&size=1";
                         window_request "&page=2&size=1";
                         window_request "&page=1&size=1"] configured))
    by (vm_compute; reflexivity).
  split; [apply fresh_starts|].
  split; [apply first_page_served|].
  split; [lia|].
  split; [exact Hg|].
  split; [left; reflexivity|].
  split; [lia|].
  exact (load_all_partial second_page_down window 1 [[paper_8]] 2
           fresh configured _ ep PNone 2 (fresh_starts _)
           first_page_served ltac:(reflexivity) Hg (or_introl eq_refl)
           (le_n 2)).
Defined.

(** C3: [get_collections] does not go through [__load_all]; it sends one
    request without a page number and reads that answer's items only.
    With the window's two records on two declared pages, the glass
    collection of page 2 is missing from the calendar, although the
    loader (which [get_fractions] uses on the same resource) fetches it. *)
Theorem get_collections_reads_one_page :
  january two_pages 1 fresh
  = (Return [(PStr "paper", [jan 8])],
     after [window_request "&size=1"] configured)
  /\ two_pages (sent configured) (window_request "&size=1")
     = ok (envelope_of [paper_8] 1 2)
  /\ fst (__load_all two_pages 5 window 1 fresh)
     = Return [paper_8; glass_22]
  /\ fold_res (collection_entry types true) [paper_8; glass_22] []
     = Val [(PStr "paper", [jan 8]); (PStr "glass", [jan 22])].
Proof. repeat split; vm_compute; reflexivity. Qed.

(** ** Streets *)

Lemma single_result_unconditional_witness :
  __post (answers_streets (streets 1 [rue_basse]))
         (street_action "  Rue HAUTE " "z1") PNone fresh
  = (Return (streets 1 [rue_basse]), after [street_request] configured)
  /\ eq_int (PInt 1) 1 = true
  /\ same_street "Rue Basse" "  Rue HAUTE " = false
  /\ rue_haute_query (answers_streets (streets 1 [rue_basse])) fresh
     = (Return (PStr "a", PStr "Rue Basse"),
        after [street_request] configured).
Proof.
  assert (Hp : __post (answers_streets (streets 1 [rue_basse]))
                 (street_action "  Rue HAUTE " "z1") PNone fresh
               = (Return (streets 1 [rue_basse]),
                  after [street_request] configured))
    by (vm_compute; reflexivity).
  split; [exact Hp|].
  split; [reflexivity|].
  split; [vm_compute; reflexivity|].
  exact (single_result_unconditional (answers_streets (streets 1 [rue_basse]))
           "  Rue HAUTE " "z1" "fr" fresh _ (street_fields 1 [rue_basse]) _
           (PInt 1) (PStr "a") (PStr "Rue Basse") []
           Hp eq_refl eq_refl eq_refl eq_refl eq_refl).
Defined.

Lemma basse_differs : differs "  Rue HAUTE " "fr" rue_basse.
Proof. exists "Rue Basse". split; vm_compute; reflexivity. Qed.

Lemma neuve_differs : differs "  Rue HAUTE " "fr" rue_neuve.
Proof. exists "Rue Neuve". split; vm_compute; reflexivity. Qed.

(** Two candidates, neither matching, under a declared total of one: the
    first is returned, no error is raised. *)
Lemma two_candidates_declared_one :
  fst (__post (answers_streets (streets 1 [rue_basse; rue_neuve]))
              (street_action "  Rue HAUTE " "z1") PNone fresh)
  = Return (streets 1 [rue_basse; rue_neuve])
  /\ Forall (differs "  Rue HAUTE " "fr") [rue_basse; rue_neuve]
  /\ fst (rue_haute_query (answers_streets (streets 1 [rue_basse; rue_neuve]))
                          fresh)
     = Return (PStr "a", PStr "Rue Basse")
  /\ (forall e,
        fst (rue_haute_query
               (answers_streets (streets 1 [rue_basse; rue_neuve])) fresh)
        <> Raise e).
Proof.
  split; [vm_compute; reflexivity|].
  split; [repeat constructor; [apply basse_differs|apply neuve_differs]|].
  split; [vm_compute; reflexivity|].
  vm_compute. intros; discriminate.
Qed.

Lemma post_streets (v : pyval) :
  __post (answers_streets v) (street_action "  Rue HAUTE " "z1") PNone fresh
  = (Return v, after [street_request] configured).
Proof.
  change (street_action "  Rue HAUTE " "z1") with street_query.
  unfold answers_streets.
  rewrite (post_two _ _ _ _ _ _ (fresh_starts _)).
  reflexivity.
Qed.

Lemma disambiguation_witness :
  (Forall (differs "  Rue HAUTE " "fr") [rue_basse; rue_neuve]
   /\ rue_haute_query (answers_streets (streets 2 [rue_basse; rue_neuve]))
                      fresh
      = (Raise (ApiError (mkexception "invalid_streetname")),
         after [street_request] configured))
  /\ (same_street " rue Haute" "  Rue HAUTE " = true
      /\ rue_haute_query
           (answers_streets (streets 3 [rue_basse; rue_haute; rue_neuve]))
           fresh
         = (Return (PStr "c", PStr " rue Haute"),
            after [street_request] configured)).
Proof.
  assert (Hd : Forall (differs "  Rue HAUTE " "fr") [rue_basse; rue_neuve])
    by (repeat constructor; [apply basse_differs|apply neuve_differs]).
  split; split.
  - exact Hd.
  - exact (proj1 (disambiguation _ "  Rue HAUTE " "z1" "fr" fresh _
                    (street_fields 2 [rue_basse; rue_neuve])
                    (PInt 2) [rue_basse; rue_neuve]
                    (post_streets (streets 2 [rue_basse; rue_neuve]))
                    eq_refl eq_refl eq_refl (le_n 2))
                 Hd).
  - vm_compute; reflexivity.
  - exact (proj2 (disambiguation _ "  Rue HAUTE " "z1" "fr" fresh _
                    (street_fields 3 [rue_basse; rue_haute; rue_neuve])
                    (PInt 3) [rue_basse; rue_haute; rue_neuve]
                    (post_streets
                       (streets 3 [rue_basse; rue_haute; rue_neuve]))
                    eq_refl eq_refl eq_refl (le_S _ _ (le_n 2)))
                 [rue_basse] rue_haute [rue_neuve] " rue Haute" (PStr "c")
                 eq_refl (Forall_cons _ basse_differs (Forall_nil _))
                 eq_refl eq_refl eq_refl).
Defined.

Lemma zero_candidates_witness :
  rue_haute_query (answers_streets (streets 0 [])) fresh
  = (Raise (ApiError (mkexception "invalid_streetname")),
     after [street_request] configured)
  /\ rue_haute_query (answers_streets (streets 4 [rue_basse])) fresh
     = (Raise (ApiError (mkexception "invalid_streetname")),
        after [street_request] configured)
  /\ rue_haute_query (answers_streets (streets 1 [rue_basse; rue_neuve]))
                     fresh
     = (Return (PStr "a", PStr "Rue Basse"),
        after [street_request] configured).
Proof.
  split; [|split].
  - exact (proj1 (zero_candidates _ "  Rue HAUTE " "z1" "fr" fresh _
                    (street_fields 0 []) (PInt 0)
                    (post_streets (streets 0 [])) eq_refl)
                 eq_refl eq_refl).
  - exact (proj1 (proj2 (zero_candidates _ "  Rue HAUTE " "z1" "fr" fresh _
                           (street_fields 4 [rue_basse]) (PInt 4)
                           (post_streets (streets 4 [rue_basse])) eq_refl))
                 eq_refl rue_basse eq_refl basse_differs).
  - exact (proj2 (proj2 (zero_candidates _ "  Rue HAUTE " "z1" "fr" fresh _
                           (street_fields 1 [rue_basse; rue_neuve]) (PInt 1)
                           (post_streets (streets 1 [rue_basse; rue_neuve]))
                           eq_refl))
                 eq_refl rue_basse [rue_neuve] (PStr "a") (PStr "Rue Basse")
                 eq_refl eq_refl eq_refl).
Defined.

(** ** Calendar and catalogue *)

Lemma no_date_twice_witness :
  january repeated_date 100 fresh
  = (Return [(PStr "paper", [jan 8; jan 22]); (PStr "glass", [jan 22])],
     after [window_request "&size=100"] configured)
  /\ NoDup [jan 8; jan 22].
Proof.
  assert (H : january repeated_date 100 fresh
              = (Return [(PStr "paper", [jan 8; jan 22]);
                         (PStr "glass", [jan 22])],
                 after [window_request "&size=100"] configured))
    by (vm_compute; reflexivity).
  split; [exact H|].
  exact (no_date_twice repeated_date today types true "z1" "s1" 7
           (Some (jan 1)) (Some (mkdate 2024 2 1)) 100 fresh _ _ H
           (PStr "paper") [jan 8; jan 22] (or_introl eq_refl)).
Defined.

Lemma only_recognised_fractions_witness :
  fst (get_fractions catalogue today types true 3 "z1" "s1" 7 "fr" 100 fresh)
  = Return [(PStr "paper", (PStr "#2b4c7e", PStr "paper"));
            (PStr "glass", (PStr "#2b4c7e", PStr "glass"))]
  /\ exists id, PStr "glass" = PStr id /\ In id types.
Proof.
  split; [vm_compute; reflexivity|].
  exact (proj1 (only_recognised_fractions catalogue today types true)
               3%nat "z1" "s1" 7 "fr" 100 fresh _ _ eq_refl
               (PStr "glass") _ (or_intror (or_introl eq_refl))).
Defined.

(** C9: a record whose logo carries no id is not excluded by
    [get_fractions]: the subscript [f["fraction"]["logo"]["id"]] ends the
    whole call in KeyError, where [get_collections], reading the same
    record through [.get], leaves it out and returns the rest.  A record
    whose fraction is null ends both in an error: the [.get] defaults
    cover an absent key only. *)
Theorem logo_without_id_raises :
  fst (get_fractions (paper_then no_logo_id) today types true 3
         "z1" "s1" 7 "fr" 100 fresh)
  = Raise (Builtin KeyError)
  /\ fst (january (paper_then no_logo_id) 100 fresh)
     = Return [(PStr "paper", [jan 8])]
  /\ fst (january (paper_then null_fraction) 100 fresh)
     = Raise (Builtin AttributeError)
  /\ fst (get_fractions (paper_then null_fraction) today types true 3
            "z1" "s1" 7 "fr" 100 fresh)
     = Raise (Builtin TypeError).
Proof. repeat split; vm_compute; reflexivity. Qed.

(** ** How operations end *)

(** C1: an absent response does not degrade to empty output everywhere.
    With every request failing twice, [get_collections] and
    [get_zip_code] subscript the None that [__get] hands them and end in
    TypeError, and [get_recycling_parks] calls [.get] on it and ends in
    AttributeError, where [__load_all] tests [not response] and
    [get_fractions] returns the empty dict; and a timestamp holding a
    year only gets past the test of its first part and ends in
    IndexError. *)
Theorem absent_response_raises :
  january down 100 ready
  = (Raise (Builtin TypeError),
     after [window_request "&size=100"; window_request "&size=100"] ready)
  /\ get_zip_code down 1000 "fr" ready
     = (Raise (Builtin TypeError),
        after [zip_request GET; zip_request GET] ready)
  /\ fst (get_recycling_parks down "z1" "fr" ready)
     = Raise (Builtin AttributeError)
  /\ fst (january year_only 100 fresh) = Raise (Builtin IndexError)
  /\ fst (get_fractions down today types true 1 "z1" "s1" 7 "fr" 100 ready)
     = Return [].
Proof. repeat split; vm_compute; reflexivity. Qed.

Lemma down_always_fails (hist : list request) (rq : request) :
  exists status b, down hist rq = Answered (mkresp status b) /\ status <> 200.
Proof. exists 500, None. split; [reflexivity|discriminate]. Qed.


(* ================================================================== *)
(** * Further properties of the client                                *)
(* ================================================================== *)

Import Records.

Ltac unpack H :=
  match type of H with
  | res_bind ?r _ = Val _ =>
      let E := fresh "E" in
      destruct r eqn:E; cbn [res_bind] in H; [|discriminate H]
  | (if ?b then _ else _) = Val _ =>
      let E := fresh "E" in destruct b eqn:E
  | Val _ = Val _ => inversion H; subst; clear H
  end.

Ltac head_step :=
  match goal with
  | |- res_bind ?r _ = _ => destruct r; cbn [res_bind]; try reflexivity
  | |- (if ?b then _ else _) = _ =>
      destruct b; cbn [res_bind]; try reflexivity
  | |- (let '(_, _) := ?p in _) = _ =>
      destruct p; cbn [res_bind]; try reflexivity
  end.

Section Session.

Context {rt : Runtime}.
Variable remote : server.

Local Abbreviation initialize := (Api.initialize remote).
Local Abbreviation __get := (Api.__get remote).
Local Abbreviation __post := (Api.__post remote).

Lemma initialize_first_use w status j base :
  __session (self w) = false ->
  remote (sent w) config_request = Answered (mkresp status (Some j)) ->
  subscript j "API" = Val base ->
  initialize w
  = (Return tt,
     mkworld (mkapi true (Some (format_value base ++ "/public/v1")%string))
             (config_request :: sent w)).
Proof.
  intros Hs Hr Hj. unfold Api.initialize, Api.__ensure_initialization.
  rewrite Hs. unfold bind, session_request; simpl.
  fold config_request. rewrite Hr. unfold response_json; simpl.
  rewrite Hj. reflexivity.
Qed.

Lemma initialize_sends w w0 :
  initialize w = (Return tt, w0) ->
  (__session (self w) = true /\ w0 = w)
  \/ (__session (self w) = false
      /\ sent w0 = config_request :: sent w).
Proof.
  unfold Api.initialize, Api.__ensure_initialization.
  destruct (__session (self w)) eqn:Hs.
  - intros H; inversion H; auto.
  - right. split; [reflexivity|]. revert H.
    unfold bind, session_request, response_json, lift, ret, raise; simpl.
    destruct (remote _ _) as [r|]; [|discriminate].
    destruct (body r); [|discriminate]; simpl.
    destruct (subscript _ _); simpl; [|discriminate].
    intros H; inversion H; reflexivity.
Qed.

(** X1: initialisation is idempotent.  The first use sends the one
    configuration request and, whatever the status code of the answer,
    takes the base address from its "API" field; once a call has
    returned, calling again returns at once: no request is sent and
    nothing changes. *)
Theorem initialize_idempotent (w w0 : world) :
  initialize w = (Return tt, w0) ->
  initialize w0 = (Return tt, w0)
  /\ (sent w0 = sent w \/ sent w0 = config_request :: sent w)
  /\ (forall status j base,
        __session (self w) = false ->
        remote (sent w) config_request = Answered (mkresp status (Some j)) ->
        subscript j "API" = Val base ->
        __endpoint (self w0)
        = Some (format_value base ++ "/public/v1")%string).
Proof.
  intros H. split; [|split].
  - apply ensure_ready. eapply ensure_session. exact H.
  - destruct (initialize_sends _ _ H) as [[_ ->]|[_ Hs]]; auto.
  - intros status j base Hs Hr Hj.
    rewrite (initialize_first_use _ _ _ _ Hs Hr Hj) in H.
    inversion H; reflexivity.
Qed.

Lemma initialize_failed w e w1 :
  initialize w = (Raise e, w1) ->
  __session (self w1) = true
  /\ __endpoint (self w1) = __endpoint (self w)
  /\ sent w1 = config_request :: sent w.
Proof.
  unfold Api.initialize, Api.__ensure_initialization.
  destruct (__session (self w)); [discriminate|].
  unfold bind, session_request, response_json, lift, ret, raise; simpl.
  destruct (remote _ _) as [r|].
  - destruct (body r); simpl.
    + destruct (subscript _ _); simpl; [discriminate|].
      intros H; inversion H; auto.
    + intros H; inversion H; auto.
  - intros H; inversion H; auto.
Qed.

(** X2: a failed initialisation is never tried again.  When the first
    use of a client ends in an error (server unreachable, body not JSON,
    no "API" field), the session stays in place without an endpoint, and
    every later [__get] or [__post] ends in AttributeError without
    sending anything. *)
Theorem failed_initialisation_sticks (w w1 : world) (e : exn) :
  __endpoint (self w) = None ->
  initialize w = (Raise e, w1) ->
  initialize w1 = (Return tt, w1)
  /\ (forall action,
        __get action w1 = (Raise (Builtin AttributeError), w1))
  /\ (forall action data,
        __post action data w1 = (Raise (Builtin AttributeError), w1)).
Proof.
  intros He H. destruct (initialize_failed _ _ _ H) as (Hs & Hep & _).
  rewrite He in Hep.
  assert (Hi : Api.__ensure_initialization remote w1 = (Return tt, w1))
    by (now apply ensure_ready).
  split; [exact Hi|]. split; intros.
  - unfold Api.__get. rewrite (bind_return _ _ _ _ _ Hi). simpl.
    unfold bind, read_endpoint. now rewrite Hep.
  - unfold Api.__post. rewrite (bind_return _ _ _ _ _ Hi). simpl.
    unfold bind, read_endpoint. now rewrite Hep.
Qed.

End Session.

Section Calendar.

Context {rt : Runtime}.
Variable remote : server.
Variable now : pydate.
Variable COLLECTION_TYPES : list string.
Variable hash_lookup : bool.

Local Abbreviation collection_entry :=
  (Api.collection_entry COLLECTION_TYPES hash_lookup).
Local Abbreviation fraction_entry :=
  (Api.fraction_entry COLLECTION_TYPES hash_lookup).
Local Abbreviation get_collections :=
  (Api.get_collections remote now COLLECTION_TYPES hash_lookup).
Local Abbreviation get_fractions :=
  (Api.get_fractions remote now COLLECTION_TYPES hash_lookup).
Local Abbreviation reading := (Records.reading COLLECTION_TYPES hash_lookup).
Local Abbreviation catalogue_reading :=
  (Records.catalogue_reading COLLECTION_TYPES hash_lookup).
Local Abbreviation in_collection_types :=
  (Api.in_collection_types COLLECTION_TYPES hash_lookup).

(** The loop body of [get_collections] is its reading followed by the
    store. *)
Lemma collection_entry_reading item result :
  collection_entry item result
  = (r <~ reading item ;;
     match r with
     | None => Val result
     | Some (fraction_id, d) => add_date fraction_id d result
     end).
Proof.
  unfold Api.collection_entry, Records.reading, add_date.
  repeat head_step.
Qed.

Lemma is_replaced_reading item :
  is_replaced item = true -> reading item = Val None.
Proof.
  unfold is_replaced, Records.reading.
  destruct (get item "exception" (PDict [])) as [exc|]; [|discriminate].
  cbn [res_bind].
  destruct (get exc "replacedBy" PNone) as [r|]; [|discriminate].
  cbn [res_bind]. now intros ->.
Qed.

(** X3: a record whose exception data names a replacement is left out
    whatever its other fields hold, a malformed timestamp or an unknown
    fraction included: the loop of [get_collections] gives the same
    result, or the same error, on the records with the replaced ones
    removed. *)
Theorem replaced_records_ignored (items : list pyval)
    (result : pydict (list pydate)) :
  fold_res collection_entry items result
  = fold_res collection_entry
      (filter (fun item => negb (is_replaced item)) items) result.
Proof.
  revert result. induction items as [|item items IH]; intros result;
    [reflexivity|].
  simpl. destruct (is_replaced item) eqn:E; simpl.
  - rewrite collection_entry_reading, (is_replaced_reading _ E).
    simpl. apply IH.
  - destruct (collection_entry item result); simpl; [apply IH|reflexivity].
Qed.


(** ** Dicts with str keys *)

Lemma str_keys_store {V} b (v : V) d :
  str_keys d -> str_keys (dict_store (PStr b) v d).
Proof.
  intros H. apply dict_store_forall; auto.
  simpl. now exists b.
Qed.

Lemma dict_find_store {V} (d : pydict V) a b v :
  str_keys d ->
  dict_find (PStr a) (dict_store (PStr b) v d)
  = if String.eqb a b then Some v else dict_find (PStr a) d.
Proof.
  induction 1 as [|[k v'] d (c & Hc) _ IH]; simpl in *.
  - destruct (String.eqb a b); reflexivity.
  - subst k. simpl key_eqb.
    destruct (String.eqb_spec b c) as [->|Hbc]; simpl.
    + destruct (String.eqb a c); reflexivity.
    + rewrite IH. destruct (String.eqb_spec a c) as [->|Hac].
      * destruct (String.eqb_spec c b); [congruence|reflexivity].
      * reflexivity.
Qed.

Lemma dict_store_twice {V} b (v0 v : V) d :
  dict_store (PStr b) v (dict_store (PStr b) v0 d) = dict_store (PStr b) v d.
Proof.
  induction d as [|[k v'] d IH]; cbn [dict_store].
  - simpl key_eqb. now rewrite String.eqb_refl.
  - destruct (key_eqb (PStr b) k) eqn:E; cbn [dict_store]; rewrite E;
      [reflexivity|].
    now rewrite IH.
Qed.

Lemma recognised_is_str v :
  in_collection_types v = Val true -> exists id, v = PStr id.
Proof.
  intros H. apply in_collection_types_true in H.
  destruct H as (s & -> & _). now exists s.
Qed.

Lemma reading_is_str item k d :
  reading item = Val (Some (k, d)) -> exists id, k = PStr id.
Proof.
  unfold Records.reading. intros H.
  repeat unpack H; try discriminate.
  match goal with
  | Hin : Api.in_collection_types _ _ _ = Val ?b, Hneg : negb ?b = false
    |- _ => apply negb_false_iff in Hneg; subst b;
            apply recognised_is_str in Hin; exact Hin
  end.
Qed.

(** What the store does to the dates under each str key. *)
Lemma add_date_dates id d result result' :
  str_keys result ->
  add_date (PStr id) d result = Val result' ->
  str_keys result'
  /\ forall a,
       dates_of a result'
       = if String.eqb a id
         then (if existsb (date_eqb d) (dates_of id result)
               then dates_of id result
               else dates_of id result ++ [d])
         else dates_of a result.
Proof.
  intros Hk. unfold add_date, default_getitem, dates_of. simpl hashable.
  cbv iota.
  destruct (dict_find (PStr id) result) as [dates|] eqn:Ef; cbn [res_bind].
  - destruct (existsb (date_eqb d) dates) eqn:Ex; cbn [negb];
      unfold dict_set; simpl hashable; cbv iota;
      intros H; inversion H; subst; clear H.
    + split; [assumption|]. intros a.
      destruct (String.eqb_spec a id) as [->|];
        [try rewrite Ef; reflexivity|reflexivity].
    + split; [now apply str_keys_store|]. intros a.
      rewrite dict_find_store by assumption.
      destruct (String.eqb_spec a id) as [->|];
        [try rewrite Ef; reflexivity|reflexivity].
  - simpl existsb. cbn [negb]. unfold dict_set; simpl hashable; cbv iota.
    intros H; inversion H; subst; clear H.
    rewrite dict_store_twice.
    split; [now apply str_keys_store|]. intros a.
    rewrite dict_find_store by assumption.
    destruct (String.eqb_spec a id) as [->|]; reflexivity.
Qed.

Lemma in_snoc_if (d x : pydate) dates :
  In x (if existsb (date_eqb d) dates then dates else dates ++ [d])
  <-> In x dates \/ x = d.
Proof.
  destruct (existsb (date_eqb d) dates) eqn:E.
  - split; [auto|]. intros [H| ->]; [exact H|].
    apply existsb_exists in E. destruct E as (y & Hy & Hd).
    apply date_eqb_eq in Hd. now subst.
  - rewrite in_app_iff. simpl. intuition.
Qed.

Lemma collection_fold_dates items :
  forall acc result,
    str_keys acc ->
    fold_res collection_entry items acc = Val result ->
    str_keys result
    /\ forall id d,
         In d (dates_of id result)
         <-> In d (dates_of id acc)
             \/ exists item, In item items
                             /\ reading item = Val (Some (PStr id, d)).
Proof.
  induction items as [|item items IH]; intros acc result Hk H; simpl in H.
  - inversion H; subst. split; [assumption|].
    intros id d. split; [auto|]. intros [H'|(i & [] & _)]; assumption.
  - destruct (collection_entry item acc) as [acc'|] eqn:E;
      cbn [res_bind] in H; [|discriminate].
    rewrite collection_entry_reading in E.
    destruct (reading item) as [[[k x]|]|] eqn:Er; cbn [res_bind] in E;
      [| |discriminate].
    + destruct (reading_is_str _ _ _ Er) as (kid & ->).
      destruct (add_date_dates _ _ _ _ Hk E) as (Hk' & Hd).
      destruct (IH _ _ Hk' H) as (Hkr & Hr).
      split; [assumption|]. intros id d. rewrite Hr, Hd.
      destruct (String.eqb_spec id kid) as [->|Hne].
      * rewrite in_snoc_if. split.
        -- intros [[Hin| ->]|(i & Hi & Hri)]; auto.
           ++ right. exists item. split; [now left|assumption].
           ++ right. exists i. split; [now right|assumption].
        -- intros [Hin|(i & [->|Hi] & Hri)]; auto.
           ++ rewrite Er in Hri. inversion Hri; subst. auto.
           ++ right. exists i. auto.
      * split.
        -- intros [Hin|(i & Hi & Hri)]; auto.
           right. exists i. split; [now right|assumption].
        -- intros [Hin|(i & [->|Hi] & Hri)]; auto.
           ++ rewrite Er in Hri. inversion Hri; subst. congruence.
           ++ right. exists i. auto.
    + inversion E; subst.
      destruct (IH _ _ Hk H) as (Hkr & Hr).
      split; [assumption|]. intros id d. rewrite Hr. split.
      * intros [Hin|(i & Hi & Hri)]; auto.
        right. exists i. split; [now right|assumption].
      * intros [Hin|(i & [->|Hi] & Hri)]; auto.
        -- rewrite Er in Hri. discriminate.
        -- right. exists i. auto.
Qed.

Local Abbreviation __get := (Api.__get remote).

(** [get_collections], when it returns: the response it got and the
    records it went through. *)
Lemma get_collections_response z s h f u n w result w' :
  get_collections z s h f u n w = (Return result, w') ->
  exists until_date response items,
    match u with
    | Some d => Some d
    | None => plus_weeks (match f with Some d => d | None => now end) 8
    end = Some until_date
    /\ __get (collections_action z s h
                (match f with Some d => d | None => now end) until_date n) w
       = (Return response, w')
    /\ records_of response = Val items
    /\ fold_res collection_entry items [] = Val result.
Proof.
  unfold Api.get_collections. intros H.
  apply bind_returns in H. destruct H as (until & w1 & Hu & H).
  apply bind_returns in H. destruct H as (response & w2 & Hg & H).
  apply lift_return in H. destruct H as [H ->].
  assert (Hu' : match u with
                | Some d => Some d
                | None =>
                    plus_weeks (match f with Some d => d | None => now end) 8
                end = Some until /\ w1 = w).
  { destruct u; [inversion Hu; auto|].
    destruct (plus_weeks _ 8); inversion Hu; auto. }
  destruct Hu' as [Hu' ->].
  destruct (subscript response "items") as [c|] eqn:Ec; [|discriminate].
  cbn [res_bind] in H.
  destruct (iterate c) as [items|] eqn:Ei; [|discriminate].
  cbn [res_bind] in H. exists until, response, items.
  split; [exact Hu'|]. split; [exact Hg|]. split; [|exact H].
  unfold records_of. rewrite Ec. exact Ei.
Qed.

(** X4: the calendar holds exactly the dates of the accepted records.
    When [get_collections] returns, a date is listed under a fraction id
    if and only if some record of the response reads as that date for
    that fraction (not replaced, recognised logo id, well-formed
    timestamp). *)
Theorem calendar_dates_are_readings (z s : string) (h : Z)
    (f u : option pydate) (n : Z) (w w' : world)
    (result : pydict (list pydate)) :
  get_collections z s h f u n w = (Return result, w') ->
  exists until_date response items,
    __get (collections_action z s h
             (match f with Some d => d | None => now end) until_date n) w
    = (Return response, w')
    /\ records_of response = Val items
    /\ forall id d,
         In d (dates_of id result)
         <-> exists item, In item items
                          /\ reading item = Val (Some (PStr id, d)).
Proof.
  intros H. apply get_collections_response in H.
  destruct H as (until & response & items & _ & Hg & Hi & Hf).
  exists until, response, items. split; [exact Hg|]. split; [exact Hi|].
  destruct (collection_fold_dates items [] result (Forall_nil _) Hf)
    as (_ & Hd).
  intros id d. rewrite Hd. split; [|auto].
  intros [[]|H]; exact H.
Qed.


(** ** Never an empty list, and the first date *)

Lemma add_date_present id d result result' :
  dates_present result ->
  add_date (PStr id) d result = Val result' ->
  dates_present result'.
Proof.
  intros Hp. unfold add_date, default_getitem. simpl hashable. cbv iota.
  destruct (dict_find (PStr id) result) as [dates|] eqn:Ef; cbn [res_bind].
  - destruct (existsb (date_eqb d) dates); cbn [negb];
      unfold dict_set; simpl hashable; cbv iota;
      intros H; inversion H; subst; clear H; [assumption|].
    apply dict_store_forall; [exact Hp| |]; simpl; intros;
      now destruct dates.
  - simpl existsb. cbn [negb]. unfold dict_set; simpl hashable; cbv iota.
    intros H; inversion H; subst; clear H.
    rewrite dict_store_twice.
    apply dict_store_forall; [exact Hp| |]; simpl; intros; discriminate.
Qed.

Lemma collection_entry_present item result result' :
  dates_present result ->
  collection_entry item result = Val result' ->
  dates_present result'.
Proof.
  intros Hp H. rewrite collection_entry_reading in H.
  destruct (reading item) as [[[k x]|]|] eqn:Er; cbn [res_bind] in H;
    [| |discriminate].
  - destruct (reading_is_str _ _ _ Er) as (kid & ->).
    eapply add_date_present; eassumption.
  - now inversion H; subst.
Qed.

Lemma get_collections_present z s h f u n w result w' :
  get_collections z s h f u n w = (Return result, w') ->
  dates_present result.
Proof.
  intros H. apply get_collections_fold in H. destruct H as (items & H).
  eapply (fold_res_invariant dates_present); [|constructor|exact H].
  intros a r r'. apply collection_entry_present.
Qed.

(** X5: [get_collections] never returns a fraction without a date: every
    list of its result has a first element, so a caller may take
    [dates[0]] of any key without an IndexError. *)
Theorem no_fraction_without_date (z s : string) (h : Z)
    (f u : option pydate) (n : Z) (w w' : world)
    (result : pydict (list pydate)) :
  get_collections z s h f u n w = (Return result, w') ->
  forall fraction_id dates,
    In (fraction_id, dates) result ->
    exists first, seq_index dates 0 = Val first.
Proof.
  intros H k dates Hin.
  apply get_collections_present in H.
  unfold dates_present in H. rewrite Forall_forall in H.
  specialize (H _ Hin). simpl in H.
  destruct dates as [|first rest]; [congruence|]. now exists first.
Qed.

Lemma fold_keeps_head items :
  forall acc result id d more,
    str_keys acc ->
    fold_res collection_entry items acc = Val result ->
    dates_of id acc = d :: more ->
    exists more', dates_of id result = d :: more'.
Proof.
  induction items as [|item items IH]; intros acc result id d more Hk H Hd;
    simpl in H.
  - inversion H; subst. eauto.
  - destruct (collection_entry item acc) as [acc'|] eqn:E;
      cbn [res_bind] in H; [|discriminate].
    rewrite collection_entry_reading in E.
    destruct (reading item) as [[[k x]|]|] eqn:Er; cbn [res_bind] in E;
      [| |discriminate].
    + destruct (reading_is_str _ _ _ Er) as (kid & ->).
      destruct (add_date_dates _ _ _ _ Hk E) as (Hk' & Hs).
      specialize (Hs id).
      destruct (String.eqb_spec id kid) as [->|Hne].
      * rewrite Hd in Hs.
        destruct (existsb (date_eqb x) (d :: more));
          eapply (IH _ _ _ _ _ Hk' H); exact Hs.
      * rewrite Hd in Hs. eapply (IH _ _ _ _ _ Hk' H); exact Hs.
    + inversion E; subst. eapply (IH _ _ _ _ _ Hk H); exact Hd.
Qed.

Lemma dates_of_none (id : string) (acc : pydict (list pydate)) :
  (forall d, ~ In d (dates_of id acc)) -> dates_of id acc = [].
Proof.
  destruct (dates_of id acc) as [|d l]; [reflexivity|].
  intros H. exfalso. apply (H d). now left.
Qed.

Lemma fold_first_reading before item rest result id d :
  fold_res collection_entry (before ++ item :: rest) [] = Val result ->
  reading item = Val (Some (PStr id, d)) ->
  (forall i x, In i before -> reading i <> Val (Some (PStr id, x))) ->
  exists more, dates_of id result = d :: more.
Proof.
  intros H Hr Hb.
  assert (Hsplit : exists acc,
             fold_res collection_entry before [] = Val acc
             /\ fold_res collection_entry (item :: rest) acc = Val result).
  { clear Hr Hb. revert H. generalize (@nil (pyval * list pydate)).
    induction before as [|b before IH]; intros acc H; simpl in H |- *.
    - exists acc. auto.
    - destruct (collection_entry b acc) as [acc'|];
        cbn [res_bind] in H |- *; [|discriminate]. now apply IH. }
  destruct Hsplit as (acc & Hbefore & Hrest).
  destruct (collection_fold_dates before [] acc (Forall_nil _) Hbefore)
    as (Hk & Hd).
  assert (Hnone : dates_of id acc = []).
  { apply dates_of_none. intros x Hx. apply Hd in Hx.
    destruct Hx as [[]|(i & Hi & Hri)]. exact (Hb _ _ Hi Hri). }
  simpl in Hrest.
  destruct (collection_entry item acc) as [acc'|] eqn:E;
    cbn [res_bind] in Hrest; [|discriminate].
  rewrite collection_entry_reading, Hr in E. cbn [res_bind] in E.
  destruct (add_date_dates _ _ _ _ Hk E) as (Hk' & Hs).
  specialize (Hs id). rewrite String.eqb_refl, Hnone in Hs. simpl in Hs.
  eapply fold_keeps_head; eassumption.
Qed.

(** X6: the calendar keeps the order of the records.  When
    [get_collections] returns, the first date under a fraction id is the
    date of the first record of the response that reads for that
    fraction; the client does not sort. *)
Theorem first_date_is_first_reading (z s : string) (h : Z)
    (f u : option pydate) (n : Z) (w w' : world)
    (result : pydict (list pydate)) :
  get_collections z s h f u n w = (Return result, w') ->
  exists until_date response items,
    __get (collections_action z s h
             (match f with Some d => d | None => now end) until_date n) w
    = (Return response, w')
    /\ records_of response = Val items
    /\ forall before item rest id d,
         items = before ++ item :: rest ->
         reading item = Val (Some (PStr id, d)) ->
         (forall i x, In i before -> reading i <> Val (Some (PStr id, x))) ->
         exists more, dict_find (PStr id) result = Some (d :: more).
Proof.
  intros H. apply get_collections_response in H.
  destruct H as (until & response & items & _ & Hg & Hi & Hf).
  exists until, response, items. split; [exact Hg|]. split; [exact Hi|].
  intros before item rest id d -> Hr Hb.
  destruct (fold_first_reading _ _ _ _ _ _ Hf Hr Hb) as (more & Hm).
  exists more. unfold dates_of in Hm.
  destruct (dict_find (PStr id) result); [now subst|discriminate].
Qed.

End Calendar.

Section Pagination.

Context {rt : Runtime}.
Variable remote : server.

Local Abbreviation __get := (Api.__get remote).
Local Abbreviation attempts := (Api.attempts remote).
Local Abbreviation __load_all := (Api.__load_all remote).
Local Abbreviation load_loop := (Api.load_loop remote).
Local Abbreviation starts := (Contract.starts remote).
Local Abbreviation serves := (Contract.serves remote).

(** What a request primitive returns is [None] or a body the remote side
    sent. *)
Lemma attempts_returns n m action data w v w' :
  attempts n m action data w = (Return v, w') ->
  v = PNone
  \/ exists hist rq status,
       remote hist rq = Answered (mkresp status (Some v)).
Proof.
  revert w. induction n as [|n IH]; intros w; simpl.
  - intros H; inversion H; auto.
  - unfold bind at 1, read_endpoint.
    destruct (__endpoint (self w)); [|discriminate].
    unfold bind at 1, session_request.
    destruct (remote (sent w) _) as [[status b]|] eqn:Er; [|discriminate].
    unfold response_json, ret, raise. cbn [status_code body].
    destruct (status =? 200).
    + destruct b as [x|]; [|discriminate].
      intros H; inversion H; subst. right. eauto.
    + apply IH.
Qed.

Lemma get_returns action w v w' :
  __get action w = (Return v, w') ->
  v = PNone
  \/ exists hist rq status,
       remote hist rq = Answered (mkresp status (Some v)).
Proof.
  unfold Api.__get. intros H. apply bind_returns in H.
  destruct H as (u & w1 & _ & H). eapply attempts_returns; exact H.
Qed.

Lemma attempts_ends n m action data w :
  fst (attempts n m action data w) <> OutOfFuel.
Proof.
  revert w. induction n as [|n IH]; intros w; simpl; [discriminate|].
  unfold bind at 1, read_endpoint.
  destruct (__endpoint (self w)); [|discriminate].
  unfold bind at 1, session_request.
  destruct (remote (sent w) _) as [r|]; [|discriminate].
  destruct (status_code r =? 200); [|apply IH].
  unfold response_json, ret, raise. destruct (body r); cbv beta;
    discriminate.
Qed.

Lemma get_ends action w : fst (__get action w) <> OutOfFuel.
Proof.
  unfold Api.__get, bind.
  destruct (Api.__ensure_initialization remote w) as [[u|e|] w1] eqn:E.
  - apply attempts_ends.
  - discriminate.
  - exfalso. revert E. unfold Api.__ensure_initialization.
    destruct (__session (self w)); [discriminate|].
    unfold bind, session_request, response_json, lift, ret, raise; simpl.
    destruct (remote _ _) as [r|]; [|discriminate].
    destruct (body r); [|discriminate]; simpl.
    destruct (subscript _ _); discriminate.
Qed.

Lemma load_loop_ends (bound : nat) action size :
  declares_at_most remote (Z.of_nat bound) ->
  forall fuel items page w,
    (1 <= fuel)%nat ->
    Z.of_nat bound < Z.of_nat fuel + page ->
    fst (load_loop fuel action size items page w) <> OutOfFuel.
Proof.
  intros Hb. induction fuel as [|fuel IH]; intros items page w Hf Hp; [lia|].
  rewrite load_loop_S. unfold bind at 1.
  destruct (__get (page_action action page size) w) as [[v|e|] w1] eqn:Eg;
    [|discriminate|].
  2:{ exfalso. apply (get_ends (page_action action page size) w).
      now rewrite Eg. }
  unfold bind at 1.
  destruct (page_unusable v) as [[|]|] eqn:Eu; simpl lift;
    [discriminate| |discriminate].
  unfold ret at 1. cbv iota. unfold bind at 1.
  destruct (x <~ subscript v "items" ;; iterate x) as [more|];
    simpl lift; [|discriminate].
  unfold ret at 1. unfold bind at 1.
  destruct (subscript v "pages") as [pages|] eqn:Ep; cbn [res_bind];
    [|discriminate].
  destruct (int_gt (page + 1) pages) as [[|]|] eqn:Ei; simpl lift;
    [discriminate| |discriminate].
  unfold ret at 1. cbv iota.
  destruct (get_returns _ _ _ _ Eg) as [->|(hist & rq & status & Hr)];
    [discriminate Eu|].
  assert (Hle : page + 1 <= Z.of_nat bound).
  { destruct (Z_lt_le_dec (Z.of_nat bound) (page + 1)) as [Hlt|]; [|lia].
    exfalso. exact (Hb _ _ _ _ _ Hr Ep _ Hlt Ei). }
  apply IH; lia.
Qed.

(** X7: the loader stops when the declared page counts are bounded.  If
    no answer of the remote side ever declares more than [bound] pages,
    then with fuel for [max 1 bound] iterations [__load_all] returns or
    raises, whatever else the remote side does (failures, malformed
    pages, a count that changes from page to page). *)
Theorem load_all_terminates (bound fuel : nat) (action : string) (size : Z)
    (w : world) :
  declares_at_most remote (Z.of_nat bound) ->
  (1 <= fuel)%nat -> (bound <= fuel)%nat ->
  fst (__load_all fuel action size w) <> OutOfFuel.
Proof.
  intros Hb H1 Hf. unfold Api.__load_all.
  apply (load_loop_ends bound); [assumption|assumption|lia].
Qed.

Lemma load_loop_goes_on fuel action size acc page wk w0 ep v records pages :
  starts wk w0 ep ->
  remote (sent w0) (page_request ep action size page)
  = Answered (mkresp 200 (Some v)) ->
  page_unusable v = Val false ->
  records_of v = Val records ->
  subscript v "pages" = Val pages ->
  int_gt (page + 1) pages = Val false ->
  load_loop (S fuel) action size acc page wk
  = load_loop fuel action size (acc ++ records) (page + 1)
      (after [page_request ep action size page] w0).
Proof.
  intros Hs Hr Hu Hrec Hp Hi. rewrite load_loop_S.
  rewrite (bind_return _ _ _ _ _ (get_first_ok _ _ _ _ _ _ Hs Hr)).
  rewrite (bind_lift _ _ _ _ Hu).
  unfold records_of in Hrec. rewrite (bind_lift _ _ _ _ Hrec).
  rewrite (bind_lift _ false) by (rewrite Hp; exact Hi).
  reflexivity.
Qed.

Lemma load_loop_runs_out action size ep :
  keeps_declaring remote ep action size ->
  forall fuel acc page wk w0,
    starts wk w0 ep -> 1 <= page ->
    fst (load_loop fuel action size acc page wk) = OutOfFuel.
Proof.
  intros Hk. induction fuel as [|fuel IH]; intros acc page wk w0 Hs Hp;
    [reflexivity|].
  destruct (Hk (sent w0) page Hp) as (v & records & pages & Hr & Hu & Hrec
                                      & Hpg & Hi).
  rewrite (load_loop_goes_on _ _ _ _ _ _ _ _ _ _ _ Hs Hr Hu Hrec Hpg Hi).
  apply (IH _ _ _ (after [page_request ep action size page] w0)); [|lia].
  rewrite <- (after_nil w0) in Hs.
  exact (starts_again remote wk w0 ep [] _ Hs).
Qed.

(** X8: termination of the loader rests on the remote side.  If every
    page asked for is served and declares at least one page more than
    its own number, [__load_all] never comes to an end: no amount of
    fuel lets it return. *)
Theorem load_all_can_run_for_ever (action : string) (size : Z)
    (w w0 : world) (ep : string) :
  starts w w0 ep ->
  keeps_declaring remote ep action size ->
  forall fuel, fst (__load_all fuel action size w) = OutOfFuel.
Proof.
  intros Hs Hk fuel. unfold Api.__load_all.
  eapply load_loop_runs_out; [exact Hk|exact Hs|lia].
Qed.

(** X9: a remote side that declares no page at all (or one) is still
    asked for page 1, once, and that answer's items are returned. *)
Theorem load_all_single_page (action : string) (size total : Z)
    (items : list pyval) (v : pyval) (w w0 : world) (ep : string)
    (fuel : nat) :
  starts w w0 ep ->
  remote (sent w0) (page_request ep action size 1)
  = Answered (mkresp 200 (Some v)) ->
  envelope items total v ->
  total <= 1 ->
  __load_all (S fuel) action size w
  = (Return items, after [page_request ep action size 1] w0).
Proof.
  intros Hs Hr He Ht. unfold Api.__load_all.
  rewrite <- (after_nil w0) in Hs.
  pose proof (load_loop_step remote fuel action size [] 0 w w0 ep items total
                v Hs Hr He) as Hstep.
  change (Z.of_nat 1) with 1 in Hstep. change (Z.of_nat 2) with 2 in Hstep.
  rewrite Hstep.
  replace (2 >? total) with true by (symmetry; apply Z.gtb_lt; lia).
  reflexivity.
Qed.

End Pagination.

Section Catalogue.

Context {rt : Runtime}.
Variable remote : server.
Variable now : pydate.
Variable COLLECTION_TYPES : list string.
Variable hash_lookup : bool.

Local Abbreviation fraction_entry :=
  (Api.fraction_entry COLLECTION_TYPES hash_lookup).
Local Abbreviation get_fractions :=
  (Api.get_fractions remote now COLLECTION_TYPES hash_lookup).
Local Abbreviation catalogue_reading :=
  (Records.catalogue_reading COLLECTION_TYPES hash_lookup).
Local Abbreviation __load_all := (Api.__load_all remote).
Local Abbreviation __get := (Api.__get remote).

Lemma fraction_entry_reading language f result :
  fraction_entry language f result
  = (r <~ catalogue_reading language f ;;
     match r with
     | None => Val result
     | Some (key, v) => dict_set key v result
     end).
Proof.
  unfold Api.fraction_entry, Records.catalogue_reading.
  repeat head_step.
Qed.

Lemma catalogue_reading_is_str language f k v :
  catalogue_reading language f = Val (Some (k, v)) -> exists id, k = PStr id.
Proof.
  unfold Records.catalogue_reading. intros H.
  repeat unpack H; try discriminate.
  match goal with
  | Hin : Api.in_collection_types _ _ _ = Val ?b, Hneg : negb ?b = false
    |- _ => apply negb_false_iff in Hneg; subst b;
            apply (recognised_is_str COLLECTION_TYPES hash_lookup) in Hin;
            exact Hin
  end.
Qed.

(** One turn of the comprehension, seen from a str key. *)
Lemma fraction_entry_find language f acc acc' :
  str_keys acc ->
  fraction_entry language f acc = Val acc' ->
  str_keys acc'
  /\ forall id,
       dict_find (PStr id) acc'
       = match catalogue_reading language f with
         | Val (Some (PStr k, v)) =>
             if String.eqb id k then Some v else dict_find (PStr id) acc
         | _ => dict_find (PStr id) acc
         end.
Proof.
  intros Hk H. rewrite fraction_entry_reading in H.
  destruct (catalogue_reading language f) as [[[k v]|]|] eqn:Er;
    cbn [res_bind] in H; [| |discriminate].
  - destruct (catalogue_reading_is_str _ _ _ _ Er) as (kid & ->).
    unfold dict_set in H. simpl hashable in H. cbv iota in H.
    inversion H; subst. split; [now apply str_keys_store|].
    intros id. now apply dict_find_store.
  - inversion H; subst. auto.
Qed.

Lemma catalogue_fold_unchanged language items :
  forall acc result id,
    str_keys acc ->
    fold_res (fraction_entry language) items acc = Val result ->
    (forall g x, In g items ->
                 catalogue_reading language g <> Val (Some (PStr id, x))) ->
    str_keys result /\ dict_find (PStr id) result = dict_find (PStr id) acc.
Proof.
  induction items as [|f items IH]; intros acc result id Hk H Hn;
    simpl in H.
  - inversion H; subst. auto.
  - destruct (fraction_entry language f acc) as [acc'|] eqn:E;
      cbn [res_bind] in H; [|discriminate].
    destruct (fraction_entry_find _ _ _ _ Hk E) as (Hk' & Hf).
    destruct (IH acc' result id Hk' H) as (Hkr & Hr).
    { intros g x Hg. apply Hn. now right. }
    split; [assumption|]. rewrite Hr, Hf.
    destruct (catalogue_reading language f) as [[[[] v]|]|] eqn:Er;
      try reflexivity.
    destruct (String.eqb_spec id s) as [->|]; [|reflexivity].
    exfalso. apply (Hn f v); [now left|exact Er].
Qed.

Lemma catalogue_fold_split language before :
  forall f rest acc result,
    fold_res (fraction_entry language) (before ++ f :: rest) acc = Val result ->
    exists acc1 acc2,
      fold_res (fraction_entry language) before acc = Val acc1
      /\ fraction_entry language f acc1 = Val acc2
      /\ fold_res (fraction_entry language) rest acc2 = Val result.
Proof.
  induction before as [|b before IH]; intros f rest acc result H;
    simpl in H |- *.
  - destruct (fraction_entry language f acc) as [acc2|] eqn:E;
      cbn [res_bind] in H; [|discriminate].
    exists acc, acc2. auto.
  - destruct (fraction_entry language b acc) as [acc'|];
      cbn [res_bind] in H |- *; [|discriminate]. now apply IH.
Qed.

Lemma str_keys_fold language items :
  forall acc result,
    str_keys acc ->
    fold_res (fraction_entry language) items acc = Val result ->
    str_keys result.
Proof.
  intros acc result Hk H.
  eapply (fold_res_invariant (@str_keys (pyval * pyval))); [|exact Hk|exact H].
  intros a s s' Hs E. now destruct (fraction_entry_find _ _ _ _ Hs E).
Qed.

Lemma catalogue_fold_origin language items :
  forall acc result id v,
    str_keys acc ->
    fold_res (fraction_entry language) items acc = Val result ->
    dict_find (PStr id) result = Some v ->
    dict_find (PStr id) acc = Some v
    \/ exists f, In f items
                 /\ catalogue_reading language f = Val (Some (PStr id, v)).
Proof.
  induction items as [|f items IH]; intros acc result id v Hk H Hv;
    simpl in H.
  - inversion H; subst. auto.
  - destruct (fraction_entry language f acc) as [acc'|] eqn:E;
      cbn [res_bind] in H; [|discriminate].
    destruct (fraction_entry_find _ _ _ _ Hk E) as (Hk' & Hf).
    destruct (IH acc' result id v Hk' H Hv) as [Ha|(g & Hg & Hr)].
    + rewrite Hf in Ha.
      destruct (catalogue_reading language f) as [[[[] x]|]|] eqn:Er; auto.
      destruct (String.eqb_spec id s) as [->|]; auto.
      inversion Ha; subst. right. exists f. split; [now left|exact Er].
    + right. exists g. split; [now right|exact Hr].
Qed.

(** X10: the catalogue of [get_fractions] is keyed by what the loaded
    records read as.  A logo id is a key exactly when some record reads
    for it, and the (color, name) stored under it is that of the last
    such record, which overrides the earlier ones. *)
Theorem catalogue_is_last_reading (fuel : nat) (z s : string) (h : Z)
    (language : string) (n : Z) (w w' : world)
    (result : pydict (pyval * pyval)) :
  get_fractions fuel z s h language n w = (Return result, w') ->
  exists items,
    __load_all fuel (fractions_action now z s h) n w = (Return items, w')
    /\ (forall id v,
          dict_find (PStr id) result = Some v ->
          exists f, In f items
                    /\ catalogue_reading language f = Val (Some (PStr id, v)))
    /\ (forall before f rest id v,
          items = before ++ f :: rest ->
          catalogue_reading language f = Val (Some (PStr id, v)) ->
          (forall g x, In g rest ->
                       catalogue_reading language g
                       <> Val (Some (PStr id, x))) ->
          dict_find (PStr id) result = Some v).
Proof.
  unfold Api.get_fractions. fold (fractions_action now z s h). intros H.
  apply bind_returns in H. destruct H as (items & w1 & Hl & H).
  apply lift_return in H. destruct H as [H ->].
  exists items. split; [exact Hl|]. split.
  - intros id v Hv.
    destruct (catalogue_fold_origin _ _ _ _ _ _ (Forall_nil _) H Hv)
      as [Hn|Hex]; [discriminate|exact Hex].
  - intros before f rest id v -> Hr Hn.
    destruct (catalogue_fold_split _ _ _ _ _ _ H)
      as (acc1 & acc2 & H1 & H2 & H3).
    assert (Hk1 : str_keys acc1)
      by (eapply str_keys_fold; [apply Forall_nil|exact H1]).
    destruct (fraction_entry_find _ _ _ _ Hk1 H2) as (Hk2 & Hf).
    destruct (catalogue_fold_unchanged _ _ _ _ id Hk2 H3 Hn) as (_ & Hu).
    rewrite Hu, Hf, Hr. now rewrite String.eqb_refl.
Qed.

End Catalogue.

Section Parks.

Context {rt : Runtime}.
Variable remote : server.

Local Abbreviation get_recycling_parks := (Api.get_recycling_parks remote).
Local Abbreviation __get := (Api.__get remote).

Lemma key_eqb_str_compat a k k' :
  key_eqb k k' = true -> key_eqb (PStr a) k = key_eqb (PStr a) k'.
Proof.
  destruct k, k';
    repeat match goal with f : spec_float |- _ => destruct f end;
    simpl; try discriminate; try reflexivity.
  intros H. apply String.eqb_eq in H. now subst.
Qed.

Lemma dict_find_store_any {V} (d : pydict V) a k v :
  dict_find (PStr a) (dict_store k v d)
  = if key_eqb (PStr a) k then Some v else dict_find (PStr a) d.
Proof.
  induction d as [|[k' v'] d IH]; cbn [dict_store dict_find].
  - reflexivity.
  - destruct (key_eqb k k') eqn:E; cbn [dict_find].
    + rewrite (key_eqb_str_compat a _ _ E).
      destruct (key_eqb (PStr a) k'); reflexivity.
    + rewrite IH.
      destruct (key_eqb (PStr a) k') eqn:E'; [|reflexivity].
      destruct k'; simpl in E'; try discriminate.
      destruct (key_eqb (PStr a) k) eqn:E''; [|reflexivity].
      destruct k; simpl in E''; try discriminate.
      apply String.eqb_eq in E', E''. subst.
      simpl in E. now rewrite String.eqb_refl in E.
Qed.

(** One turn of the loop of [get_recycling_parks], taken apart. *)
Lemma park_entry_stores language item acc acc' :
  park_entry language item acc = Val acc' ->
  exists id p c,
    get item "id" PNone = Val id
    /\ acc' = dict_store id p acc
    /\ coordinates_of item = Val c
    /\ (longitude p, latitude p)
       = match c with
         | PList [lon; lat] => (lon, lat)
         | _ => (PNone, PNone)
         end
    /\ path item ["displayName"; language] = Val (name p)
    /\ subscript item "exceptionDays" = Val (exceptions p)
    /\ subscript item "openingPeriods" = Val (periods p).
Proof.
  unfold park_entry, park_coordinates, coordinates_of. intros H.
  destruct (get item "location" (PDict [])) as [loc|]; [|discriminate].
  cbn [res_bind] in H |- *.
  destruct (get loc "coordinates" PNone) as [c|]; [|discriminate].
  cbn [res_bind] in H.
  assert (Hc : exists lon lat,
             (if truthy c
              then match c with
                   | PList [lon; lat] => Val (lon, lat)
                   | _ => Val (PNone, PNone)
                   end
              else Val (PNone, PNone)) = Val (lon, lat)
             /\ (lon, lat) = match c with
                             | PList [lon; lat] => (lon, lat)
                             | _ => (PNone, PNone)
                             end).
  { destruct (truthy c) eqn:Et;
      destruct c as [| | | | |[|x [|y [|? ?]]]|]; try discriminate Et;
      do 2 eexists; split; reflexivity. }
  destruct Hc as (lon & lat & Hc & Hm). rewrite Hc in H.
  cbn [res_bind] in H.
  repeat unpack H.
  unfold dict_set in H.
  match type of H with
  | context [hashable ?key] => destruct (hashable key); [|discriminate]
  end.
  inversion H; subst. do 3 eexists.
  split; [reflexivity|]. split; [reflexivity|]. split; [reflexivity|].
  split; [exact Hm|]. simpl. auto.
Qed.

Lemma parks_fold_unchanged language items :
  forall acc result k,
    fold_res (park_entry language) items acc = Val result ->
    (forall i, In i items -> get i "id" PNone <> Val (PStr k)) ->
    dict_find (PStr k) result = dict_find (PStr k) acc.
Proof.
  induction items as [|item items IH]; intros acc result k H Hn; simpl in H.
  - now inversion H.
  - destruct (park_entry language item acc) as [acc'|] eqn:E;
      cbn [res_bind] in H; [|discriminate].
    rewrite (IH acc' result k H) by (intros i Hi; apply Hn; now right).
    destruct (park_entry_stores _ _ _ _ E) as (id & p & c & Hid & -> & _).
    rewrite dict_find_store_any.
    destruct (key_eqb (PStr k) id) eqn:Ek; [|reflexivity].
    destruct id; simpl in Ek; try discriminate.
    apply String.eqb_eq in Ek. subst.
    exfalso. apply (Hn item); [now left|exact Hid].
Qed.

Lemma parks_fold_split language before :
  forall item rest acc result,
    fold_res (park_entry language) (before ++ item :: rest) acc = Val result ->
    exists acc1 acc2,
      park_entry language item acc1 = Val acc2
      /\ fold_res (park_entry language) rest acc2 = Val result.
Proof.
  induction before as [|b before IH]; intros item rest acc result H;
    simpl in H.
  - destruct (park_entry language item acc) as [acc2|] eqn:E;
      cbn [res_bind] in H; [|discriminate].
    exists acc, acc2. auto.
  - destruct (park_entry language b acc) as [acc'|];
      cbn [res_bind] in H; [|discriminate]. now apply (IH _ _ acc').
Qed.


End Parks.

(* ================================================================== *)
(** * Properties of the sensors and of the calendar                   *)
(* ================================================================== *)

Import Lib.

Section Order.

Lemma date_ltb_spec a b :
  date_ltb a b = true
  <-> year a < year b
      \/ (year a = year b
          /\ (month a < month b
              \/ (month a = month b /\ day a < day b))).
Proof.
  unfold date_ltb.
  rewrite !orb_true_iff, !andb_true_iff, !orb_true_iff, !andb_true_iff,
    !Z.ltb_lt, !Z.eqb_eq. tauto.
Qed.

Lemma date_leb_spec a b :
  date_leb a b = true
  <-> year a < year b
      \/ (year a = year b
          /\ (month a < month b
              \/ (month a = month b /\ day a <= day b))).
Proof.
  unfold date_leb. rewrite negb_true_iff, <- not_true_iff_false,
    date_ltb_spec. lia.
Qed.

Lemma date_leb_refl a : date_leb a a = true.
Proof. apply date_leb_spec. lia. Qed.

Lemma date_leb_trans a b c :
  date_leb a b = true -> date_leb b c = true -> date_leb a c = true.
Proof. rewrite !date_leb_spec. lia. Qed.

Lemma date_leb_total a b : date_leb a b = false -> date_leb b a = true.
Proof.
  rewrite <- not_true_iff_false. rewrite !date_leb_spec. lia.
Qed.

Lemma date_ltb_leb a b : date_ltb a b = true -> date_leb a b = true.
Proof. rewrite date_ltb_spec, date_leb_spec. lia. Qed.

Lemma date_ltb_leb_trans a b c :
  date_ltb a b = true -> date_leb b c = true -> date_ltb a c = true.
Proof. rewrite !date_ltb_spec, date_leb_spec. lia. Qed.

Lemma date_between a b :
  date_ltb a b = false -> date_ltb b a = false -> a = b.
Proof.
  rewrite <- !not_true_iff_false, !date_ltb_spec.
  destruct a, b; simpl. intros H1 H2. f_equal; lia.
Qed.

Lemma date_ltb_irrefl a : date_ltb a a = false.
Proof. apply not_true_iff_false. rewrite date_ltb_spec. lia. Qed.

Context {A : Type}.
Variable key : A -> pydate.

Local Abbreviation key_le := (Lib.key_le key).

Lemma in_insert_sorted x y l :
  In y (insert_sorted key x l) <-> y = x \/ In y l.
Proof.
  induction l as [|z l IH]; simpl.
  - intuition.
  - destruct (date_leb (key x) (key z)); simpl; [intuition|].
    rewrite IH. intuition.
Qed.

Lemma in_sorted y l : In y (sorted key l) <-> In y l.
Proof.
  induction l as [|x l IH]; simpl; [tauto|].
  rewrite in_insert_sorted, IH. intuition.
Qed.

Lemma insert_sorted_ordered x l :
  StronglySorted key_le l -> StronglySorted key_le (insert_sorted key x l).
Proof.
  induction 1 as [|z l Hs IH Hz]; simpl.
  - repeat constructor.
  - destruct (date_leb (key x) (key z)) eqn:E.
    + constructor; [now constructor|].
      constructor; [exact E|].
      rewrite Forall_forall in Hz |- *. intros y Hy.
      unfold key_le in *. eapply date_leb_trans; [exact E|now apply Hz].
    + constructor; [exact IH|].
      rewrite Forall_forall in Hz |- *. intros y Hy.
      apply in_insert_sorted in Hy. destruct Hy as [->|Hy].
      * now apply date_leb_total.
      * now apply Hz.
Qed.

Lemma sorted_ordered l : StronglySorted key_le (sorted key l).
Proof.
  induction l as [|x l IH]; simpl; [constructor|].
  now apply insert_sorted_ordered.
Qed.

Lemma sorted_head_least l first rest :
  sorted key l = first :: rest ->
  In first l /\ forall y, In y l -> date_leb (key first) (key y) = true.
Proof.
  intros H. split.
  - apply in_sorted. rewrite H. now left.
  - intros y Hy. apply in_sorted in Hy. rewrite H in Hy.
    pose proof (sorted_ordered l) as Hs. rewrite H in Hs.
    inversion Hs as [|? ? _ Hall]; subst.
    destruct Hy as [->|Hy]; [apply date_leb_refl|].
    rewrite Forall_forall in Hall. now apply Hall.
Qed.

Lemma sorted_nil l : sorted key l = [] -> l = [].
Proof.
  destruct l as [|x l]; [reflexivity|]. intros H.
  assert (Hin : In x (sorted key (x :: l))) by (apply in_sorted; now left).
  rewrite H in Hin. destruct Hin.
Qed.

End Order.

Section Sensors.

Import Sensor.

Variable today : pydate.

Lemma future_dates_in calendar d :
  In d (future_dates today calendar)
  <-> date_ltb today d = true
      /\ exists k dates, In (k, dates) calendar /\ In d dates.
Proof.
  unfold future_dates. rewrite in_flat_map. split.
  - intros ([k dates] & Hin & Hd). apply filter_In in Hd. simpl in Hd.
    destruct Hd. eauto.
  - intros (Hlt & k & dates & Hin & Hd). exists (k, dates).
    split; [exact Hin|]. apply filter_In. auto.
Qed.

Lemma upcoming_some calendar d :
  get_upcoming_date (Some calendar) today = Some d ->
  date_ltb today d = true
  /\ (exists k dates, In (k, dates) calendar /\ In d dates)
  /\ forall k dates d',
       In (k, dates) calendar -> In d' dates ->
       date_ltb today d' = true -> date_leb d d' = true.
Proof.
  unfold get_upcoming_date.
  intros H. destruct calendar as [|b c]; [discriminate|].
  destruct (sorted (fun x => x) (future_dates today (b :: c)))
    as [|first rest] eqn:E; [discriminate|].
  inversion H; subst. apply sorted_head_least in E.
  destruct E as (Hin & Hle). apply future_dates_in in Hin.
  destruct Hin as (Hlt & Hex). split; [exact Hlt|]. split; [exact Hex|].
  intros k dates d' Hk Hd Hlt'. apply Hle. apply future_dates_in. eauto.
Qed.

Lemma upcoming_none calendar :
  get_upcoming_date (Some calendar) today = None
  <-> forall k dates d',
        In (k, dates) calendar -> In d' dates -> date_ltb today d' = false.
Proof.
  unfold get_upcoming_date. destruct calendar as [|b c].
  - split; [intros _ k dates d' []|reflexivity].
  - destruct (sorted (fun x => x) (future_dates today (b :: c)))
      as [|first rest] eqn:E.
    + apply sorted_nil in E. split; [|reflexivity].
      intros _ k dates d' Hk Hd.
      destruct (date_ltb today d') eqn:Hlt; [|reflexivity].
      assert (Hin : In d' (future_dates today (b :: c)))
        by (apply future_dates_in; eauto).
      rewrite E in Hin. destruct Hin.
    + split; [discriminate|]. intros Hnone. exfalso.
      apply sorted_head_least in E. destruct E as (Hin & _).
      apply future_dates_in in Hin.
      destruct Hin as (Hlt & k & dates & Hk & Hd).
      rewrite (Hnone _ _ _ Hk Hd) in Hlt. discriminate.
Qed.

(** X12: the upcoming date is the least date after today.  When
    [get_upcoming_date] gives a date, that date is listed for some
    fraction, lies strictly after today, and no listed date after today
    is earlier; it gives None exactly when no listed date lies after
    today. *)
Theorem upcoming_is_least (calendar : pydict (list pydate)) :
  (forall d,
      get_upcoming_date (Some calendar) today = Some d ->
      date_ltb today d = true
      /\ (exists k dates, In (k, dates) calendar /\ In d dates)
      /\ forall k dates d',
           In (k, dates) calendar -> In d' dates ->
           date_ltb today d' = true -> date_leb d d' = true)
  /\ (get_upcoming_date (Some calendar) today = None
      <-> forall k dates d',
            In (k, dates) calendar -> In d' dates ->
            date_ltb today d' = false).
Proof. split; [apply upcoming_some|apply upcoming_none]. Qed.

Lemma any_upcoming (values : list (list pydate)) :
  any_res (fun dates =>
             match dates with
             | [] => Val false
             | _ => Val (existsb (date_ltb today) dates)
             end) values
  = Val (existsb (existsb (date_ltb today)) values).
Proof.
  induction values as [|dates values IH]; [reflexivity|].
  simpl. destruct dates as [|d dates]; simpl; [exact IH|].
  destruct (date_ltb today d || existsb (date_ltb today) dates);
    [reflexivity|exact IH].
Qed.

(** X13: the upcoming sensor is available exactly when it has a date to
    show: with coordinator data, [available] is true if and only if
    [get_upcoming_date] is not None. *)
Theorem upcoming_available_iff_date (calendar : pydict (list pydate)) :
  date_available (Some calendar) today "collection_upcoming"
  = Val (match get_upcoming_date (Some calendar) today with
         | Some _ => true
         | None => false
         end).
Proof.
  unfold date_available, data_values. simpl String.eqb. cbv iota.
  cbn [res_bind]. rewrite any_upcoming. f_equal.
  pose proof (upcoming_none calendar) as Hnone.
  destruct (get_upcoming_date (Some calendar) today) as [d|] eqn:E.
  - apply not_false_iff_true. intros Hf.
    assert (Hall : forall k dates d',
               In (k, dates) calendar -> In d' dates ->
               date_ltb today d' = false).
    { intros k dates d' Hk Hd.
      destruct (date_ltb today d') eqn:Hlt; [|reflexivity].
      assert (existsb (existsb (date_ltb today)) (List.map snd calendar)
              = true); [|congruence].
      apply existsb_exists. exists dates. split.
      - apply in_map_iff. now exists (k, dates).
      - apply existsb_exists. now exists d'. }
    apply Hnone in Hall. discriminate.
  - apply not_true_iff_false. intros Ht.
    apply existsb_exists in Ht. destruct Ht as (dates & Hin & Ht).
    apply existsb_exists in Ht. destruct Ht as (d' & Hd & Hlt).
    apply in_map_iff in Hin. destruct Hin as ([k dates'] & <- & Hk).
    simpl in Hd.
    rewrite (proj1 Hnone eq_refl _ _ _ Hk Hd) in Hlt. discriminate.
Qed.

(** X14: without coordinator data the date sensors fail instead of
    being unavailable.  [available] ends in AttributeError for the
    today, tomorrow and upcoming sensors alike.  [state] of the upcoming
    sensor is None, and a fraction sensor answers (None, unavailable).
    [state] of the today sensor ends in TypeError when at least one
    fraction is configured and is the empty string, with an empty
    "fractions" attribute, when none is; so does [state] of the tomorrow
    sensor, unless today has no next day, in which case it ends in
    OverflowError. *)
Theorem date_sensors_without_data
    (fractions : list (string * (string * string)))
    (format_date : pydate -> string) :
  date_available None today "collection_today" = Err AttributeError
  /\ date_available None today "collection_tomorrow" = Err AttributeError
  /\ date_available None today "collection_upcoming" = Err AttributeError
  /\ date_state None today fractions format_date "collection_upcoming"
     = Val None
  /\ (forall fraction,
        native_value None fraction = Val None
        /\ available None fraction = false)
  /\ date_state None today fractions format_date "collection_today"
     = match fractions with
       | [] => Val (Some (EmptyString, (format_date today, [])))
       | _ :: _ => Err TypeError
       end
  /\ date_state None today fractions format_date "collection_tomorrow"
     = match next_date today, fractions with
       | Err e, _ => Err e
       | Val tomorrow, [] =>
           Val (Some (EmptyString, (format_date tomorrow, [])))
       | Val _, _ :: _ => Err TypeError
       end.
Proof.
  do 5 (split; [try reflexivity|]); [split; reflexivity|]. split.
  - destruct fractions as [|[k [c nm]] rest]; reflexivity.
  - unfold date_state, date_native_value. cbn [String.eqb Ascii.eqb].
    change (String.eqb "collection_tomorrow" "collection_today")
      with false.
    change (String.eqb "collection_tomorrow" "collection_tomorrow")
      with true.
    cbn iota.
    destruct (next_date today) as [tomorrow|e]; cbn [res_bind];
      [|reflexivity].
    destruct fractions as [|[k [c nm]] rest]; reflexivity.
Qed.

End Sensors.

Section SensorOnCalendar.

Import Sensor.

Context {rt : Runtime}.
Variable remote : server.
Variable now : pydate.
Variable COLLECTION_TYPES : list string.
Variable hash_lookup : bool.

Local Abbreviation get_collections :=
  (Api.get_collections remote now COLLECTION_TYPES hash_lookup).
Local Abbreviation reading := (Records.reading COLLECTION_TYPES hash_lookup).
Local Abbreviation __get := (Api.__get remote).

Lemma dict_find_in {V} k (d : pydict V) v :
  dict_find k d = Some v -> exists k', In (k', v) d.
Proof.
  induction d as [|[k' v'] d IH]; simpl; [discriminate|].
  destruct (key_eqb k k').
  - intros H; inversion H; subst. exists k'. now left.
  - intros H. destruct (IH H) as (k'' & Hin). exists k''. now right.
Qed.

(** X15: the calendar of [get_collections] is safe to show.  On what it
    returns, a fraction sensor's [native_value] never fails, is a date
    exactly when the sensor is [available], and is the date of the first
    record of the response that reads for the fraction. *)
Theorem sensor_shows_first_reading (z s : string) (h : Z)
    (f u : option pydate) (n : Z) (w w' : world)
    (result : pydict (list pydate)) :
  get_collections z s h f u n w = (Return result, w') ->
  (forall fraction,
      exists v,
        native_value (Some result) fraction = Val v
        /\ (available (Some result) fraction = true <-> v <> None))
  /\ exists until_date response items,
       __get (collections_action z s h
                (match f with Some d => d | None => now end) until_date n) w
       = (Return response, w')
       /\ records_of response = Val items
       /\ forall before item rest id d,
            items = before ++ item :: rest ->
            reading item = Val (Some (PStr id, d)) ->
            (forall i x, In i before ->
                         reading i <> Val (Some (PStr id, x))) ->
            native_value (Some result) id = Val (Some d).
Proof.
  intros H. split.
  - intros fraction. unfold native_value, available.
    destruct (dict_find (PStr fraction) result) as [dates|] eqn:E.
    + destruct (dict_find_in _ _ _ E) as (k & Hin).
      pose proof (get_collections_present remote now COLLECTION_TYPES
                    hash_lookup z s h f u n w result w' H) as Hp.
      unfold dates_present in Hp. rewrite Forall_forall in Hp.
      specialize (Hp _ Hin). simpl in Hp.
      destruct dates as [|first rest]; [congruence|].
      exists (Some first). split; [reflexivity|].
      split; [discriminate|reflexivity].
    + exists None. split; [reflexivity|]. split; [discriminate|congruence].
  - apply get_collections_response in H.
    destruct H as (until & response & items & _ & Hg & Hi & Hf).
    exists until, response, items. split; [exact Hg|]. split; [exact Hi|].
    intros before item rest id d -> Hr Hb.
    destruct (fold_first_reading _ _ _ _ _ _ _ _ Hf Hr Hb) as (more & Hm).
    unfold native_value. unfold dates_of in Hm.
    destruct (dict_find (PStr id) result); [now subst|discriminate].
Qed.

End SensorOnCalendar.

Section CalendarEntity.

Import Calendar Tracking.

Context {rt : Runtime}.
Variable unique_id : string.
Variable fractions : list (string * (string * string)).
Variable registry : string -> option string.
Variable states : string -> option (option pyval).

Local Abbreviation event_step :=
  (Calendar.event_step unique_id fractions registry states).
Local Abbreviation event := (Calendar.event unique_id fractions registry states).
Local Abbreviation sensor_of := (Tracking.sensor_of unique_id registry).
Local Abbreviation tracked := (Tracking.tracked unique_id registry states).
Local Abbreviation registered := (Tracking.registered unique_id registry).
Local Abbreviation due := (Tracking.due unique_id registry states).
Local Abbreviation label_at :=
  (Tracking.label_at unique_id fractions registry states).
Local Abbreviation labels_due :=
  (Tracking.labels_due unique_id fractions registry states).
Local Abbreviation scanned :=
  (Tracking.scanned unique_id fractions registry states).

Lemma registered_app a b : registered (a ++ b) = registered a ++ registered b.
Proof. unfold Tracking.registered. apply flat_map_app. Qed.

Lemma map_res_app {A B} (f : A -> res B) l x ys y :
  map_res f l = Val ys -> f x = Val y ->
  map_res f (l ++ [x]) = Val (ys ++ [y]).
Proof.
  revert ys. induction l as [|a l IH]; simpl; intros ys Hl Hx.
  - inversion Hl; subst. now rewrite Hx.
  - destruct (f a) as [b|]; cbn [res_bind] in *; [|discriminate].
    destruct (map_res f l) as [bs|]; cbn [res_bind] in *; [|discriminate].
    inversion Hl; subst. now rewrite (IH bs eq_refl Hx).
Qed.

Lemma filter_none {A} (f : A -> bool) l :
  (forall x, In x l -> f x = false) -> filter f l = [].
Proof.
  induction l as [|a l IH]; intros H; simpl; [reflexivity|].
  rewrite (H a (or_introl eq_refl)). apply IH.
  intros x Hx. apply H. now right.
Qed.

Lemma labels_due_skip d seen b :
  due d b = false -> labels_due d (seen ++ [b]) = labels_due d seen.
Proof.
  intros H. unfold Tracking.labels_due. rewrite filter_app. simpl.
  rewrite H. now rewrite app_nil_r.
Qed.

Lemma labels_due_take d seen b l label :
  due d b = true -> labels_due d seen = Val l -> label_at b = Val label ->
  labels_due d (seen ++ [b]) = Val (l ++ [label]).
Proof.
  intros H Hl Hb. unfold Tracking.labels_due in *. rewrite filter_app.
  simpl. rewrite H. now apply map_res_app.
Qed.

(** One turn of the loop keeps what holds of its variables. *)
Lemma event_step_scanned seen b st st' :
  scanned seen st -> event_step b st = Val st' -> scanned (seen ++ [b]) st'.
Proof.
  intros (Hids & Hleast & Hlabels) H.
  destruct b as [k dates]. unfold Calendar.event_step in H.
  unfold Tracking.scanned.
  assert (Hreg : registered (seen ++ [(k, dates)])
                 = registered seen
                   ++ match sensor_of k with Some e => [e] | None => [] end).
  { rewrite registered_app. unfold Tracking.registered at 2. simpl.
    now rewrite app_nil_r. }
  assert (Hdue : forall d, tracked k = None -> due d (k, dates) = false).
  { intros d Ht. unfold Tracking.due. simpl. now rewrite Ht. }
  assert (Hkeep : forall st1,
             tracked k = None ->
             next_collect st1 = next_collect st ->
             labels st1 = labels st ->
             entity_ids st1 = registered (seen ++ [(k, dates)]) ->
             scanned (seen ++ [(k, dates)]) st1).
  { intros st1 Ht Hn Hl Hi. unfold Tracking.scanned.
    rewrite Hn, Hl. split; [exact Hi|]. split.
    - intros k' first rest fn Hin Htr. apply in_app_iff in Hin.
      destruct Hin as [Hin|[Heq|[]]]; [eauto|].
      inversion Heq; subst. congruence.
    - destruct (labels st) as [l|]; [|exact Hlabels].
      destruct Hlabels as (Hne & Hl' & k' & rest & fn & Hin & Htr).
      split; [exact Hne|]. split.
      + rewrite labels_due_skip; [exact Hl'|now apply Hdue].
      + exists k', rest, fn. split; [|exact Htr].
        apply in_app_iff. now left. }
  unfold Tracking.tracked, Tracking.sensor_of in Hreg, Hdue, Hkeep |- *.
  destruct (sensor_unique_id unique_id k) as [uid|] eqn:Eu;
    cbn [res_bind] in H; [|discriminate].
  destruct (registry uid) as [eid|] eqn:Er.
  2:{ inversion H; subst. apply Hkeep; auto.
      now rewrite Hreg, app_nil_r. }
  destruct (String.eqb eid "") eqn:Ee.
  { inversion H; subst. apply Hkeep; auto.
    now rewrite Hreg, app_nil_r. }
  destruct (states eid) as [fn|] eqn:Es.
  2:{ inversion H; subst. apply Hkeep; auto. simpl. now rewrite Hids, Hreg. }
  cbn [next_collect labels entity_ids] in H.
  destruct dates as [|first rest]; [discriminate|].
  change (seq_index (first :: rest) 0) with (Val first) in H.
  cbn [res_bind] in H.
  assert (Htracked : tracked k = Some fn).
  { unfold Tracking.tracked, Tracking.sensor_of. now rewrite Eu, Er, Ee. }
  destruct (date_ltb (next_collect st) first) eqn:Elt.
  - (* continue *)
    inversion H; subst. cbn [next_collect labels entity_ids].
    split; [now rewrite Hids, Hreg|]. split.
    + intros k' f' r' fn' Hin Htr. apply in_app_iff in Hin.
      destruct Hin as [Hin|[Heq|[]]]; [eauto|].
      inversion Heq; subst. now apply date_ltb_leb.
    + destruct (labels st) as [l|]; [|exact Hlabels].
      destruct Hlabels as (Hne & Hl' & k' & r' & fn' & Hin & Htr).
      split; [exact Hne|]. split.
      * rewrite labels_due_skip; [exact Hl'|].
        unfold Tracking.due. simpl.
        fold (Tracking.sensor_of unique_id registry k).
        fold (Tracking.tracked unique_id registry states k).
        rewrite Htracked.
        destruct (date_eqb first (next_collect st)) eqn:Eq; [|reflexivity].
        apply date_eqb_eq in Eq. subst.
        now rewrite date_ltb_irrefl in Elt.
      * exists k', r', fn'. split; [|exact Htr].
        apply in_app_iff. now left.
  - cbn [res_bind] in H.
    destruct (date_ltb first (next_collect st)) eqn:Egt;
      cbn [res_bind next_collect labels entity_ids] in H.
    + (* a new earliest date *)
      destruct (label_of fractions k fn) as [label|] eqn:El;
        cbn [res_bind] in H; [|discriminate].
      inversion H; subst. cbn [next_collect labels entity_ids].
      split; [now rewrite Hids, Hreg|]. split.
      * intros k' f' r' fn' Hin Htr. apply in_app_iff in Hin.
        destruct Hin as [Hin|[Heq|[]]].
        -- eapply date_leb_trans; [|eapply Hleast; eassumption].
           now apply date_ltb_leb.
        -- inversion Heq; subst. apply date_leb_refl.
      * split; [discriminate|]. split.
        -- assert (Hnone : filter (due first) seen = []).
           { apply filter_none.
             intros [k' d'] Hin. unfold Tracking.due. simpl.
             destruct (Tracking.tracked unique_id registry states k')
               as [fn'|] eqn:Et; [|reflexivity].
             destruct d' as [|f' r']; [reflexivity|].
             destruct (date_eqb f' first) eqn:Eq; [|reflexivity].
             apply date_eqb_eq in Eq. subst f'.
             pose proof (Hleast _ _ _ _ Hin Et) as Hle.
             unfold date_leb in Hle. now rewrite Egt in Hle. }
           unfold Tracking.labels_due. rewrite filter_app, Hnone. simpl.
           unfold Tracking.due at 1. simpl.
           fold (Tracking.sensor_of unique_id registry k).
           fold (Tracking.tracked unique_id registry states k).
           rewrite Htracked, (proj2 (date_eqb_eq first first) eq_refl).
           simpl. unfold Tracking.label_at at 1. simpl.
           fold (Tracking.sensor_of unique_id registry k).
           fold (Tracking.tracked unique_id registry states k).
           rewrite Htracked, El. reflexivity.
        -- exists k, rest, fn. split; [|exact Htracked].
           apply in_app_iff. right. now left.
    + (* the same date again *)
      assert (Heq : next_collect st = first) by (now apply date_between).
      destruct (labels st) as [l|] eqn:Elab; [|discriminate].
      destruct (label_of fractions k fn) as [label|] eqn:El;
        cbn [res_bind] in H; [|discriminate].
      inversion H; subst. cbn [next_collect labels entity_ids].
      destruct Hlabels as (Hne & Hl' & k' & r' & fn' & Hin & Htr).
      split; [now rewrite Hids, Hreg|]. split.
      * intros k'' f' r'' fn'' Hin' Htr'. apply in_app_iff in Hin'.
        destruct Hin' as [Hin'|[Heq'|[]]]; [eauto|].
        inversion Heq'; subst. apply date_leb_refl.
      * split; [now destruct l|]. split.
        -- apply labels_due_take; [|exact Hl'|].
           ++ unfold Tracking.due. simpl.
              fold (Tracking.sensor_of unique_id registry k).
              fold (Tracking.tracked unique_id registry states k).
              rewrite Htracked. now apply date_eqb_eq.
           ++ unfold Tracking.label_at. simpl.
              fold (Tracking.sensor_of unique_id registry k).
              fold (Tracking.tracked unique_id registry states k).
              now rewrite Htracked.
        -- exists k', r', fn'. split; [|exact Htr].
           apply in_app_iff. now left.
Qed.

Lemma event_fold_scanned rest :
  forall seen st st',
    scanned seen st -> fold_res event_step rest st = Val st' ->
    scanned (seen ++ rest) st'.
Proof.
  induction rest as [|b rest IH]; intros seen st st' Hs H; simpl in H.
  - inversion H; subst. now rewrite app_nil_r.
  - destruct (event_step b st) as [st1|] eqn:E; cbn [res_bind] in H;
      [|discriminate].
    replace (seen ++ b :: rest) with ((seen ++ [b]) ++ rest)
      by (now rewrite <- app_assoc).
    eapply IH; [|exact H]. eapply event_step_scanned; eassumption.
Qed.

Lemma event_scanned calendar st :
  fold_res event_step calendar (mkscan date_max None []) = Val st ->
  scanned calendar st.
Proof.
  intros H. apply (event_fold_scanned calendar [] _ _) in H; [exact H|].
  repeat split. intros k first rest fn [].
Qed.


(** X16: the calendar's next event is the earliest first collection.
    When [event] returns an event, it starts on the first date listed
    for a tracked fraction (one whose sensor is registered and has a
    state) and ends the day after; no tracked fraction has an earlier
    first date; and its summary joins with " - " the labels of the
    tracked fractions whose first date is that day, in calendar order. *)
Theorem event_is_earliest (data : option (pydict (list pydate)))
    (listener l' : option (list string)) (ev : CalendarEvent) :
  event data listener = (Val (Some ev), l') ->
  next_date (start ev) = Val (finish ev)
  /\ exists calendar due_labels s,
       data = Some calendar
       /\ (exists k rest friendly_name,
             In (k, start ev :: rest) calendar
             /\ tracked k = Some friendly_name)
       /\ (forall k first rest friendly_name,
             In (k, first :: rest) calendar ->
             tracked k = Some friendly_name ->
             date_leb (start ev) first = true)
       /\ labels_due (start ev) calendar = Val due_labels
       /\ join " - " due_labels = Val s
       /\ summary ev = PStr s.
Proof.
  unfold Calendar.event. destruct data as [calendar|]; [|discriminate].
  destruct (fold_res event_step calendar (mkscan date_max None []))
    as [st|] eqn:E; [|discriminate].
  destruct (event_scanned _ _ E) as (_ & Hleast & Hlabels).
  destruct (labels st) as [[|label more]|]; try discriminate.
  destruct (join " - " (label :: more)) as [s|] eqn:Ej; [|discriminate].
  cbn [res_bind]. unfold all_day.
  destruct (next_date (next_collect st)) as [next|] eqn:En; [|discriminate].
  cbn [res_bind]. intros H. inversion H; subst. cbn [start finish summary].
  split; [exact En|].
  destruct Hlabels as (_ & Hl & Hex).
  exists calendar, (label :: more), s. auto 10.
Qed.

(** X17: the entity listens for state changes exactly when it has no
    event to show.  Whatever listener was in place is dropped first; on
    existing data without event a new one is left on the entity ids of
    all registered sensors, in which case every tracked fraction's first
    date is at or past [date.max]; with an event, with an error or
    without data none is left. *)
Theorem listener_when_no_event (data : option (pydict (list pydate)))
    (listener : option (list string)) :
  match event data listener with
  | (Val None, l') =>
      match data with
      | None => l' = None
      | Some calendar =>
          l' = Some (registered calendar)
          /\ forall k first rest friendly_name,
               In (k, first :: rest) calendar ->
               tracked k = Some friendly_name ->
               date_leb date_max first = true
      end
  | (_, l') => l' = None
  end.
Proof.
  unfold Calendar.event. destruct data as [calendar|]; [|reflexivity].
  destruct (fold_res event_step calendar (mkscan date_max None []))
    as [st|] eqn:E; [|reflexivity].
  destruct (event_scanned _ _ E) as (Hids & Hleast & Hlabels).
  destruct (labels st) as [[|label more]|].
  - destruct Hlabels as (Hne & _). congruence.
  - destruct (join " - " (label :: more)) as [s|]; cbn [res_bind];
      [|reflexivity].
    destruct (all_day (next_collect st) (PStr s)); reflexivity.
  - rewrite Hids. split; [reflexivity|]. now rewrite <- Hlabels.
Qed.

Variable zip_code_id street_id : string.
Variable house_number : Z.
Variable remote : server.
Variable now : pydate.
Variable COLLECTION_TYPES : list string.
Variable hash_lookup : bool.

Local Abbreviation events_of :=
  (Calendar.events_of unique_id fractions registry states).
Local Abbreviation async_get_events :=
  (Calendar.async_get_events unique_id fractions zip_code_id street_id
     house_number registry states remote now COLLECTION_TYPES hash_lookup).

Lemma in_map_res {A B} (f : A -> res B) l ys y :
  map_res f l = Val ys ->
  In y ys <-> exists x, In x l /\ f x = Val y.
Proof.
  revert ys. induction l as [|a l IH]; simpl; intros ys H.
  - inversion H; subst. split; [intros []|intros (x & [] & _)].
  - destruct (f a) as [b|] eqn:Ea; cbn [res_bind] in H; [|discriminate].
    destruct (map_res f l) as [bs|]; cbn [res_bind] in H; [|discriminate].
    inversion H; subst. simpl. rewrite (IH bs eq_refl). split.
    + intros [->|(x & Hx & Hf)]; eauto.
    + intros (x & [->|Hx] & Hf); [left; congruence|right; eauto].
Qed.

Lemma in_flat_map_res {A B} (f : A -> res (list B)) l ys y :
  flat_map_res f l = Val ys ->
  In y ys <-> exists x xs, In x l /\ f x = Val xs /\ In y xs.
Proof.
  revert ys. induction l as [|a l IH]; simpl; intros ys H.
  - inversion H; subst. split; [intros []|intros (x & xs & [] & _)].
  - destruct (f a) as [b|] eqn:Ea; cbn [res_bind] in H; [|discriminate].
    destruct (flat_map_res f l) as [bs|]; cbn [res_bind] in H;
      [|discriminate].
    inversion H; subst. rewrite in_app_iff, (IH bs eq_refl). split.
    + intros [Hy|(x & xs & Hx & Hf & Hy)]; eauto 6.
    + intros (x & xs & [->|Hx] & Hf & Hy);
        [left; congruence|right; eauto].
Qed.

Lemma in_map_ending {A B} (f : A -> ending B) l ys y :
  map_ending f l = Returned ys ->
  In y ys <-> exists x, In x l /\ f x = Returned y.
Proof.
  revert ys. induction l as [|a l IH]; simpl; intros ys H.
  - inversion H; subst. split; [intros []|intros (x & [] & _)].
  - destruct (f a) as [b| |] eqn:Ea; cbn [ending_bind] in H;
      try discriminate.
    destruct (map_ending f l) as [bs| |]; cbn [ending_bind] in H;
      try discriminate.
    inversion H; subst. simpl. rewrite (IH bs eq_refl). split.
    + intros [->|(x & Hx & Hf)]; eauto.
    + intros (x & [->|Hx] & Hf); [left; congruence|right; eauto].
Qed.

Lemma map_ending_each {A B} (f : A -> ending B) l ys x :
  map_ending f l = Returned ys -> In x l -> exists y, f x = Returned y.
Proof.
  revert ys. induction l as [|a l IH]; simpl; intros ys H Hin;
    [destruct Hin|].
  destruct (f a) as [b| |] eqn:Ea; cbn [ending_bind] in H; try discriminate.
  destruct (map_ending f l) as [bs| |]; cbn [ending_bind] in H;
    try discriminate.
  destruct Hin as [<-|Hin]; [eauto|]. eapply IH; eauto.
Qed.

Lemma flat_map_ending_each {A B} (f : A -> ending (list B)) l ys x :
  flat_map_ending f l = Returned ys ->
  In x l -> exists xs, f x = Returned xs.
Proof.
  revert ys. induction l as [|a l IH]; simpl; intros ys H Hin;
    [destruct Hin|].
  destruct (f a) as [b| |] eqn:Ea; cbn [ending_bind] in H; try discriminate.
  destruct (flat_map_ending f l) as [bs| |]; cbn [ending_bind] in H;
    try discriminate.
  destruct Hin as [<-|Hin]; [eauto|]. eapply IH; eauto.
Qed.

Lemma in_flat_map_ending {A B} (f : A -> ending (list B)) l ys y :
  flat_map_ending f l = Returned ys ->
  In y ys <-> exists x xs, In x l /\ f x = Returned xs /\ In y xs.
Proof.
  revert ys. induction l as [|a l IH]; simpl; intros ys H.
  - inversion H; subst. split; [intros []|intros (x & xs & [] & _)].
  - destruct (f a) as [b| |] eqn:Ea; cbn [ending_bind] in H;
      try discriminate.
    destruct (flat_map_ending f l) as [bs| |]; cbn [ending_bind] in H;
      try discriminate.
    inversion H; subst. rewrite in_app_iff, (IH bs eq_refl). split.
    + intros [Hy|(x & xs & Hx & Hf & Hy)]; eauto 6.
    + intros (x & xs & [->|Hx] & Hf & Hy);
        [left; congruence|right; eauto].
Qed.

(** A summary that is a str passes the schema: the constructor is
    [all_day] there. *)
Lemma new_event_str (d : pydate) (s : string) :
  new_event d (PStr s) = of_res (all_day d (PStr s)).
Proof. reflexivity. Qed.

Lemma new_event_returned d label e :
  new_event d label = Returned e
  <-> summary_accepted label = true
      /\ start e = d /\ summary e = label
      /\ next_date d = Val (finish e).
Proof.
  unfold new_event, all_day. destruct (summary_accepted label).
  - destruct (next_date d) as [next|]; cbn [res_bind of_res]; split.
    + intros H; inversion H; subst. auto.
    + intros (_ & <- & <- & Hn). inversion Hn; subst. now destruct e.
    + discriminate.
    + intros (_ & _ & _ & Hn). discriminate.
  - split; [discriminate|]. intros (H & _). discriminate.
Qed.

Lemma in_events_of k dates evs e :
  events_of (k, dates) = Returned evs ->
  In e evs
  <-> next_date (start e) = Val (finish e)
      /\ exists friendly_name,
           tracked k = Some friendly_name
           /\ In (start e) dates
           /\ label_of fractions k friendly_name = Val (summary e).
Proof.
  unfold Calendar.events_of, Tracking.tracked, Tracking.sensor_of.
  destruct (sensor_unique_id unique_id k) as [uid|];
    cbn [of_res ending_bind]; [|discriminate].
  destruct (registry uid) as [eid|].
  2:{ intros H; inversion H; subst.
      split; [intros []|intros (_ & fn & Hf & _); discriminate]. }
  destruct (String.eqb eid "").
  { intros H; inversion H; subst.
    split; [intros []|intros (_ & fn & Hf & _); discriminate]. }
  destruct (states eid) as [fn|].
  2:{ intros H; inversion H; subst.
      split; [intros []|intros (_ & fn & Hf & _); discriminate]. }
  intros H. rewrite (in_map_ending _ _ _ e H). split.
  - intros (d & Hd & Hl).
    destruct (label_of fractions k fn) as [label|] eqn:El;
      cbn [of_res ending_bind] in Hl; [|discriminate].
    apply new_event_returned in Hl. destruct Hl as (_ & <- & <- & Hn).
    split; [exact Hn|]. exists fn. auto.
  - intros (Hfin & fn' & Hfn & Hd & Hl). inversion Hfn; subst fn'.
    exists (start e). split; [exact Hd|]. rewrite Hl.
    cbn [of_res ending_bind].
    destruct (map_ending_each _ _ _ _ H Hd) as (e' & Hb).
    rewrite Hl in Hb. cbn [of_res ending_bind] in Hb.
    rewrite Hb. f_equal.
    apply new_event_returned in Hb. destruct Hb as (_ & Hs & Hm & Hn).
    rewrite Hfin in Hn. inversion Hn.
    destruct e, e'; simpl in *. congruence.
Qed.

(** X18: the events of a date range.  When [async_get_events] returns,
    the events are in ascending order of their start date whatever the
    order of the records was; each ends the day after it starts; and
    there is one for every date the calendar of [get_collections]
    (fetched by a new client) lists for a tracked fraction, labelled as
    that fraction, and no other. *)
Theorem events_sorted_and_complete (start_date end_date : pydate)
    (log log' : list request) (events : list CalendarEvent) :
  async_get_events start_date end_date log = (Returned events, log') ->
  StronglySorted (key_le start) events
  /\ exists collections w,
       get_collections remote now COLLECTION_TYPES hash_lookup
         zip_code_id street_id house_number
         (Some start_date) (Some end_date) 100
         (mkworld (mkapi false None) log)
       = (Return collections, w)
       /\ log' = sent w
       /\ forall e,
            In e events
            <-> next_date (start e) = Val (finish e)
                /\ exists k dates friendly_name,
                     In (k, dates) collections
                     /\ tracked k = Some friendly_name
                     /\ In (start e) dates
                     /\ label_of fractions k friendly_name
                        = Val (summary e).
Proof.
  unfold Calendar.async_get_events.
  destruct (get_collections _ _ _ _ _ _ _ _ _ _ _)
    as [[collections|x|] w] eqn:Eg; try discriminate.
  destruct (flat_map_ending events_of collections) as [evs| |] eqn:Ee;
    cbn [ending_bind]; try discriminate.
  intros H; inversion H; subst. split; [apply sorted_ordered|].
  exists collections, w. split; [reflexivity|]. split; [reflexivity|].
  intros e. rewrite in_sorted, (in_flat_map_ending _ _ _ e Ee). split.
  - intros ([k dates] & xs & Hin & Hf & He).
    apply (in_events_of _ _ _ _ Hf) in He.
    destruct He as (Hfin & fn & Ht & Hd & Hl).
    split; [exact Hfin|]. exists k, dates, fn. auto.
  - intros (Hfin & k & dates & fn & Hin & Ht & Hd & Hl).
    destruct (flat_map_ending_each _ _ _ _ Ee Hin) as (xs & Ex).
    exists (k, dates), xs. split; [exact Hin|]. split; [exact Ex|].
    apply (in_events_of _ _ _ _ Ex). split; [exact Hfin|].
    exists fn. auto.
Qed.

End CalendarEntity.

Section ZipCodes.

Context {rt : Runtime}.
Variable remote : server.

Local Abbreviation __get := (Api.__get remote).
Local Abbreviation get_zip_code := (Api.get_zip_code remote).

Lemma zip_code_names_length language item pairs :
  zip_code_names language item = Val pairs ->
  exists names,
    variants_of item = Val names
    /\ List.length pairs = List.length names.
Proof.
  unfold zip_code_names, variants_of.
  destruct (subscript item "names") as [c|]; cbn [res_bind];
    [|discriminate].
  destruct (iterate c) as [names|]; cbn [res_bind]; [|discriminate].
  intros H. exists names. split; [reflexivity|].
  revert pairs H. induction names as [|n names IH]; simpl; intros pairs H.
  - inversion H; reflexivity.
  - repeat unpack H. simpl. f_equal. now apply IH.
Qed.

Lemma zip_code_names_in language item pairs id label :
  zip_code_names language item = Val pairs ->
  In (id, label) pairs
  <-> exists names name code localized,
        variants_of item = Val names
        /\ In name names
        /\ subscript item "id" = Val id
        /\ subscript item "code" = Val code
        /\ subscript name language = Val localized
        /\ label = (format_value code ++ " - "
                    ++ format_value localized)%string.
Proof.
  unfold zip_code_names, variants_of.
  destruct (subscript item "names") as [c|]; cbn [res_bind];
    [|discriminate].
  destruct (iterate c) as [names|]; cbn [res_bind]; [|discriminate].
  intros H. rewrite (in_map_res _ _ _ (id, label) H). split.
  - intros (name & Hin & Hn). repeat unpack Hn.
    exists names, name. eauto 10.
  - intros (names' & name & code & localized & Hn & Hin & Hid & Hc & Hl & ->).
    inversion Hn; subst names'. exists name. split; [exact Hin|].
    rewrite Hid, Hc, Hl. reflexivity.
Qed.

(** X19: [get_zip_code] keeps every name variant.  When it returns,
    there is one (id, label) pair for each name variant of each item of
    the response and no other, so an item with several names gives as
    many pairs under one id, and a response without items gives the
    empty list rather than an error; the label is the item's code and
    the variant's name in the language asked for, joined by " - ". *)
Theorem zip_code_keeps_every_variant (zip_code : Z) (language : string)
    (w w' : world) (result : list (pyval * string)) :
  get_zip_code zip_code language w = (Return result, w') ->
  exists response items variants,
    __get (zip_action zip_code) w = (Return response, w')
    /\ records_of response = Val items
    /\ map_res variants_of items = Val variants
    /\ List.length result = List.length (List.concat variants)
    /\ forall id label,
         In (id, label) result
         <-> exists item names name code localized,
               In item items
               /\ variants_of item = Val names
               /\ In name names
               /\ subscript item "id" = Val id
               /\ subscript item "code" = Val code
               /\ subscript name language = Val localized
               /\ label = (format_value code ++ " - "
                           ++ format_value localized)%string.
Proof.
  unfold Api.get_zip_code. intros H.
  apply bind_returns in H. destruct H as (response & w1 & Hg & H).
  apply lift_return in H. destruct H as [H ->].
  destruct (subscript response "items") as [c|] eqn:Ec; [|discriminate].
  cbn [res_bind] in H.
  destruct (iterate c) as [items|] eqn:Ei; [|discriminate].
  cbn [res_bind] in H.
  assert (Hv : exists variants,
             map_res variants_of items = Val variants
             /\ List.length result = List.length (List.concat variants)).
  { clear - H. revert result H.
    induction items as [|item items IH]; simpl; intros result H.
    - inversion H; subst. exists []. auto.
    - destruct (zip_code_names language item) as [pairs|] eqn:Ep;
        cbn [res_bind] in H; [|discriminate].
      destruct (flat_map_res (zip_code_names language) items) as [more|];
        cbn [res_bind] in H; [|discriminate].
      destruct (zip_code_names_length _ _ _ Ep) as (names & Hn & Hl).
      destruct (IH more eq_refl) as (variants & Hm & Hl').
      rewrite Hn, Hm. cbn [res_bind]. inversion H; subst.
      exists (names :: variants). split; [reflexivity|].
      simpl. rewrite !length_app. congruence. }
  destruct Hv as (variants & Hv & Hlen).
  exists response, items, variants.
  split; [exact Hg|]. split; [unfold records_of; rewrite Ec; exact Ei|].
  split; [exact Hv|]. split; [exact Hlen|].
  intros id label. rewrite (in_flat_map_res _ _ _ (id, label) H). split.
  - intros (item & pairs & Hin & Hp & Hl).
    apply (zip_code_names_in _ _ _ _ _ Hp) in Hl.
    destruct Hl as (names & name & code & localized & Hl).
    exists item, names, name, code, localized. tauto.
  - intros (item & names & name & code & localized & Hin & Hl).
    destruct (zip_code_names language item) as [pairs|] eqn:Ep.
    + exists item, pairs. split; [exact Hin|]. split; [exact Ep|].
      apply (zip_code_names_in _ _ _ _ _ Ep). eauto 10.
    + exfalso. clear - H Hin Ep. revert result H.
      induction items as [|i items IH]; intros result H; [destruct Hin|].
      simpl in H. destruct Hin as [->|Hin].
      * rewrite Ep in H. discriminate.
      * destruct (zip_code_names language i); cbn [res_bind] in H;
          [|discriminate].
        destruct (flat_map_res (zip_code_names language) items);
          [|discriminate].
        eapply IH; eauto.
Qed.

End ZipCodes.

Section UniqueIds.

Import Calendar.

Lemma prefix_app (old s : string) :
  String.prefix old s = true -> exists b, s = (old ++ b)%string.
Proof.
  revert s. induction old as [|c old IH]; intros s H.
  - exists s. reflexivity.
  - destruct s as [|c' s]; simpl in H; [discriminate|].
    destruct (Ascii.ascii_dec c c') as [->|]; [|discriminate].
    destruct (IH s H) as [b ->]. exists b. reflexivity.
Qed.

Lemma append_assoc (a b c : string) :
  ((a ++ b) ++ c = a ++ (b ++ c))%string.
Proof. induction a as [|x a IH]; simpl; [reflexivity|now rewrite IH]. Qed.

(** An occurrence of "-calendar" that starts inside [s] does not reach
    into a "-calendar" appended to it: the hyphen comes once. *)
Lemma no_straddle (s : string) :
  (forall a b, s <> (a ++ "-calendar" ++ b)%string) ->
  s <> EmptyString ->
  String.prefix "-calendar" (s ++ "-calendar") = false.
Proof.
  intros H Hne.
  destruct (String.prefix "-calendar" (s ++ "-calendar")) eqn:E;
    [|reflexivity].
  exfalso. apply prefix_app in E. destruct E as [b E].
  destruct s as [|c0 [|c1 [|c2 [|c3 [|c4 [|c5 [|c6 [|c7 [|c8 rest]]]]]]]]];
    simpl in E; try (now apply Hne); try discriminate E.
  injection E as -> -> -> -> -> -> -> -> -> E.
  exact (H EmptyString rest eq_refl).
Qed.

Lemma replace_appended (s : string) :
  (forall a b, s <> (a ++ "-calendar" ++ b)%string) ->
  replace "-calendar" "-" (s ++ "-calendar") = (s ++ "-")%string.
Proof.
  unfold replace. induction s as [|c s IH]; intros H; [reflexivity|].
  change (replace_from "-calendar" "-" 0 (String c s ++ "-calendar"))
    with (if String.prefix "-calendar" (String c s ++ "-calendar")
          then ("-" ++ replace_from "-calendar" "-" 8 (s ++ "-calendar"))%string
          else String c (replace_from "-calendar" "-" 0 (s ++ "-calendar"))).
  rewrite (no_straddle (String c s) H) by discriminate.
  rewrite IH; [reflexivity|].
  intros a b ->. exact (H (String c a) b eq_refl).
Qed.

(** X20: the calendar looks the sensors up under the ids the sensor
    platform gave them.  The calendar entity is set up with the unique
    id [f"{unique_id}-calendar"] and a fraction's sensor with
    [f"{unique_id}-{fraction}"]; replacing "-calendar" by "-" in the
    former and appending the fraction id gives the latter, provided
    "-calendar" does not occur in [unique_id] itself. *)
Theorem calendar_finds_sensor_ids (unique_id fraction : string) :
  (forall a b, unique_id <> (a ++ "-calendar" ++ b)%string) ->
  sensor_unique_id (calendar_unique_id unique_id) (PStr fraction)
  = Val (Sensor.fraction_sensor_id unique_id fraction).
Proof.
  intros H. unfold sensor_unique_id, base_id, calendar_unique_id,
    Sensor.fraction_sensor_id.
  rewrite (replace_appended _ H), append_assoc. reflexivity.
Qed.

End UniqueIds.

Section DateState.

Import Sensor.

Variable today : pydate.
Variable fractions : list (string * (string * string)).
Variable format_date : pydate -> string.

Lemma existsb_date_eqb (d : pydate) (dates : list pydate) :
  existsb (date_eqb d) dates = true <-> In d dates.
Proof.
  rewrite existsb_exists. split.
  - intros (x & Hin & He). apply date_eqb_eq in He. now subst.
  - intros Hin. exists d. split; [exact Hin|]. now apply date_eqb_eq.
Qed.

Lemma fractions_on_listed (calendar : pydict (list pydate)) (d : pydate)
    (configured : list (string * (string * string))) :
  exists names,
    fractions_on (Some calendar) d configured = Val names
    /\ forall fraction_name,
         In fraction_name names
         <-> exists fraction_id color,
               In (fraction_id, (color, fraction_name)) configured
               /\ In d (dates_of fraction_id calendar).
Proof.
  induction configured as [|[id [color fname]] configured IH]; simpl.
  - exists []. split; [reflexivity|]. intros n. split; [intros []|].
    intros (? & ? & [] & _).
  - destruct IH as (names & -> & IH). cbn [res_bind].
    eexists. split; [reflexivity|]. intros n.
    assert (Hl : (match dict_find (PStr id) calendar with
                  | Some dates => existsb (date_eqb d) dates
                  | None => false
                  end) = true <-> In d (dates_of id calendar)).
    { unfold dates_of. destruct (dict_find (PStr id) calendar).
      - apply existsb_date_eqb.
      - split; [discriminate|intros []]. }
    destruct (match dict_find (PStr id) calendar with
              | Some dates => existsb (date_eqb d) dates
              | None => false
              end) eqn:El.
    + simpl. rewrite IH. split.
      * intros [<-|(i & c & Hin & Hd)].
        -- exists id, color. split; [left; reflexivity|now apply Hl].
        -- exists i, c. auto.
      * intros (i & c & [Heq|Hin] & Hd).
        -- left. congruence.
        -- right. eauto.
    + rewrite IH. split.
      * intros (i & c & Hin & Hd). exists i, c. auto.
      * intros (i & c & [Heq|Hin] & Hd).
        -- inversion Heq; subst. apply Hl in Hd. discriminate.
        -- eauto.
Qed.

(** X21: what a date sensor shows.  With coordinator data and a date to
    show (today, tomorrow, or the upcoming date), [state] does not fail:
    its "fractions" attribute holds the names of exactly the configured
    fractions whose list in the data holds that date, at any position,
    its "date" attribute the formatted date, and the state is these
    names joined by ", ", prefixed with the date and ": " for the
    upcoming sensor only. *)
Theorem date_state_lists_collected (calendar : pydict (list pydate))
    (fraction_key : string) (d : pydate) :
  date_native_value (Some calendar) today fraction_key = Val (Some d) ->
  exists names,
    date_state (Some calendar) today fractions format_date fraction_key
    = Val (Some (if String.eqb fraction_key "collection_upcoming"
                 then (format_date d ++ ": "
                       ++ String.concat ", " names)%string
                 else String.concat ", " names,
                 (format_date d, names)))
    /\ forall fraction_name,
         In fraction_name names
         <-> exists fraction_id color,
               In (fraction_id, (color, fraction_name)) fractions
               /\ In d (dates_of fraction_id calendar).
Proof.
  intros H. unfold date_state. rewrite H. cbn [res_bind].
  destruct (fractions_on_listed calendar d fractions) as (names & -> & Hn).
  cbn [res_bind]. exists names. split; [reflexivity|exact Hn].
Qed.

End DateState.

(* ================================================================== *)
(** * The further properties on concrete runs                         *)
(* ================================================================== *)

Import Household.

Local Open Scope list_scope.

(** ** Session *)

Lemma initialize_idempotent_witness :
  initialize two_pages fresh = (Return tt, configured)
  /\ initialize two_pages configured = (Return tt, configured)
  /\ (sent configured = sent fresh
      \/ sent configured = config_request :: sent fresh)
  /\ (forall status j base,
        __session (self fresh) = false ->
        two_pages (sent fresh) config_request
        = Answered (mkresp status (Some j)) ->
        subscript j "API" = Val base ->
        __endpoint (self configured)
        = Some (format_value base ++ "/public/v1")%string).
Proof.
  assert (H : initialize two_pages fresh = (Return tt, configured))
    by (vm_compute; reflexivity).
  split; [exact H|].
  exact (initialize_idempotent two_pages fresh configured H).
Defined.

Lemma failed_initialisation_sticks_witness :
  __endpoint (self fresh) = None
  /\ initialize down fresh = (Raise (Builtin JSONDecodeError), unconfigured)
  /\ initialize down unconfigured = (Return tt, unconfigured)
  /\ (forall action,
        __get down action unconfigured
        = (Raise (Builtin AttributeError), unconfigured))
  /\ (forall action data,
        __post down action data unconfigured
        = (Raise (Builtin AttributeError), unconfigured)).
Proof.
  assert (H : initialize down fresh
              = (Raise (Builtin JSONDecodeError), unconfigured))
    by (vm_compute; reflexivity).
  split; [reflexivity|].
  split; [exact H|].
  exact (failed_initialisation_sticks down fresh unconfigured
           (Builtin JSONDecodeError) eq_refl H).
Defined.

(** ** Calendar *)

Lemma january_repeated :
  january repeated_date 100 fresh
  = (Return [(PStr "paper", [jan 8; jan 22]); (PStr "glass", [jan 22])],
     after [window_request "&size=100"] configured).
Proof. vm_compute. reflexivity. Qed.

Lemma january_out_of_order :
  january out_of_order 100 fresh
  = (Return [(PStr "glass", [jan 22]); (PStr "paper", [jan 22; jan 8])],
     after [window_request "&size=100"] configured).
Proof. vm_compute. reflexivity. Qed.

Lemma calendar_dates_are_readings_witness :
  january repeated_date 100 fresh
  = (Return [(PStr "paper", [jan 8; jan 22]); (PStr "glass", [jan 22])],
     after [window_request "&size=100"] configured)
  /\ exists until_date response items,
       __get repeated_date
         (collections_action "z1" "s1" 7 (jan 1) until_date 100) fresh
       = (Return response, after [window_request "&size=100"] configured)
       /\ records_of response = Val items
       /\ forall id d,
            In d (dates_of id [(PStr "paper", [jan 8; jan 22]);
                               (PStr "glass", [jan 22])])
            <-> exists item,
                  In item items
                  /\ reading types true item = Val (Some (PStr id, d)).
Proof.
  split; [exact january_repeated|].
  exact (calendar_dates_are_readings repeated_date today types true
           "z1" "s1" 7 (Some (jan 1)) (Some (mkdate 2024 2 1)) 100
           fresh _ _ january_repeated).
Defined.

Lemma no_fraction_without_date_witness :
  january repeated_date 100 fresh
  = (Return [(PStr "paper", [jan 8; jan 22]); (PStr "glass", [jan 22])],
     after [window_request "&size=100"] configured)
  /\ In (PStr "glass", [jan 22])
        [(PStr "paper", [jan 8; jan 22]); (PStr "glass", [jan 22])]
  /\ exists first, seq_index [jan 22] 0 = Val first.
Proof.
  split; [exact january_repeated|].
  split; [right; left; reflexivity|].
  exact (no_fraction_without_date repeated_date today types true
           "z1" "s1" 7 (Some (jan 1)) (Some (mkdate 2024 2 1)) 100
           fresh _ _ january_repeated (PStr "glass") [jan 22]
           (or_intror (or_introl eq_refl))).
Defined.

Lemma first_date_is_first_reading_witness :
  january out_of_order 100 fresh
  = (Return [(PStr "glass", [jan 22]); (PStr "paper", [jan 22; jan 8])],
     after [window_request "&size=100"] configured)
  /\ exists until_date response items,
       __get out_of_order
         (collections_action "z1" "s1" 7 (jan 1) until_date 100) fresh
       = (Return response, after [window_request "&size=100"] configured)
       /\ records_of response = Val items
       /\ forall before item rest id d,
            items = before ++ item :: rest ->
            reading types true item = Val (Some (PStr id, d)) ->
            (forall i x, In i before ->
                         reading types true i <> Val (Some (PStr id, x))) ->
            exists more,
              dict_find (PStr id)
                [(PStr "glass", [jan 22]); (PStr "paper", [jan 22; jan 8])]
              = Some (d :: more).
Proof.
  split; [exact january_out_of_order|].
  exact (first_date_is_first_reading out_of_order today types true
           "z1" "s1" 7 (Some (jan 1)) (Some (mkdate 2024 2 1)) 100
           fresh _ _ january_out_of_order).
Defined.

(** ** Pagination *)

Lemma scripted_answer (table : list (string * list reply))
    (hist : list request) (rq : request) :
  scripted table hist rq = not_found
  \/ exists u replies,
       In (u, replies) table /\ In (scripted table hist rq) replies.
Proof.
  unfold scripted.
  induction table as [|[u replies] table IH]; simpl; [left; reflexivity|].
  destruct (String.eqb u (rq_url rq)).
  - destruct (nth_in_or_default (asked (rq_url rq) hist) replies not_found)
      as [Hin|Hd]; [right|left; exact Hd].
    exists u, replies. split; [left; reflexivity|exact Hin].
  - destruct IH as [IH|(u' & r' & Hin & Hr)]; [left; exact IH|right].
    exists u', r'. split; [right; exact Hin|exact Hr].
Qed.

Lemma two_pages_declare_two : declares_at_most two_pages (Z.of_nat 2).
Proof.
  intros hist rq status v pages H Hp n Hn.
  assert (Hv : subscript v "pages" = Val (PInt 2)
               \/ subscript v "pages" = Err KeyError).
  { unfold two_pages in H.
    destruct (scripted_answer
                [configuration;
                 (url (window ++ "&size=1"), [ok (envelope_of [paper_8] 1 2)]);
                 (url (window ++ "&page=1&size=1"),
                  [ok (envelope_of [paper_8] 1 2)]);
                 (url (window ++ "&page=2&size=1"),
                  [ok (envelope_of [glass_22] 2 2)])] hist rq)
      as [Hn'|(u & replies & Hin & Hr)].
    - rewrite Hn' in H. discriminate H.
    - rewrite H in Hr.
      repeat (destruct Hin as [Hin|Hin];
              [inversion Hin; subst; clear Hin;
               destruct Hr as [Hr|[]]; inversion Hr; subst; auto|]).
      destruct Hin. }
  destruct Hv as [Hv|Hv]; rewrite Hv in Hp; [|discriminate Hp].
  inversion Hp; subst. unfold int_gt. simpl in Hn |- *.
  rewrite Z.mul_1_r.
  destruct (Z.compare_spec n 2); [lia|lia|discriminate].
Qed.

Lemma load_all_terminates_witness :
  declares_at_most two_pages (Z.of_nat 2)
  /\ (1 <= 2)%nat /\ (2 <= 2)%nat
  /\ fst (__load_all two_pages 2 window 1 fresh) <> OutOfFuel.
Proof.
  split; [exact two_pages_declare_two|].
  split; [lia|]. split; [lia|].
  exact (load_all_terminates two_pages 2 2 window 1 fresh
           two_pages_declare_two ltac:(lia) ltac:(lia)).
Defined.

Lemma endless_starts : starts endless fresh configured ep.
Proof. split; reflexivity. Qed.

Lemma endless_keeps_declaring : keeps_declaring endless ep window 100.
Proof.
  intros hist page Hpage.
  exists (PDict [("items", PList [paper_8]);
                 ("pages", PFloat (S754_infinity false))]),
         [paper_8], (PFloat (S754_infinity false)).
  split; [reflexivity|]. split; [reflexivity|]. split; [reflexivity|].
  split; reflexivity.
Qed.

Lemma load_all_can_run_for_ever_witness :
  starts endless fresh configured ep
  /\ keeps_declaring endless ep window 100
  /\ forall fuel, fst (__load_all endless fuel window 100 fresh) = OutOfFuel.
Proof.
  split; [exact endless_starts|].
  split; [exact endless_keeps_declaring|].
  exact (load_all_can_run_for_ever endless window 100 fresh configured ep
           endless_starts endless_keeps_declaring).
Defined.

Lemma no_pages_starts : starts no_pages fresh configured ep.
Proof. split; reflexivity. Qed.

Lemma load_all_single_page_witness :
  starts no_pages fresh configured ep
  /\ no_pages (sent configured) (page_request ep window 100 1)
     = Answered (mkresp 200 (Some (envelope_of [paper_8; glass_22] 1 0)))
  /\ envelope [paper_8; glass_22] 0 (envelope_of [paper_8; glass_22] 1 0)
  /\ 0 <= 1
  /\ __load_all no_pages 1 window 100 fresh
     = (Return [paper_8; glass_22],
        after [page_request ep window 100 1] configured).
Proof.
  assert (He : envelope [paper_8; glass_22] 0
                 (envelope_of [paper_8; glass_22] 1 0))
    by (eexists; split; [reflexivity|]; split; reflexivity).
  split; [exact no_pages_starts|].
  split; [reflexivity|].
  split; [exact He|].
  split; [lia|].
  exact (load_all_single_page no_pages window 100 0 [paper_8; glass_22]
           (envelope_of [paper_8; glass_22] 1 0) fresh configured ep 0
           no_pages_starts eq_refl He ltac:(lia)).
Defined.

(** ** Zip codes *)

Lemma brussels_localities :
  get_zip_code two_localities 1000 "fr" fresh
  = (Return [(PStr "1000-21004", "1000 - Bruxelles"%string);
             (PStr "1000-21004", "1000 - Laeken"%string)],
     after [zip_request GET] configured).
Proof. vm_compute. reflexivity. Qed.

Lemma zip_code_keeps_every_variant_witness :
  get_zip_code two_localities 1000 "fr" fresh
  = (Return [(PStr "1000-21004", "1000 - Bruxelles"%string);
             (PStr "1000-21004", "1000 - Laeken"%string)],
     after [zip_request GET] configured)
  /\ exists response items variants,
       __get two_localities (zip_action 1000) fresh
       = (Return response, after [zip_request GET] configured)
       /\ records_of response = Val items
       /\ map_res variants_of items = Val variants
       /\ List.length [(PStr "1000-21004", "1000 - Bruxelles"%string);
                       (PStr "1000-21004", "1000 - Laeken"%string)]
          = List.length (List.concat variants)
       /\ forall id label,
            In (id, label) [(PStr "1000-21004", "1000 - Bruxelles"%string);
                            (PStr "1000-21004", "1000 - Laeken"%string)]
            <-> exists item names name code localized,
                  In item items
                  /\ variants_of item = Val names
                  /\ In name names
                  /\ subscript item "id" = Val id
                  /\ subscript item "code" = Val code
                  /\ subscript name "fr" = Val localized
                  /\ label = (format_value code ++ " - "
                              ++ format_value localized)%string.
Proof.
  split; [exact brussels_localities|].
  exact (zip_code_keeps_every_variant two_localities 1000 "fr" fresh _ _
           brussels_localities).
Defined.

(** ** Catalogue and parks *)

Lemma renaming_catalogue :
  get_fractions renaming today types true 3 "z1" "s1" 7 "fr" 100 fresh
  = (Return [(PStr "paper", (PStr "#0072ce", PStr "Papier"));
             (PStr "glass", (PStr "#2b4c7e", PStr "glass"))],
     after [mkreq GET (url (catalogue_action ++ "&page=1&size=100")) PNone]
           configured).
Proof. vm_compute. reflexivity. Qed.

Lemma catalogue_is_last_reading_witness :
  get_fractions renaming today types true 3 "z1" "s1" 7 "fr" 100 fresh
  = (Return [(PStr "paper", (PStr "#0072ce", PStr "Papier"));
             (PStr "glass", (PStr "#2b4c7e", PStr "glass"))],
     after [mkreq GET (url (catalogue_action ++ "&page=1&size=100")) PNone]
           configured)
  /\ exists items,
       __load_all renaming 3 (fractions_action today "z1" "s1" 7) 100 fresh
       = (Return items,
          after [mkreq GET (url (catalogue_action ++ "&page=1&size=100"))
                       PNone] configured)
       /\ (forall id v,
             dict_find (PStr id)
               [(PStr "paper", (PStr "#0072ce", PStr "Papier"));
                (PStr "glass", (PStr "#2b4c7e", PStr "glass"))] = Some v ->
             exists f, In f items
                       /\ catalogue_reading types true "fr" f
                          = Val (Some (PStr id, v)))
       /\ (forall before f rest id v,
             items = before ++ f :: rest ->
             catalogue_reading types true "fr" f = Val (Some (PStr id, v)) ->
             (forall g x, In g rest ->
                          catalogue_reading types true "fr" g
                          <> Val (Some (PStr id, x))) ->
             dict_find (PStr id)
               [(PStr "paper", (PStr "#0072ce", PStr "Papier"));
                (PStr "glass", (PStr "#2b4c7e", PStr "glass"))] = Some v).
Proof.
  split; [exact renaming_catalogue|].
  exact (catalogue_is_last_reading renaming today types true 3
           "z1" "s1" 7 "fr" 100 fresh _ _ renaming_catalogue).
Defined.

Lemma two_parks_directory :
  get_recycling_parks two_parks "z1" "fr" fresh
  = (Return [(PStr "p1", park_of "Nord" lat_50_75 lon_4_5);
             (PStr "p2", park_of "Sud" PNone PNone)],
     after [mkreq GET (url parks_query) PNone] configured).
Proof. vm_compute. reflexivity. Qed.


(** ** Sensors and calendar entity *)

Lemma sensor_shows_first_reading_witness :
  january out_of_order 100 fresh
  = (Return [(PStr "glass", [jan 22]); (PStr "paper", [jan 22; jan 8])],
     after [window_request "&size=100"] configured)
  /\ (forall fraction,
         exists v,
           Sensor.native_value
             (Some [(PStr "glass", [jan 22]); (PStr "paper", [jan 22; jan 8])])
             fraction = Val v
           /\ (Sensor.available
                 (Some [(PStr "glass", [jan 22]);
                        (PStr "paper", [jan 22; jan 8])]) fraction = true
               <-> v <> None))
  /\ exists until_date response items,
       __get out_of_order
         (collections_action "z1" "s1" 7 (jan 1) until_date 100) fresh
       = (Return response, after [window_request "&size=100"] configured)
       /\ records_of response = Val items
       /\ forall before item rest id d,
            items = before ++ item :: rest ->
            reading types true item = Val (Some (PStr id, d)) ->
            (forall i x, In i before ->
                         reading types true i <> Val (Some (PStr id, x))) ->
            Sensor.native_value
              (Some [(PStr "glass", [jan 22]);
                     (PStr "paper", [jan 22; jan 8])]) id
            = Val (Some d).
Proof.
  split; [exact january_out_of_order|].
  exact (sensor_shows_first_reading out_of_order today types true
           "z1" "s1" 7 (Some (jan 1)) (Some (mkdate 2024 2 1)) 100
           fresh _ _ january_out_of_order).
Defined.

Lemma household_event :
  Calendar.event household names sensors shown (Some refreshed) None
  = (Val (Some (collection 8 "Papier et carton - Verre")), None).
Proof. vm_compute. reflexivity. Qed.

Lemma event_is_earliest_witness :
  Calendar.event household names sensors shown (Some refreshed) None
  = (Val (Some (collection 8 "Papier et carton - Verre")), None)
  /\ next_date (Calendar.start (collection 8 "Papier et carton - Verre"))
     = Val (Calendar.finish (collection 8 "Papier et carton - Verre"))
  /\ exists calendar due_labels s,
       Some refreshed = Some calendar
       /\ (exists k rest friendly_name,
             In (k, jan 8 :: rest) calendar
             /\ Tracking.tracked household sensors shown k
                = Some friendly_name)
       /\ (forall k first rest friendly_name,
             In (k, first :: rest) calendar ->
             Tracking.tracked household sensors shown k
             = Some friendly_name ->
             date_leb (jan 8) first = true)
       /\ Tracking.labels_due household names sensors shown (jan 8) calendar
          = Val due_labels
       /\ join " - " due_labels = Val s
       /\ PStr "Papier et carton - Verre" = PStr s.
Proof.
  split; [exact household_event|].
  exact (event_is_earliest household names sensors shown (Some refreshed)
           None None (collection 8 "Papier et carton - Verre")
           household_event).
Defined.

Lemma household_january :
  january_events out_of_order []
  = (Calendar.Returned [collection 8 "Papier et carton";
                        collection 22 "Verre";
                        collection 22 "Papier et carton"],
     [window_request "&size=100"; mkreq GET config_url PNone]).
Proof. vm_compute. reflexivity. Qed.

Lemma events_sorted_and_complete_witness :
  january_events out_of_order []
  = (Calendar.Returned [collection 8 "Papier et carton";
                        collection 22 "Verre";
                        collection 22 "Papier et carton"],
     [window_request "&size=100"; mkreq GET config_url PNone])
  /\ StronglySorted (key_le Calendar.start)
       [collection 8 "Papier et carton";
        collection 22 "Verre";
        collection 22 "Papier et carton"]
  /\ exists collections w,
       january out_of_order 100 (mkworld (mkapi false None) [])
       = (Return collections, w)
       /\ [window_request "&size=100"; mkreq GET config_url PNone] = sent w
       /\ forall e,
            In e [collection 8 "Papier et carton";
                  collection 22 "Verre";
                  collection 22 "Papier et carton"]
            <-> next_date (Calendar.start e) = Val (Calendar.finish e)
                /\ exists k dates friendly_name,
                     In (k, dates) collections
                     /\ Tracking.tracked household sensors shown k
                        = Some friendly_name
                     /\ In (Calendar.start e) dates
                     /\ Calendar.label_of names k friendly_name
                        = Val (Calendar.summary e).
Proof.
  split; [exact household_january|].
  exact (events_sorted_and_complete household names sensors shown
           "z1" "s1" 7 out_of_order today types true
           (jan 1) (mkdate 2024 2 1) [] _ _ household_january).
Defined.

(** ** Unique ids and date sensors *)

Lemma home_without_calendar (a b : string) :
  "home"%string <> (a ++ "-calendar" ++ b)%string.
Proof.
  intros H.
  destruct a as [|c0 [|c1 [|c2 [|c3 [|c4 a]]]]]; discriminate H.
Qed.

Lemma calendar_finds_sensor_ids_witness :
  (forall a b, "home"%string <> (a ++ "-calendar" ++ b)%string)
  /\ Calendar.sensor_unique_id (Calendar.calendar_unique_id "home")
       (PStr "paper")
     = Val (Sensor.fraction_sensor_id "home" "paper").
Proof.
  split; [exact home_without_calendar|].
  exact (calendar_finds_sensor_ids "home" "paper" home_without_calendar).
Defined.

Lemma date_state_lists_collected_witness :
  Sensor.date_native_value (Some refreshed) (jan 2) "collection_upcoming"
  = Val (Some (jan 8))
  /\ exists listed,
       Sensor.date_state (Some refreshed) (jan 2) Household.names ymd
         "collection_upcoming"
       = Val (Some ((ymd (jan 8) ++ ": " ++ String.concat ", " listed)%string,
                    (ymd (jan 8), listed)))
       /\ forall fraction_name,
            In fraction_name listed
            <-> exists fraction_id color,
                  In (fraction_id, (color, fraction_name)) Household.names
                  /\ In (jan 8) (dates_of fraction_id refreshed).
Proof.
  split; [reflexivity|].
  exact (date_state_lists_collected (jan 2) Household.names ymd refreshed
           "collection_upcoming" (jan 8) eq_refl).
Defined.
